(** * NASA Gallery Downloader: the fetch / validate / retry pipeline

    A shallow embedding of [nasa_image_downloader.py] and the properties
    of its naming scheme, content validator, resource locator, download
    worker and resume controller.

    Conventions of the embedding.
    - A Python [str] is held as the [string] of the bytes of its UTF-8
      encoding, so [str.encode()] is the identity; text read from a file
      is decoded first, and reading raises when the bytes are no UTF-8.
      [str.lower] is embedded as the lowering of the ASCII letters: the
      program only looks for ASCII terms in lowered text, and the two
      characters outside ASCII whose lower case has an ASCII letter
      (U+0130, to [i] and U+0307, and U+212A, to [k]) make no such term,
      as none has a [k] or ends with [i].
    - [os.path] is [posixpath] (separator [/]).
    - Python [int]s are [Z].
    - The file system is a finite map from paths to file contents.
      Creating a file ([open] with mode [w] or [wb]) raises when the
      environment says so; the two ledgers, which [main] opens before any
      function embedded here runs, are opened for reading and for
      appending without error.
    - The network, the HTML parser, [urljoin], the image decoder and the
      file system's answer to [open] are the environment of the program
      and are taken as parameters.
    - Sleeping, requests, log records and file openings are recorded as
      events, in the order they happen.
    - The worker pool is modelled by the order in which its futures
      complete; the calls run one after the other in that order. *)

From Stdlib Require Import ZArith Ascii String List Permutation Lia.
From stdpp Require Import gmap strings list.

Local Open Scope Z_scope.

(* ===================================================================== *)
(** * Python string operations *)
(* ===================================================================== *)

Module PyStr.

(** [bool(s)]: a string is truthy when it is not empty. *)
Definition truthy (s : string) : bool :=
  match s with "" => false | String _ _ => true end.

Definition len (s : string) : Z := Z.of_nat (String.length s).

(** [c.lower()] on one ASCII character: [A-Z] is moved to [a-z]. *)
Definition lower_char (c : ascii) : ascii :=
  let n := nat_of_ascii c in
  if ((65 <=? n) && (n <=? 90))%nat then ascii_of_nat (n + 32) else c.

(** [s.lower()] *)
Fixpoint lower (s : string) : string :=
  match s with
  | "" => ""
  | String c r => String (lower_char c) (lower r)
  end.

(** [s.startswith(p)] *)
Fixpoint startswith (p s : string) : bool :=
  match p, s with
  | "", _ => true
  | String _ _, "" => false
  | String a p', String b s' => if decide (a = b) then startswith p' s' else false
  end.

(** [needle in hay]: substring test. *)
Fixpoint contains (needle hay : string) : bool :=
  match hay with
  | "" => startswith needle ""
  | String _ r => startswith needle hay || contains needle r
  end.

(** [s.find(c)] for a one-character [c]: first index, or [-1]. *)
Fixpoint find (c : ascii) (s : string) : Z :=
  match s with
  | "" => -1
  | String a r =>
      if decide (a = c) then 0
      else let i := find c r in if i <? 0 then -1 else i + 1
  end.

(** [s.rfind(c)] for a one-character [c]: last index, or [-1]. *)
Fixpoint rfind (c : ascii) (s : string) : Z :=
  match s with
  | "" => -1
  | String a r =>
      let i := rfind c r in
      if 0 <=? i then i + 1 else if decide (a = c) then 0 else -1
  end.

Fixpoint drop (n : nat) (s : string) : string :=
  match n, s with
  | O, _ => s
  | S _, "" => ""
  | S n', String _ r => drop n' r
  end.

Fixpoint take (n : nat) (s : string) : string :=
  match n, s with
  | O, _ => ""
  | S _, "" => ""
  | S n', String c r => String c (take n' r)
  end.

(** A slice bound, as Python normalises it: negative bounds count from
    the end, and everything is clipped to [0 .. len s]. *)
Definition clip (i : Z) (s : string) : nat :=
  Z.to_nat (if i <? 0 then Z.max 0 (len s + i) else Z.min i (len s)).

(** [s[i:]] *)
Definition slice_from (i : Z) (s : string) : string := drop (clip i s) s.

(** [s[:i]] *)
Definition slice_to (i : Z) (s : string) : string := take (clip i s) s.

(** [s[i:i+1]] for [0 <= i]: the one-character string at [i], or [""]. *)
Definition char_at (i : Z) (s : string) : string := take 1 (slice_from i s).

(** [s.split(c)[0]] for a one-character separator. *)
Definition split_head (c : ascii) (s : string) : string :=
  let i := find c s in if i <? 0 then s else slice_to i s.

(** The string of the given bytes. *)
Definition of_bytes (l : list nat) : string :=
  fold_right (fun n s => String (ascii_of_nat n) s) "" l.

(** The characters for which [str.isspace] holds, each as its UTF-8
    bytes: U+0009 to U+000D, U+001C to U+0020, U+0085, U+00A0, U+1680,
    U+2000 to U+200A, U+2028, U+2029, U+202F, U+205F and U+3000. *)
Definition WHITESPACE : list string :=
  map of_bytes
    [ [9]; [10]; [11]; [12]; [13]; [28]; [29]; [30]; [31]; [32];
      [194; 133]; [194; 160]; [225; 154; 128];
      [226; 128; 128]; [226; 128; 129]; [226; 128; 130]; [226; 128; 131];
      [226; 128; 132]; [226; 128; 133]; [226; 128; 134]; [226; 128; 135];
      [226; 128; 136]; [226; 128; 137]; [226; 128; 138];
      [226; 128; 168]; [226; 128; 169]; [226; 128; 175];
      [226; 129; 159]; [227; 128; 128] ]%nat.

(** [c.isspace()] for one character [c], given as its UTF-8 bytes. *)
Definition isspace (c : string) : bool := bool_decide (c ∈ WHITESPACE).

(** The text after its first character, when that character is white
    space. *)
Definition skip_space (s : string) : option string :=
  match s with
  | String a r1 =>
      if isspace (String a "") then Some r1
      else match r1 with
           | String b r2 =>
               if isspace (String a (String b "")) then Some r2
               else match r2 with
                    | String c r3 =>
                        if isspace (String a (String b (String c "")))
                        then Some r3 else None
                    | "" => None
                    end
           | "" => None
           end
  | "" => None
  end.

(** The same from the end of a text that is given last byte first. *)
Definition skip_space_rev (s : string) : option string :=
  match s with
  | String a r1 =>
      if isspace (String a "") then Some r1
      else match r1 with
           | String b r2 =>
               if isspace (String b (String a "")) then Some r2
               else match r2 with
                    | String c r3 =>
                        if isspace (String c (String b (String a "")))
                        then Some r3 else None
                    | "" => None
                    end
           | "" => None
           end
  | "" => None
  end.

(** Skipping as long as there is something to skip; a text of [n] bytes
    is done after [n] steps at most. *)
Fixpoint strip_go (skip : string -> option string) (fuel : nat) (s : string)
  : string :=
  match fuel with
  | O => s
  | S fuel' =>
      match skip s with
      | Some r => strip_go skip fuel' r
      | None => s
      end
  end.

(** [s.lstrip()]: the leading white space goes. *)
Definition lstrip (s : string) : string :=
  strip_go skip_space (String.length s) s.

(** [s.rstrip()]: the trailing white space goes. *)
Definition rstrip (s : string) : string :=
  String.rev (strip_go skip_space_rev (String.length s) (String.rev s)).

(** [s.strip()] *)
Definition strip (s : string) : string := rstrip (lstrip s).

(** The lines a text-mode file iterator yields, without their line
    ends.  With universal newlines LF, CR and CR LF all end a line, and
    nothing else does; the empty line that CR LF adds under this
    definition is white space only, which every reader in this program
    drops. *)
Fixpoint lines_go (cur : string) (s : string) : list string :=
  match s with
  | "" => match cur with "" => [] | _ => [String.rev cur] end
  | String c r =>
      if decide (c = "010"%char) then String.rev cur :: lines_go "" r
      else if decide (c = "013"%char) then String.rev cur :: lines_go "" r
      else lines_go (String c cur) r
  end.
Definition lines (s : string) : list string := lines_go "" s.

(** ["".join(l)] *)
Fixpoint concat (l : list string) : string :=
  match l with
  | [] => ""
  | s :: r => s +:+ concat r
  end.

End PyStr.

(* ===================================================================== *)
(** * UTF-8 *)
(* ===================================================================== *)

Module Utf8.

Definition byte (c : ascii) : nat := nat_of_ascii c.

Definition between (lo hi : nat) (c : ascii) : bool :=
  ((lo <=? byte c) && (byte c <=? hi))%nat.

(** The bytes decode as UTF-8: every character is one byte below 0x80,
    or a lead byte with its continuation bytes, with no overlong form,
    no surrogate and nothing above U+10FFFF. *)
Fixpoint valid (s : string) : bool :=
  match s with
  | "" => true
  | String a r1 =>
      if between 0 127 a then valid r1
      else
        match r1 with
        | "" => false
        | String b r2 =>
            if between 194 223 a then between 128 191 b && valid r2
            else
              match r2 with
              | "" => false
              | String c r3 =>
                  if between 224 239 a then
                    (if between 224 224 a then between 160 191 b
                     else if between 237 237 a then between 128 159 b
                     else between 128 191 b)
                    && between 128 191 c && valid r3
                  else
                    match r3 with
                    | "" => false
                    | String d r4 =>
                        between 240 244 a
                        && (if between 240 240 a then between 144 191 b
                            else if between 244 244 a then between 128 143 b
                            else between 128 191 b)
                        && between 128 191 c && between 128 191 d
                        && valid r4
                    end
              end
        end
  end.

End Utf8.

(* ===================================================================== *)
(** * MD5 ([hashlib.md5(...).hexdigest()]) *)
(* ===================================================================== *)

Module MD5.

Definition w32 (x : Z) : Z := x mod 2 ^ 32.
Definition add32 (x y : Z) : Z := w32 (x + y).
Definition not32 (x : Z) : Z := Z.lxor x 0xFFFFFFFF.
Definition rotl32 (x s : Z) : Z :=
  w32 (Z.lor (Z.shiftl x s) (Z.shiftr x (32 - s))).

(** [floor(2^32 * abs(sin(i + 1)))] for [i = 0 .. 63]. *)
Definition K : list Z :=
  [ 3614090360; 3905402710; 606105819; 3250441966; 4118548399; 1200080426;
    2821735955; 4249261313; 1770035416; 2336552879; 4294925233; 2304563134;
    1804603682; 4254626195; 2792965006; 1236535329; 4129170786; 3225465664;
    643717713; 3921069994; 3593408605; 38016083; 3634488961; 3889429448;
    568446438; 3275163606; 4107603335; 1163531501; 2850285829; 4243563512;
    1735328473; 2368359562; 4294588738; 2272392833; 1839030562; 4259657740;
    2763975236; 1272893353; 4139469664; 3200236656; 681279174; 3936430074;
    3572445317; 76029189; 3654602809; 3873151461; 530742520; 3299628645;
    4096336452; 1126891415; 2878612391; 4237533241; 1700485571; 2399980690;
    4293915773; 2240044497; 1873313359; 4264355552; 2734768916; 1309151649;
    4149444226; 3174756917; 718787259; 3951481745 ].

(** Per-round left rotations. *)
Definition R : list Z :=
  [ 7; 12; 17; 22; 7; 12; 17; 22; 7; 12; 17; 22; 7; 12; 17; 22;
    5; 9; 14; 20; 5; 9; 14; 20; 5; 9; 14; 20; 5; 9; 14; 20;
    4; 11; 16; 23; 4; 11; 16; 23; 4; 11; 16; 23; 4; 11; 16; 23;
    6; 10; 15; 21; 6; 10; 15; 21; 6; 10; 15; 21; 6; 10; 15; 21 ].

Definition state : Type := Z * Z * Z * Z.

Definition init : state := (0x67452301, 0xefcdab89, 0x98badcfe, 0x10325476).

Definition nthZ (l : list Z) (i : Z) : Z := nth (Z.to_nat i) l 0.

(** One of the 64 operations on the working variables. *)
Definition step (M : list Z) (st : state) (i : Z) : state :=
  let '(a, b, c, d) := st in
  let '(f, g) :=
    if i <? 16 then (Z.lor (Z.land b c) (Z.land (not32 b) d), i)
    else if i <? 32 then
      (Z.lor (Z.land d b) (Z.land (not32 d) c), (5 * i + 1) mod 16)
    else if i <? 48 then (Z.lxor (Z.lxor b c) d, (3 * i + 5) mod 16)
    else (Z.lxor c (Z.lor b (not32 d)), (7 * i) mod 16) in
  let f' := add32 (add32 (add32 f a) (nthZ K i)) (nthZ M g) in
  (d, add32 b (rotl32 f' (nthZ R i)), b, c).

Definition rounds : list Z := map Z.of_nat (seq 0 64).

(** Four bytes, least significant first, as one 32-bit word. *)
Definition word_of_bytes (bs : list Z) : Z :=
  fold_right (fun b acc => b + 256 * acc) 0 bs.

Fixpoint words_of_bytes (n : nat) (bs : list Z) : list Z :=
  match n with
  | O => []
  | S n' => word_of_bytes (firstn 4 bs) :: words_of_bytes n' (skipn 4 bs)
  end.

(** The compression of one 64-byte block into the running state. *)
Definition block (st : state) (bs : list Z) : state :=
  let M := words_of_bytes 16 bs in
  let '(a, b, c, d) := st in
  let '(a', b', c', d') := fold_left (step M) rounds st in
  (add32 a a', add32 b b', add32 c c', add32 d d').

Fixpoint blocks (n : nat) (st : state) (bs : list Z) : state :=
  match n with
  | O => st
  | S n' => blocks n' (block st (firstn 64 bs)) (skipn 64 bs)
  end.

(** The [n] low bytes of [x], least significant first. *)
Fixpoint le_bytes (n : nat) (x : Z) : list Z :=
  match n with
  | O => []
  | S n' => x mod 256 :: le_bytes n' (x / 256)
  end.

(** The message, the byte [0x80], zeros up to 56 modulo 64, and the
    length in bits as 64 bits. *)
Definition pad (msg : list Z) : list Z :=
  let n := Z.of_nat (length msg) in
  let zeros := Z.to_nat ((55 - n) mod 64) in
  msg ++ 0x80 :: repeat 0 zeros ++ le_bytes 8 ((8 * n) mod 2 ^ 64).

Definition digest_state (msg : list Z) : state :=
  let p := pad msg in
  blocks (length p / 64)%nat init p.

Definition digest (msg : list Z) : list Z :=
  let '(a, b, c, d) := digest_state msg in
  le_bytes 4 a ++ le_bytes 4 b ++ le_bytes 4 c ++ le_bytes 4 d.

Definition hexdigits : list ascii :=
  [ "0"; "1"; "2"; "3"; "4"; "5"; "6"; "7";
    "8"; "9"; "a"; "b"; "c"; "d"; "e"; "f" ]%char.

Definition hexdigit (n : Z) : ascii :=
  nth (Z.to_nat (n mod 16)) hexdigits "0"%char.

Fixpoint hex (bs : list Z) : string :=
  match bs with
  | [] => ""
  | b :: r => String (hexdigit (b / 16)) (String (hexdigit b) (hex r))
  end.

(** [s.encode()] *)
Fixpoint encode (s : string) : list Z :=
  match s with
  | "" => []
  | String c r => Z.of_nat (nat_of_ascii c) :: encode r
  end.

(** [hashlib.md5(s.encode()).hexdigest()] *)
Definition hexdigest (s : string) : string := hex (digest (encode s)).

End MD5.

(* ===================================================================== *)
(** * [os.path] *)
(* ===================================================================== *)

Module OsPath.

Import PyStr.

Definition sep : ascii := "/"%char.
Definition extsep : ascii := "."%char.

(** [os.path.basename(p)]: [i = p.rfind(sep) + 1; return p[i:]]. *)
Definition basename (p : string) : string :=
  let i := rfind sep p + 1 in
  slice_from i p.

(** The loop of [genericpath._splitext] that skips leading dots: it
    returns [true] as soon as one character between [filenameIndex] and
    [dotIndex] is not a dot. *)
Fixpoint splitext_scan (fuel : nat) (p : string) (filenameIndex dotIndex : Z)
  : bool :=
  match fuel with
  | O => false
  | S fuel' =>
      if filenameIndex <? dotIndex then
        if decide (char_at filenameIndex p = String extsep "") then
          splitext_scan fuel' p (filenameIndex + 1) dotIndex
        else true
      else false
  end.

(** [os.path.splitext(p)] *)
Definition splitext (p : string) : string * string :=
  let sepIndex := rfind sep p in
  let dotIndex := rfind extsep p in
  if (sepIndex <? dotIndex)
     && splitext_scan (String.length p) p (sepIndex + 1) dotIndex
  then (slice_to dotIndex p, slice_from dotIndex p)
  else (p, "").

(** [os.path.join(a, b)] *)
Definition join (a b : string) : string :=
  if startswith (String sep "") b then b
  else if negb (truthy a) || bool_decide (char_at (-1) a = String sep "")
       then a +:+ b
       else a +:+ String sep "" +:+ b.

End OsPath.

(* ===================================================================== *)
(** * Constants *)
(* ===================================================================== *)

Definition MIN_IMAGE_SIZE : Z := 100.

Definition IMAGE_EXTENSIONS : list string :=
  [".jpg"; ".jpeg"; ".png"; ".gif"; ".tif"; ".tiff"; ".bmp"].

(** The line end the ledgers are written with. *)
Definition NL : string := String "010"%char "".

Definition FAILED_DOWNLOADS_FILE : string := "failed_downloads.txt".
Definition LOG_FILE : string := "downloaded_images.txt".

(* ===================================================================== *)
(** * NamingScheme: [generate_unique_filename] *)
(* ===================================================================== *)

(** [ext in IMAGE_EXTENSIONS] *)
Definition in_IMAGE_EXTENSIONS (ext : string) : bool :=
  bool_decide (ext ∈ IMAGE_EXTENSIONS).

Definition generate_unique_filename (img_url : string) : string :=
  let img_hash := PyStr.slice_to 8 (MD5.hexdigest img_url) in
  let base := OsPath.basename (PyStr.split_head "?" img_url) in
  let '(base_name, ext) := OsPath.splitext base in
  let ext :=
    if negb (PyStr.truthy ext) || negb (in_IMAGE_EXTENSIONS (PyStr.lower ext))
    then ".jpg" else ext in
  base_name +:+ "_" +:+ img_hash +:+ ext.

(* ===================================================================== *)
(** * The environment of the program *)
(* ===================================================================== *)

(** A tag of a parsed HTML document, as BeautifulSoup presents it: its
    name and its attribute dictionary. *)
Record tag := Tag {
  tag_name : string;
  tag_attrs : gmap string string
}.

(** The two families of exceptions the handlers of the program
    distinguish. *)
Inductive exn :=
| RequestException     (* requests.RequestException and its subclasses *)
| OtherException.      (* any other Exception *)

(** What a call gives: the value it returns, or the exception it
    raises. *)
Inductive result (A : Type) : Type :=
| Returned (a : A)
| Raised (e : exn).
Arguments Returned {A} a.
Arguments Raised {A} e.

(** What the server sent back for one request. *)
Record response := Response {
  status_code : Z;
  content_type : option string;   (* the Content-Type header, when sent *)
  chunks : list string;           (* the body, as iter_content yields it *)
  body_error : option exn;        (* raised once the chunks are read *)
  document : list tag             (* BeautifulSoup(response.text,
                                     'html.parser'), in document order *)
}.

Inductive http_result :=
| Raises (e : exn)
| Returns (r : response).

(** The environment: the network (the answer to the [n]-th request of a
    run, for the URL asked); [urllib.parse.urljoin] (nothing when it
    raises [ValueError], as it does for a URL it cannot split, such as
    one with an unclosed bracket in its host); Pillow's [Image.open] (the
    size of the image, or nothing when it raises) and [Image.verify]
    ([false] when it raises) on the bytes of a file; and whether the file
    system lets a file of that path be created, that is whether
    [open(path, "w")] and [open(path, "wb")] succeed ([false] when they
    raise [OSError], as for a name that is too long). *)
Record environment := Environment {
  net : nat -> string -> http_result;
  urljoin : string -> string -> option string;
  Image_open : string -> option (Z * Z);
  Image_verify : string -> bool;
  writable : string -> bool
}.

(* ===================================================================== *)
(** * The state of a run and its observable events *)
(* ===================================================================== *)

Inductive level := INFO | WARNING | ERROR.

(** The log records of the functions embedded here, one constructor per
    message of the source. *)
Inductive message :=
| Msg_image_too_small (file_path : string) (width height : Z)
| Msg_invalid_image (file_path : string)
| Msg_extract_error (image_page_url : string)
| Msg_extract_unexpected (image_page_url : string)
| Msg_missing_url
| Msg_could_not_extract (img_url : string)
| Msg_already_exists (img_name : string)
| Msg_not_image_content (actual_img_url content_type : string)
| Msg_downloaded (img_name : string)
| Msg_corrupted (img_name : string) (attempt max_retries : Z)
| Msg_download_error (attempt max_retries : Z) (actual_img_url : string)
| Msg_download_unexpected (attempt max_retries : Z) (actual_img_url : string)
| Msg_failed_after (max_retries : Z) (actual_img_url : string)
| Msg_no_failed_file
| Msg_nothing_to_retry
| Msg_retrying (count : Z)
| Msg_retried (new_success still_failed : Z).

Inductive event :=
| EvSleep (min_sec max_sec : Z)                    (* random_wait *)
| EvGet (url : string) (stream : bool) (timeout : Z)  (* requests.get *)
| EvLog (lvl : level) (m : message)
| EvOpen (path mode : string)                      (* open(path, mode) *)
| EvRemove (path : string).                        (* os.remove(path) *)

Record world := World {
  fs : gmap string string;    (* the files: path to content *)
  requests : nat;             (* HTTP requests made so far *)
  trace : list event          (* the events so far, oldest first *)
}.

(** ** The state monad of the embedding *)

Definition M (A : Type) : Type := world -> A * world.

Definition ret {A} (a : A) : M A := fun w => (a, w).

Definition bind {A B} (c : M A) (k : A -> M B) : M B :=
  fun w => let '(a, w') := c w in k a w'.

Notation "x <- c ;; k" := (bind c (fun x => k))
  (at level 100, c at next level, right associativity).
Notation "c ;;; k" := (bind c (fun _ => k))
  (at level 100, right associativity).

Definition emit (e : event) : M unit :=
  fun w => (tt, World (fs w) (requests w) (trace w ++ [e])).

Definition log (lvl : level) (m : message) : M unit := emit (EvLog lvl m).

(** [random_wait(min_sec, max_sec)]: sleeps for a duration drawn from
    [[min_sec, max_sec]]. *)
Definition random_wait (min_sec max_sec : Z) : M unit :=
  emit (EvSleep min_sec max_sec).

(** [os.path.exists(path)] *)
Definition path_exists (path : string) : M bool :=
  fun w => (bool_decide (is_Some (fs w !! path)), w).

Definition set_file (path content : string) : M unit :=
  fun w => (tt, World (<[path := content]> (fs w)) (requests w) (trace w)).

(** [with open(path, "a") as f: f.write(text)] *)
Definition append_file (path text : string) : M unit :=
  emit (EvOpen path "a") ;;;
  fun w => set_file path (default "" (fs w !! path) +:+ text) w.

(** [os.remove(path)] *)
Definition remove (path : string) : M unit :=
  emit (EvRemove path) ;;;
  fun w => (tt, World (delete path (fs w)) (requests w) (trace w)).

Section Program.

Variable E : environment.

(** [with open(path, mode) as f: f.write(text)] for the truncating modes
    ["w"] and ["wb"].  When the file cannot be created, [open] raises
    [OSError], an [Exception] that is no [RequestException], and nothing
    is written; the result is the exception raised, if any. *)
Definition write_file (path mode text : string) : M (option exn) :=
  if writable E path
  then emit (EvOpen path mode) ;;; set_file path text ;;; ret None
  else ret (Some OtherException).

(** [requests.get(url, stream=..., timeout=..., headers=...)].  Without
    [stream] the body is read before [get] returns, so an error of the
    body is raised by [get] itself. *)
Definition requests_get (url : string) (stream : bool) (timeout : Z)
  : M http_result :=
  emit (EvGet url stream timeout) ;;;
  fun w =>
    let r := net E (requests w) url in
    let r := match r with
             | Returns resp =>
                 match body_error resp with
                 | Some e => if stream then r else Raises e
                 | None => r
                 end
             | Raises _ => r
             end in
    (r, World (fs w) (S (requests w)) (trace w)).

(** [response.raise_for_status()] raises [HTTPError], a
    [RequestException], for the status codes 400 to 599. *)
Definition raise_for_status (r : response) : option exn :=
  if (400 <=? status_code r) && (status_code r <? 600)
  then Some RequestException else None.

(* =================================================================== *)
(** ** ContentValidator: [is_valid_image] *)
(* =================================================================== *)

Definition is_valid_image (file_path : string) (min_size : Z) : M bool :=
  fun w =>
    let invalid := (log WARNING (Msg_invalid_image file_path) ;;; ret false) in
    match fs w !! file_path with
    | None => invalid w
    | Some data =>
        match Image_open E data with
        | None => invalid w
        | Some _ =>
            if negb (Image_verify E data) then invalid w
            else
              match Image_open E data with
              | None => invalid w
              | Some (width, height) =>
                  if (width <? min_size) || (height <? min_size) then
                    (log WARNING (Msg_image_too_small file_path width height) ;;;
                     ret false) w
                  else ret true w
              end
        end
    end.

(* =================================================================== *)
(** ** ResourceLocator: [extract_image_url] *)
(* =================================================================== *)

(** [any(term in s for term in terms)] *)
Definition any_in (terms : list string) (s : string) : bool :=
  existsb (fun term => PyStr.contains term s) terms.

(** [soup.find(name, attr=value)]: the first tag of that name whose
    attribute [attr] is [value]. *)
Definition soup_find_attr (name attr value : string) (soup : list tag)
  : option tag :=
  List.find
    (fun t => bool_decide (tag_name t = name)
              && bool_decide (tag_attrs t !! attr = Some value))
    soup.

(** [soup.find_all(name, attr=True)]: the tags of that name that have
    the attribute [attr], in document order. *)
Definition soup_find_all_with (name attr : string) (soup : list tag)
  : list tag :=
  List.filter
    (fun t => bool_decide (tag_name t = name)
              && bool_decide (is_Some (tag_attrs t !! attr)))
    soup.

(** [soup.find(name, attr=True)] *)
Definition soup_find_with (name attr : string) (soup : list tag)
  : option tag :=
  head (soup_find_all_with name attr soup).

(** [t[attr]] for a tag known to have the attribute. *)
Definition tag_get (t : tag) (attr : string) : string :=
  default "" (tag_attrs t !! attr).

(** [not image_url], for a variable that holds [None] or a string. *)
Definition falsy (image_url : option string) : bool :=
  match image_url with
  | None => true
  | Some s => negb (PyStr.truthy s)
  end.

(** The loop over [["og:image", "twitter:image"]]. *)
Fixpoint meta_loop (property_values : list string) (soup : list tag)
  : option string :=
  match property_values with
  | [] => None
  | property_value :: rest =>
      let meta_tag :=
        match soup_find_attr "meta" "property" property_value soup with
        | Some t => Some t
        | None => soup_find_attr "meta" "name" property_value soup
        end in
      match meta_tag with
      | Some t =>
          match tag_attrs t !! "content" with
          | Some c => if PyStr.truthy c then Some c else meta_loop rest soup
          | None => meta_loop rest soup
          end
      | None => meta_loop rest soup
      end
  end.

Definition HINT_TERMS : list string :=
  ["full"; "large"; "orig"; "high-res"; "hires"].

(** [urljoin(base, url)]: the [ValueError] it raises is an [Exception]
    that is no [RequestException]. *)
Definition url_join (base url : string) : result (option string) :=
  match urljoin E base url with
  | Some u => Returned (Some u)
  | None => Raised OtherException
  end.

(** The loop over the [img] tags that looks for a hint term. *)
Fixpoint img_hint_loop (image_page_url : string) (imgs : list tag)
  : result (option string) :=
  match imgs with
  | [] => Returned None
  | img :: rest =>
      let src := tag_get img "src" in
      if any_in HINT_TERMS (PyStr.lower src)
      then url_join image_page_url src
      else img_hint_loop image_page_url rest
  end.

(** The loop over the [a] tags that looks for an image extension. *)
Fixpoint a_loop (image_page_url : string) (links : list tag)
  : result (option string) :=
  match links with
  | [] => Returned None
  | a_tag :: rest =>
      let href := tag_get a_tag "href" in
      if any_in IMAGE_EXTENSIONS (PyStr.lower href)
      then url_join image_page_url href
      else a_loop image_page_url rest
  end.

(** One [if not image_url:] block: the block runs only when nothing is
    found yet; what it finds replaces [image_url], and what it raises
    ends the search. *)
Definition unless_found (image_url : option string)
    (block : result (option string)) : result (option string) :=
  if falsy image_url then
    match block with
    | Returned (Some u) => Returned (Some u)
    | Returned None => Returned image_url
    | Raised e => Raised e
    end
  else Returned image_url.

(** The search of [extract_image_url] in the parsed document. *)
Definition search_soup (image_page_url : string) (soup : list tag)
  : result (option string) :=
  let image_url := meta_loop ["og:image"; "twitter:image"] soup in
  match unless_found image_url
          (img_hint_loop image_page_url
             (soup_find_all_with "img" "src" soup)) with
  | Raised e => Raised e
  | Returned image_url =>
      match unless_found image_url
              (match soup_find_with "img" "src" soup with
               | Some img_tag =>
                   url_join image_page_url (tag_get img_tag "src")
               | None => Returned None
               end) with
      | Raised e => Raised e
      | Returned image_url =>
          unless_found image_url
            (a_loop image_page_url (soup_find_all_with "a" "href" soup))
      end
  end.

Definition extract_image_url (image_page_url : string)
  : M (option string) :=
  r <- requests_get image_page_url false 15 ;;
  match r with
  | Raises RequestException =>
      log ERROR (Msg_extract_error image_page_url) ;;; ret None
  | Raises OtherException =>
      log ERROR (Msg_extract_unexpected image_page_url) ;;; ret None
  | Returns resp =>
      match raise_for_status resp with
      | Some _ => log ERROR (Msg_extract_error image_page_url) ;;; ret None
      | None =>
          match search_soup image_page_url (document resp) with
          | Returned image_url => ret image_url
          | Raised RequestException =>
              log ERROR (Msg_extract_error image_page_url) ;;; ret None
          | Raised OtherException =>
              log ERROR (Msg_extract_unexpected image_page_url) ;;; ret None
          end
      end
  end.

(* =================================================================== *)
(** ** DownloadWorker: [download_image] *)
(* =================================================================== *)

(** [range(n)] *)
Definition range (n : Z) : list Z := map Z.of_nat (seq 0 (Z.to_nat n)).

(** The two [except] clauses of the retry loop. *)
Definition on_exception (e : exn) (attempt max_retries : Z)
    (actual_img_url : string) : M (option bool) :=
  log ERROR (match e with
             | RequestException =>
                 Msg_download_error (attempt + 1) max_retries actual_img_url
             | OtherException =>
                 Msg_download_unexpected (attempt + 1) max_retries actual_img_url
             end) ;;;
  random_wait 3 7 ;;;
  ret None.

(** One iteration of the retry loop.  [Some b] is [return b]; [None]
    goes on to the next iteration. *)
Definition attempt_once (actual_img_url img_name log_file : string)
    (min_img_size max_retries attempt : Z) : M (option bool) :=
  random_wait 1 3 ;;;
  r <- requests_get actual_img_url true 20 ;;
  match r with
  | Raises e => on_exception e attempt max_retries actual_img_url
  | Returns resp =>
      match raise_for_status resp with
      | Some e => on_exception e attempt max_retries actual_img_url
      | None =>
          let content_type := default "" (content_type resp) in
          if negb (PyStr.startswith "image/" content_type) then
            log WARNING (Msg_not_image_content actual_img_url content_type) ;;;
            ret None
          else
            opened <- write_file img_name "wb" (PyStr.concat (chunks resp)) ;;
            match opened, body_error resp with
            | Some e, _ => on_exception e attempt max_retries actual_img_url
            | None, Some e =>
                on_exception e attempt max_retries actual_img_url
            | None, None =>
                valid <- is_valid_image img_name min_img_size ;;
                if valid then
                  log INFO (Msg_downloaded img_name) ;;;
                  append_file log_file (actual_img_url +:+ NL) ;;;
                  ret (Some true)
                else
                  log WARNING
                    (Msg_corrupted img_name (attempt + 1) max_retries) ;;;
                  ex <- path_exists img_name ;;
                  (if ex then remove img_name else ret tt) ;;;
                  ret None
            end
      end
  end.

(** [for attempt in range(max_retries): ...] *)
Fixpoint retry_loop (actual_img_url img_name log_file : string)
    (min_img_size max_retries : Z) (attempts : list Z) : M (option bool) :=
  match attempts with
  | [] => ret None
  | attempt :: rest =>
      r <- attempt_once actual_img_url img_name log_file
             min_img_size max_retries attempt ;;
      match r with
      | Some b => ret (Some b)
      | None => retry_loop actual_img_url img_name log_file
                  min_img_size max_retries rest
      end
  end.

(** The part of [download_image] that follows the resolution. *)
Definition download_resolved
    (actual_img_url download_dir log_file failed_file : string)
    (min_img_size max_retries : Z) : M bool :=
  let img_name :=
    OsPath.join download_dir (generate_unique_filename actual_img_url) in
  ex <- path_exists img_name ;;
  ok <- (if ex then is_valid_image img_name min_img_size else ret false) ;;
  if ok then
    log INFO (Msg_already_exists img_name) ;;; ret true
  else
    r <- retry_loop actual_img_url img_name log_file min_img_size max_retries
           (range max_retries) ;;
    match r with
    | Some b => ret b
    | None =>
        log WARNING (Msg_failed_after max_retries actual_img_url) ;;;
        append_file failed_file (actual_img_url +:+ NL) ;;;
        ret false
    end.

Definition download_image
    (img_url download_dir log_file failed_file : string)
    (min_img_size max_retries : Z) : M bool :=
  if negb (PyStr.truthy img_url) then
    log WARNING Msg_missing_url ;;; ret false
  else if negb (any_in IMAGE_EXTENSIONS (PyStr.lower img_url)) then
    actual_img_url <- extract_image_url img_url ;;
    if falsy actual_img_url then
      log WARNING (Msg_could_not_extract img_url) ;;;
      append_file failed_file (img_url +:+ NL) ;;;
      ret false
    else
      download_resolved (default "" actual_img_url)
        download_dir log_file failed_file min_img_size max_retries
  else
    download_resolved img_url download_dir log_file failed_file
      min_img_size max_retries.

(* =================================================================== *)
(** ** ResumeController: [retry_failed_images] *)
(* =================================================================== *)

Record arguments := Args {
  dir : string;
  workers : Z;
  retries : Z;
  retry_failed : bool;
  min_size : Z
}.

(** [[line.strip() for line in f if line.strip()]] *)
Definition read_urls (content : string) : list string :=
  List.filter PyStr.truthy (map PyStr.strip (PyStr.lines content)).

(** The worker pool.  [completion] is the order in which the futures
    complete and [as_completed] yields them: its [k]-th element is the
    position, in the list of submitted URLs, of the [k]-th future
    yielded.  The tasks are run one after the other in that order, and
    the result of each is collected. *)
Fixpoint as_completed (args : arguments) (urls : list string)
    (completion : list nat) : M (list bool) :=
  match completion with
  | [] => ret []
  | j :: rest =>
      match urls !! j with
      | Some url =>
          b <- download_image url (dir args)
                 (OsPath.join (dir args) LOG_FILE)
                 (OsPath.join (dir args) FAILED_DOWNLOADS_FILE)
                 (min_size args) (retries args) ;;
          bs <- as_completed args urls rest ;;
          ret (b :: bs)
      | None => as_completed args urls rest
      end
  end.

(** [for i, future in enumerate(as_completed(futures)): ...], on the
    results in the order they are yielded; the state of the loop is
    [(new_success, still_failed, temp_failed)]. *)
Fixpoint collect (urls : list string) (i : nat) (results : list bool)
    (st : Z * Z * list string) : Z * Z * list string :=
  match results with
  | [] => st
  | result :: rest =>
      let '(new_success, still_failed, temp_failed) := st in
      collect urls (S i) rest
        (if result then (new_success + 1, still_failed, temp_failed)
         else (new_success, still_failed + 1,
               temp_failed ++ [nth i urls ""]))
  end.

(** The pass over the failure ledger.  Reading the ledger raises
    [UnicodeDecodeError] when its bytes are no UTF-8, and
    [ThreadPoolExecutor] raises [ValueError] when [max_workers] is not
    positive; neither is caught here. *)
Definition retry_failed_images (args : arguments) (completion : list nat)
  : M (result unit) :=
  let failed_file := OsPath.join (dir args) FAILED_DOWNLOADS_FILE in
  ex <- path_exists failed_file ;;
  if negb ex then log INFO Msg_no_failed_file ;;; ret (Returned tt)
  else
    emit (EvOpen failed_file "r") ;;;
    content <- (fun w => (default "" (fs w !! failed_file), w)) ;;
    if negb (Utf8.valid content) then ret (Raised OtherException)
    else
      let urls := read_urls content in
      match urls with
      | [] => log INFO Msg_nothing_to_retry ;;; ret (Returned tt)
      | _ :: _ =>
          log INFO (Msg_retrying (Z.of_nat (length urls))) ;;;
          if workers args <=? 0 then ret (Raised OtherException)
          else
            results <- as_completed args urls completion ;;
            let '(new_success, still_failed, temp_failed) :=
              collect urls 0 results (0, 0, []) in
            written <- write_file failed_file "w"
                         (PyStr.concat
                            (map (fun url => url +:+ NL) temp_failed)) ;;
            match written with
            | Some e => ret (Raised e)
            | None =>
                log INFO (Msg_retried new_success still_failed) ;;;
                ret (Returned tt)
            end
      end.

End Program.

(* ===================================================================== *)
(** * Vocabulary of the properties *)
(* ===================================================================== *)

(** ** Strings *)

Fixpoint string_forallb (P : ascii -> bool) (s : string) : bool :=
  match s with
  | "" => true
  | String c r => P c && string_forallb P r
  end.

Definition is_lower_hex (c : ascii) : bool := bool_decide (c ∈ MD5.hexdigits).

Fixpoint last_char (s : string) : option ascii :=
  match s with
  | "" => None
  | String c r => match last_char r with None => Some c | o => o end
  end.

(** ** Events of one call *)

(** The events a call added to the trace, given the worlds before and
    after it. *)
Definition new_events (w w' : world) : list event :=
  drop (length (trace w)) (trace w').

(** The HTML fetch of the resolver. *)
Definition is_resolution_get (e : event) : bool :=
  match e with EvGet _ false _ => true | _ => false end.

(** The streamed fetch of the retry loop. *)
Definition is_image_get (e : event) : bool :=
  match e with EvGet _ true _ => true | _ => false end.

Definition is_get (e : event) : bool :=
  match e with EvGet _ _ _ => true | _ => false end.

(** Opening a file for writing or appending, or removing one. *)
Definition is_file_write (e : event) : bool :=
  match e with
  | EvOpen _ mode => negb (bool_decide (mode = "r"))
  | EvRemove _ => true
  | _ => false
  end.

Definition is_append_to (path : string) (e : event) : bool :=
  match e with
  | EvOpen p mode => bool_decide (mode = "a") && bool_decide (p = path)
  | _ => false
  end.

Definition count_events (P : event -> bool) (es : list event) : nat :=
  length (List.filter P es).

(** ** The content validator, as the specification words it *)

Inductive verdict :=
| Valid
| Invalid (reason : string).

(** Step 1: the content must parse as an image; step 2: width and height
    must each be at least [minDimension]. *)
Definition validate (parsed : option (Z * Z)) (minDimension : Z) : verdict :=
  match parsed with
  | None => Invalid "corrupt"
  | Some (width, height) =>
      if (minDimension <=? width) && (minDimension <=? height)
      then Valid else Invalid "too small"
  end.

(** What Pillow makes of the bytes of a file: the size [Image.open]
    reports, when [Image.open] and [Image.verify] both accept them. *)
Definition decode (E : environment) (data : string) : option (Z * Z) :=
  if Image_verify E data then Image_open E data else None.

(** What Pillow makes of the file at [path]: the size of the image when
    the file is there, opens and verifies. *)
Definition parse (E : environment) (files : gmap string string)
    (path : string) : option (Z * Z) :=
  match files !! path with
  | None => None
  | Some data => decode E data
  end.

(** The validator accepts a file that holds [data]. *)
Definition accepts (E : environment) (data : string) (min_size : Z) : bool :=
  match validate (decode E data) min_size with
  | Valid => true
  | Invalid _ => false
  end.

(** The file at [path] is there and passes the validator. *)
Definition present_and_valid (E : environment) (files : gmap string string)
    (path : string) (min_size : Z) : bool :=
  match validate (parse E files path) min_size with
  | Valid => true
  | Invalid _ => false
  end.

(** ** The naming scheme, as the specification words it *)

(** The text [s] has no character [c]. *)
Definition lacks (c : ascii) (s : string) : bool :=
  string_forallb (fun x => negb (bool_decide (x = c))) s.

(** The text [s] is made of dots only. *)
Definition all_dots (s : string) : bool :=
  string_forallb (fun x => bool_decide (x = "."%char)) s.

(** A URL read as four parts, one after the other: the folders, up to
    the last [/] before the query; the stem and the extension of the
    name that follows; and the query, from the first [?] on.  The
    extension is the last dot of the name with what follows it; a name
    whose last dot has only dots before it has no extension. *)
Definition url_parts (folder stem ext query : string) : Prop :=
  lacks "?" (folder +:+ stem +:+ ext) = true
  /\ (query = "" \/ exists q, query = String "?" q)
  /\ (folder = "" \/ last_char folder = Some "/"%char)
  /\ lacks "/" (stem +:+ ext) = true
  /\ ((ext = ""
       /\ exists dots rest,
            stem = dots +:+ rest
            /\ all_dots dots = true /\ lacks "." rest = true)
      \/ (all_dots stem = false
          /\ exists e, ext = String "." e /\ lacks "." e = true)).


(** ** The resource locator, as the specification words it *)

Definition attr_is (t : tag) (attr value : string) : bool :=
  bool_decide (tag_attrs t !! attr = Some value).

Definition has_attr (t : tag) (attr : string) : bool :=
  bool_decide (is_Some (tag_attrs t !! attr)).

Definition named (t : tag) (name : string) : bool :=
  bool_decide (tag_name t = name).



(** The extension of the path of a reference: what follows the last dot
    of the last segment of the reference cut at its query. *)
Definition path_extension (ref : string) : string :=
  snd (OsPath.splitext (OsPath.basename (PyStr.split_head "?" ref))).

(** The path extension of the reference is a known image extension. *)
Definition has_image_extension (ref : string) : bool :=
  in_IMAGE_EXTENSIONS (PyStr.lower (path_extension ref)).



(** ** The resource locator, tier by tier, as the code searches *)

(** The metadata tag consulted for one property value: the first [meta]
    tag whose [property] attribute is that value or, when there is none,
    the first whose [name] attribute is; its content counts only when it
    is not empty. *)
Definition meta_candidate (property_value : string) (soup : list tag)
  : option string :=
  match List.find (fun t => named t "meta" && attr_is t "property" property_value) soup with
  | Some t => tag_attrs t !! "content"
  | None =>
      match List.find (fun t => named t "meta" && attr_is t "name" property_value) soup with
      | Some t => tag_attrs t !! "content"
      | None => None
      end
  end.

(** The URL of the tag a tier selects, joined to the URL of the page:
    nothing when the tier selects no tag, an exception when the URL
    cannot be joined. *)
Definition joined (E : environment) (page attr : string) (t : option tag)
  : result (option string) :=
  match t with
  | None => Returned None
  | Some t =>
      match urljoin E page (tag_get t attr) with
      | Some u => Returned (Some u)
      | None => Raised OtherException
      end
  end.

(** The candidates of the tiers, in the order the code consults them. *)
Definition tier_candidates (E : environment) (page : string) (soup : list tag)
  : list (result (option string)) :=
  [ Returned (meta_candidate "og:image" soup);
    Returned (meta_candidate "twitter:image" soup);
    joined E page "src"
      (List.find (fun t => named t "img" && has_attr t "src"
                           && any_in HINT_TERMS (PyStr.lower (tag_get t "src"))) soup);
    joined E page "src"
      (List.find (fun t => named t "img" && has_attr t "src") soup);
    joined E page "href"
      (List.find (fun t => named t "a" && has_attr t "href"
                           && any_in IMAGE_EXTENSIONS (PyStr.lower (tag_get t "href"))) soup) ].

(** The candidates are consulted in order: the first that is a non-empty
    string is the answer, and a candidate that raises before one is
    found ends the search. *)
Fixpoint first_found (l : list (result (option string)))
  : result (option string) :=
  match l with
  | [] => Returned None
  | Raised e :: _ => Raised e
  | Returned (Some s) :: r =>
      if PyStr.truthy s then Returned (Some s) else first_found r
  | Returned None :: r => first_found r
  end.

(** The blocks of the search, one after the other. *)
Fixpoint run_blocks (image_url : option string)
    (blocks : list (result (option string))) : result (option string) :=
  match blocks with
  | [] => Returned image_url
  | block :: rest =>
      match unless_found image_url block with
      | Raised e => Raised e
      | Returned image_url' => run_blocks image_url' rest
      end
  end.

(** What the caller of a search gets: nothing when it raised. *)
Definition returned (r : result (option string)) : option string :=
  match r with
  | Returned a => a
  | Raised _ => None
  end.

(** The first candidate that is a non-empty string. *)
Fixpoint first_truthy (l : list (option string)) : option string :=
  match l with
  | [] => None
  | Some s :: r => if PyStr.truthy s then Some s else first_truthy r
  | None :: r => first_truthy r
  end.

(** A result the caller takes as found: [None] and the empty string are
    both "nothing found" for [if not actual_img_url]. *)
Definition found (image_url : option string) : option string :=
  if falsy image_url then None else image_url.

(** ** Fetches and attempts that fail *)

(** The ways one fetch of the retry loop fails: [requests.get] raises,
    the status is an error, the Content-Type does not start with
    [image/], or the body breaks while it is streamed. *)
Definition fetch_fails (r : http_result) : bool :=
  match r with
  | Raises _ => true
  | Returns resp =>
      bool_decide (is_Some (raise_for_status resp))
      || negb (PyStr.startswith "image/" (default "" (content_type resp)))
      || bool_decide (is_Some (body_error resp))
  end.

(** One attempt of the retry loop fails: its fetch fails, or the target
    file cannot be created, or the validator rejects what was stored. *)
Definition attempt_fails (E : environment) (img_name : string)
    (min_img_size : Z) (r : http_result) : bool :=
  fetch_fails r
  || negb (writable E img_name)
  || match r with
     | Raises _ => true
     | Returns resp =>
         negb (accepts E (PyStr.concat (chunks resp)) min_img_size)
     end.

(** ** The call the orchestrator and the resume controller submit *)

Definition submitted (E : environment) (args : arguments) (url : string)
  : M bool :=
  download_image E url (dir args)
    (OsPath.join (dir args) LOG_FILE)
    (OsPath.join (dir args) FAILED_DOWNLOADS_FILE)
    (min_size args) (retries args).

(** The file a ledger holds, as text. *)
Definition ledger (w : world) (path : string) : string :=
  default "" (fs w !! path).

(** The URL the worker goes on with after its first step, if any: the
    candidate itself when it passes the extension test, else what the
    resolver found for it; nothing for a missing URL or a resolution that
    found nothing. *)
Definition resolved_url (E : environment) (img_url : string) (w : world)
  : option string :=
  if negb (PyStr.truthy img_url) then None
  else if negb (any_in IMAGE_EXTENSIONS (PyStr.lower img_url))
       then found (fst (extract_image_url E img_url w))
       else Some img_url.

(** The extension test of [download_image]. *)
Definition is_direct_image_url (img_url : string) : bool :=
  any_in IMAGE_EXTENSIONS (PyStr.lower img_url).

(** What [extract_image_url] returns, as a function of the answer of the
    network to its request. *)
Definition extract_result (E : environment) (image_page_url : string)
    (r : http_result) : option string :=
  match r with
  | Raises _ => None
  | Returns resp =>
      match body_error resp, raise_for_status resp with
      | None, None => returned (search_soup E image_page_url (document resp))
      | _, _ => None
      end
  end.

(** ** The resume pass *)

(** The positions, counted from [i], of the results that are [False]. *)
Fixpoint failed_positions (i : nat) (results : list bool) : list nat :=
  match results with
  | [] => []
  | true :: rest => failed_positions (S i) rest
  | false :: rest => i :: failed_positions (S i) rest
  end.

(** The URLs whose own call returned [False], when [results] lists the
    outcomes in the order of [urls]. *)
Fixpoint failed_urls (urls : list string) (results : list bool) : list string :=
  match urls, results with
  | url :: urls', result :: results' =>
      if result then failed_urls urls' results'
      else url :: failed_urls urls' results'
  | _, _ => []
  end.

(** ** Summaries of the worker *)

(** The last character of a recognised extension, lowered. *)
Definition ext_ends : list (option ascii) :=
  [Some "g"%char; Some "f"%char; Some "p"%char].

(** What a piece of the retry loop that makes at most [bound] attempts
    did, from the world [w] on, when it ended with [r] in the world
    [w']. *)
Definition loop_summary (E : environment)
    (actual_img_url img_name log_file : string) (min_img_size : Z)
    (bound : nat) (w : world) (r : option bool)
    (w' : world) : Prop :=
  exists es,
    trace w' = trace w ++ es
    /\ requests w' = (requests w + count_events is_image_get es)%nat
    /\ (count_events is_image_get es <= bound)%nat
    /\ (r = None -> count_events is_image_get es = bound)
    /\ Forall (fun e => is_get e = true -> e = EvGet actual_img_url true 20) es
    /\ (forall p, p <> img_name -> p <> log_file -> fs w' !! p = fs w !! p)
    /\ (r = None ->
        (log_file <> img_name -> fs w' !! log_file = fs w !! log_file)
        /\ forall p, count_events (is_append_to p) es = 0%nat)
    /\ (forall b, r = Some b ->
        b = true
        /\ (forall p, count_events (is_append_to p) es
                      = if decide (p = log_file) then 1%nat else 0%nat)
        /\ (log_file <> img_name ->
            present_and_valid E (fs w') img_name min_img_size = true
            /\ fs w' !! log_file
               = Some (ledger w log_file +:+ actual_img_url +:+ NL)))
    /\ ((forall i, (i < bound)%nat ->
           attempt_fails E img_name min_img_size
             (net E (requests w + i) actual_img_url) = true) ->
        r = None).


(** What one call that starts after the resolution did. *)
Definition resolved_summary (E : environment)
    (actual_img_url download_dir log_file failed_file : string)
    (min_img_size max_retries : Z) (w : world) (b : bool) (w' : world) : Prop :=
  let img_name :=
    OsPath.join download_dir (generate_unique_filename actual_img_url) in
  exists es,
    trace w' = trace w ++ es
    /\ requests w' = (requests w + count_events is_image_get es)%nat
    /\ (count_events is_image_get es <= Z.to_nat max_retries)%nat
    /\ Forall (fun e => is_get e = true -> e = EvGet actual_img_url true 20) es
    /\ (forall p, p <> img_name -> p <> log_file -> p <> failed_file ->
                  fs w' !! p = fs w !! p)
    /\ (b = false ->
        present_and_valid E (fs w) img_name min_img_size = false
        /\ count_events is_image_get es = Z.to_nat max_retries
        /\ fs w' !! failed_file
           = Some (ledger w failed_file +:+ actual_img_url +:+ NL)
        /\ fs w' !! log_file = fs w !! log_file
        /\ count_events (is_append_to failed_file) es = 1%nat
        /\ count_events (is_append_to log_file) es = 0%nat)
    /\ (b = true ->
        present_and_valid E (fs w') img_name min_img_size = true
        /\ fs w' !! failed_file = fs w !! failed_file
        /\ count_events (is_append_to failed_file) es = 0%nat
        /\ (present_and_valid E (fs w) img_name min_img_size = false ->
            fs w' !! log_file
            = Some (ledger w log_file +:+ actual_img_url +:+ NL)
            /\ count_events (is_append_to log_file) es = 1%nat))
    /\ (present_and_valid E (fs w) img_name min_img_size = true ->
        b = true /\ fs w' = fs w
        /\ es = [EvLog INFO (Msg_already_exists img_name)])
    /\ ((forall i, (i < Z.to_nat max_retries)%nat ->
           attempt_fails E img_name min_img_size
             (net E (requests w + i) actual_img_url) = true) ->
        present_and_valid E (fs w) img_name min_img_size = false ->
        b = false).


(* ===================================================================== *)
(** * Concrete environments and worlds *)
(* ===================================================================== *)

Module Fixtures.

(** File contents that stand for a 200 x 200 and a 50 x 50 image. *)
Definition big_image : string := "image 200x200".
Definition small_image : string := "image 50x50".

Definition open_fixture (data : string) : option (Z * Z) :=
  if decide (data = big_image) then Some (200, 200)
  else if decide (data = small_image) then Some (50, 50)
  else None.

Definition image_response (data : string) : http_result :=
  Returns (Response 200 (Some "image/png") [data] None []).

Definition html_response (soup : list tag) : http_result :=
  Returns (Response 200 (Some "text/html") [] None soup).

(** A page whose [twitter:image] tag comes before its [og:image] tag. *)
Definition twitter_first : list tag :=
  [ Tag "meta" {[ "name" := "twitter:image";
                  "content" := "https://cdn.example.com/t.png" ]};
    Tag "meta" {[ "property" := "og:image";
                  "content" := "https://cdn.example.com/o.png" ]} ].

Definition page : string := "https://example.com/page/x".

(** A network that serves [twitter_first] at [page] and a good image
    everywhere else. *)
Definition env_page : environment :=
  Environment
    (fun _ url => if decide (url = page) then html_response twitter_first
                  else image_response big_image)
    (fun _ url => Some url)
    open_fixture
    (fun _ => true)
    (fun _ => true).

Definition empty_world : world := World ∅ 0 [].

(** The address of a viewer page with [.PNG] inside its name. *)
Definition viewer : string := "https://example.com/view.PNG.html?id=7".





(** A network that answers every request with an HTML page. *)
Definition env_html : environment :=
  Environment (fun _ _ => html_response []) (fun _ url => Some url)
    open_fixture (fun _ => true) (fun _ => true).

(** A network on which every request fails to connect. *)
Definition env_down : environment :=
  Environment (fun _ _ => Raises RequestException) (fun _ url => Some url)
    open_fixture (fun _ => true) (fun _ => true).

Definition image_a : string := "https://example.com/img/a.png".
Definition image_b : string := "https://example.com/img/b.png".
Definition data_dir : string := "/data".
Definition log_path : string := OsPath.join data_dir LOG_FILE.
Definition failed_path : string := OsPath.join data_dir FAILED_DOWNLOADS_FILE.
Definition target (url : string) : string :=
  OsPath.join data_dir (generate_unique_filename url).

(** A world in which the image of [image_a] is already downloaded. *)
Definition world_with_a : world :=
  World {[ target image_a := big_image ]} 0 [].

Definition image_o : string := "https://cdn.example.com/o.png".

(** A world in which the image the page resolves to is already
    downloaded. *)
Definition world_with_o : world :=
  World {[ target image_o := big_image ]} 0 [].

(** A network that serves a good image at [image_a] and fails to
    connect everywhere else. *)
Definition env_a_only : environment :=
  Environment
    (fun _ url => if decide (url = image_a) then image_response big_image
                  else Raises RequestException)
    (fun _ url => Some url)
    open_fixture
    (fun _ => true)
    (fun _ => true).

Definition page_b : string := "https://example.com/page/b".

(** A failure ledger that lists [image_a], then [page_b]. *)
Definition world_ledger : world :=
  World {[ failed_path := image_a +:+ NL +:+ page_b +:+ NL ]} 0 [].

(** A network that fails to connect at the first request of a run and
    serves a good image from then on. *)
Definition env_flaky : environment :=
  Environment
    (fun n _ => match n with
                | O => Raises RequestException
                | S _ => image_response big_image
                end)
    (fun _ url => Some url)
    open_fixture
    (fun _ => true)
    (fun _ => true).

(** A network that serves an image too small for a minimum of 100. *)
Definition env_small : environment :=
  Environment (fun _ _ => image_response small_image) (fun _ url => Some url)
    open_fixture (fun _ => true) (fun _ => true).

(** A network whose responses break after a first chunk. *)
Definition env_broken : environment :=
  Environment
    (fun _ _ => Returns (Response 200 (Some "image/png") ["partial"]
                            (Some RequestException) []))
    (fun _ url => Some url)
    open_fixture
    (fun _ => true)
    (fun _ => true).

(** A network that serves a good image everywhere, on a file system
    that refuses to create any file. *)
Definition env_long_name : environment :=
  Environment (fun _ _ => image_response big_image) (fun _ url => Some url)
    open_fixture (fun _ => true) (fun _ => false).

(** A world in which the file of [image_a] holds an image too small for
    a minimum of 100. *)
Definition world_with_small : world :=
  World {[ target image_a := small_image ]} 0 [].

(** A toy raster format: the bytes [IMG], the width and the height as
    one byte each, then one byte per pixel.  The header of a file: *)
Definition toy_header (data : string) : option (Z * Z) :=
  if PyStr.startswith "IMG" data then
    match PyStr.drop 3 data with
    | String width (String height _) =>
        Some (Z.of_nat (nat_of_ascii width), Z.of_nat (nat_of_ascii height))
    | _ => None
    end
  else None.

(** The pixels of a file, when all of them are there: what decoding the
    image ([Image.load]) needs. *)
Definition toy_pixels (data : string) : option string :=
  match toy_header data with
  | Some (width, height) =>
      let pixels := PyStr.drop 5 data in
      if PyStr.len pixels =? width * height then Some pixels else None
  | None => None
  end.

(** The content parses as a toy image: the size in its header, when the
    pixels are all there. *)
Definition toy_parse (data : string) : option (Z * Z) :=
  match toy_pixels data with
  | Some _ => toy_header data
  | None => None
  end.

(** Pillow on the toy format, as on JPEG and the like: [Image.open]
    reads the header and [Image.verify] has nothing to check. *)
Definition env_header_only : environment :=
  Environment (fun _ _ => Raises RequestException) (fun _ url => Some url)
    toy_header (fun _ => true) (fun _ => true).

(** A toy image of 200 x 200 cut short after its third pixel. *)
Definition truncated_image : string :=
  "IMG" +:+ PyStr.of_bytes [200; 200]%nat +:+ "abc".

Definition world_with_truncated : world :=
  World {[ target image_a := truncated_image ]} 0 [].

(** A world with a file that is no target and no ledger. *)
Definition notes_path : string := "/data/notes.txt".
Definition world_with_notes : world :=
  World {[ notes_path := "keep" ]} 0 [].

Definition resume_args : arguments := Args data_dir 3 2 true 100.

(** The same with [--workers 0]. *)
Definition no_workers_args : arguments := Args data_dir 0 2 true 100.

(** A category page with a feature link, a link to an image file and an
    image. *)
Definition category_page : list tag :=
  [ Tag "a" {[ "href" := "https://example.com/image-feature/moon" ]};
    Tag "a" {[ "href" := "https://example.com/img/a.png" ]};
    Tag "img" {[ "src" := "https://example.com/img/b.png" ]} ].

(** A failure ledger of blank lines. *)
Definition world_blank_ledger : world :=
  World {[ failed_path := NL +:+ "  " +:+ NL ]} 0 [].

End Fixtures.

(* ===================================================================== *)
(** * Discovery: the link selection of the two scraping functions *)
(* ===================================================================== *)

Definition BASE_URL : string :=
  "https://www.nasa.gov/multimedia/imagegallery/index.html".

Definition MAX_LOAD_ATTEMPTS : Z := 10.

(** [list(set(l))]: the distinct elements of [l].  Python leaves their
    order unspecified; the order [elements] gives stands for it. *)
Definition list_set (l : list string) : list string :=
  elements (list_to_set l : gset string).

(** [[a['href'] for a in soup.find_all('a', href=True) if P(a['href'])]] *)
Definition hrefs_where (P : string -> bool) (soup : list tag) : list string :=
  List.filter P
    (map (fun a => tag_get a "href") (soup_find_all_with "a" "href" soup)).

(** [[img['src'] for img in soup.find_all('img', src=True) if P(img['src'])]] *)
Definition srcs_where (P : string -> bool) (soup : list tag) : list string :=
  List.filter P
    (map (fun img => tag_get img "src") (soup_find_all_with "img" "src" soup)).

(** [for selector_results in selectors: if selector_results: ...; break]:
    the first list that is not empty, or the empty list. *)
Fixpoint first_nonempty (selectors : list (list string)) : list string :=
  match selectors with
  | [] => []
  | [] :: rest => first_nonempty rest
  | selector_results :: _ => selector_results
  end.

(** [[urljoin(base, link) for link in links]]: nothing when [urljoin]
    raises for one of the links. *)
Fixpoint join_all (E : environment) (base : string) (links : list string)
  : option (list string) :=
  match links with
  | [] => Some []
  | link :: rest =>
      match urljoin E base link with
      | None => None
      | Some u =>
          match join_all E base rest with
          | Some us => Some (u :: us)
          | None => None
          end
      end
  end.

(** The selection of [get_category_links] in the page it loaded.  When
    [urljoin] raises, the [except] clause is entered with
    [category_links] still empty. *)
Definition select_category_links (E : environment) (soup : list tag)
  : list string :=
  let selectors :=
    [ hrefs_where (PyStr.contains "/image-feature/") soup;
      hrefs_where (PyStr.contains "gallery") soup;
      hrefs_where (PyStr.contains "images") soup ] in
  match join_all E BASE_URL (first_nonempty selectors) with
  | Some category_links => list_set category_links
  | None => []
  end.

(** The selection of [load_all_images] in the page, once no more images
    load.  When [urljoin] raises, the [except] clause is entered with
    [image_links] still empty. *)
Definition select_image_links (E : environment) (category_url : string)
    (soup : list tag) : list string :=
  let image_selectors :=
    [ hrefs_where (PyStr.contains "/image-feature/") soup;
      hrefs_where (fun href => any_in IMAGE_EXTENSIONS (PyStr.lower href)) soup;
      srcs_where (PyStr.startswith "http") soup ] in
  match first_nonempty image_selectors with
  | [] => []
  | selector_results =>
      match join_all E category_url selector_results with
      | Some image_links => list_set image_links
      | None => []
      end
  end.

(* ===================================================================== *)
(** * Vocabulary of the further properties *)
(* ===================================================================== *)

(** The targets of the hyperlinks of a page, in document order. *)
Definition anchor_hrefs (soup : list tag) : list string :=
  map (fun a => tag_get a "href") (soup_find_all_with "a" "href" soup).

(** The first of the three category patterns that some hyperlink of the
    page matches. *)
Definition category_pattern (soup : list tag) : option string :=
  List.find (fun pat => existsb (PyStr.contains pat) (anchor_hrefs soup))
    ["/image-feature/"; "gallery"; "images"].

(** A text made of white space only: characters for which [str.isspace]
    holds, one after the other. *)
Inductive spaces : string -> Prop :=
| spaces_nil : spaces ""
| spaces_cons (e s : string) :
    PyStr.isspace e = true -> spaces s -> spaces (e +:+ s).

Definition is_line_break (c : ascii) : bool :=
  bool_decide (c = "010"%char) || bool_decide (c = "013"%char).

(** A URL as a ledger line holds it: not empty, no white space at either
    end (no character for which [str.isspace] holds, ASCII or not), no
    line break inside. *)
Definition clean_url (u : string) : Prop :=
  u <> ""
  /\ PyStr.strip u = u
  /\ string_forallb (fun c => negb (is_line_break c)) u = true.

(** The text [retry_failed_images] writes for a list of URLs: each URL
    and a line end. *)
Definition write_urls (urls : list string) : string :=
  PyStr.concat (map (fun url => url +:+ NL) urls).

(** [old] is the beginning of [new]: [new] is [old] with text added at
    its end. *)
Definition grown_from (old new : string) : Prop :=
  exists added, new = old +:+ added.

(** The calls of the worker for [urls], one after the other in that
    order, and their results. *)
Fixpoint download_all (E : environment) (args : arguments)
    (urls : list string) : M (list bool) :=
  match urls with
  | [] => ret []
  | url :: rest =>
      b <- submitted E args url ;;
      bs <- download_all E args rest ;;
      ret (b :: bs)
  end.

(** The world in which [retry_failed_images] starts its pool: the ledger
    has been read and the count logged. *)
Definition pool_start (w : world) (failed_file : string) (count : nat) : world :=
  World (fs w) (requests w)
    (trace w ++ [EvOpen failed_file "r"; EvLog INFO (Msg_retrying (Z.of_nat count))]).

(* ===================================================================== *)
(** * Properties of the string operations *)
(* ===================================================================== *)

(** Splits a conjunction into its parts, without touching the parts. *)
Ltac conjuncts := cbv zeta; repeat match goal with |- _ /\ _ => split end.

Lemma app_cons (c : ascii) (s t : string) :
  String c s +:+ t = String c (s +:+ t).
Proof. reflexivity. Qed.

Lemma app_empty_l (s : string) : "" +:+ s = s.
Proof. reflexivity. Qed.

Lemma app_empty_r (s : string) : s +:+ "" = s.
Proof. induction s as [|c s IH]; [reflexivity|]. rewrite app_cons, IH. reflexivity. Qed.

Lemma app_assoc_str (a b c : string) : (a +:+ b) +:+ c = a +:+ (b +:+ c).
Proof.
  induction a as [|x a IH]; [reflexivity|].
  rewrite !app_cons, IH. reflexivity.
Qed.

Lemma length_app_str (a b : string) :
  String.length (a +:+ b) = (String.length a + String.length b)%nat.
Proof.
  induction a as [|x a IH]; [reflexivity|].
  rewrite app_cons. simpl. rewrite IH. reflexivity.
Qed.

Lemma take_drop_str (n : nat) (s : string) :
  PyStr.take n s +:+ PyStr.drop n s = s.
Proof.
  revert s. induction n as [|n IH]; intros [|c s]; simpl; try reflexivity.
  rewrite app_cons, IH. reflexivity.
Qed.

Lemma length_take_str (n : nat) (s : string) :
  String.length (PyStr.take n s) = Nat.min n (String.length s).
Proof.
  revert s. induction n as [|n IH]; intros [|c s]; simpl; try reflexivity.
  rewrite IH. reflexivity.
Qed.

Lemma forallb_take_str (P : ascii -> bool) (n : nat) (s : string) :
  string_forallb P s = true -> string_forallb P (PyStr.take n s) = true.
Proof.
  revert s. induction n as [|n IH]; intros [|c s]; simpl; try reflexivity.
  intros [Hc Hs]%andb_prop. rewrite Hc. simpl. apply IH, Hs.
Qed.

Lemma forallb_app_str (P : ascii -> bool) (a b : string) :
  string_forallb P (a +:+ b) = string_forallb P a && string_forallb P b.
Proof.
  induction a as [|c a IH]; [reflexivity|].
  rewrite app_cons. simpl. rewrite IH. apply andb_assoc.
Qed.

Lemma take_app_length_str (a b : string) :
  PyStr.take (String.length a) (a +:+ b) = a.
Proof.
  induction a as [|x a IH]; [destruct b; reflexivity|].
  rewrite app_cons. simpl. rewrite IH. reflexivity.
Qed.

Lemma slice_split (i : Z) (s : string) :
  PyStr.slice_to i s +:+ PyStr.slice_from i s = s.
Proof. apply take_drop_str. Qed.

(** ** [rfind] *)

Lemma rfind_range (c : ascii) (s : string) :
  -1 <= PyStr.rfind c s < PyStr.len s.
Proof.
  unfold PyStr.len. induction s as [|a s IH]; simpl; [lia|].
  destruct (0 <=? PyStr.rfind c s) eqn:Hi.
  - apply Z.leb_le in Hi. lia.
  - destruct (decide (a = c)); lia.
Qed.

(** From the index [rfind] gives, the string goes on with the character
    searched and then has no more of it. *)
Lemma rfind_found (c : ascii) (s : string) :
  0 <= PyStr.rfind c s ->
  exists r, PyStr.drop (Z.to_nat (PyStr.rfind c s)) s = String c r
            /\ PyStr.rfind c r = -1.
Proof.
  induction s as [|a s IH]; simpl; [lia|].
  destruct (0 <=? PyStr.rfind c s) eqn:Hi.
  - apply Z.leb_le in Hi. intros _.
    destruct (IH Hi) as (r & Hr & Hn).
    exists r. split; [|exact Hn].
    replace (Z.to_nat (PyStr.rfind c s + 1)) with (S (Z.to_nat (PyStr.rfind c s))) by lia.
    simpl. exact Hr.
  - apply Z.leb_gt in Hi.
    destruct (decide (a = c)) as [->|]; [|lia].
    intros _. exists s. split; [reflexivity|].
    pose proof (rfind_range c s). lia.
Qed.

Lemma rfind_absent_drop (c : ascii) (s : string) (n : nat) :
  PyStr.rfind c s = -1 -> PyStr.rfind c (PyStr.drop n s) = -1.
Proof.
  revert s. induction n as [|n IH]; intros [|a s]; simpl; try tauto.
  destruct (0 <=? PyStr.rfind c s) eqn:Hi.
  - apply Z.leb_le in Hi. lia.
  - apply Z.leb_gt in Hi. intros _. apply IH.
    pose proof (rfind_range c s). lia.
Qed.

Lemma rfind_absent_take (c : ascii) (s : string) (n : nat) :
  PyStr.rfind c s = -1 -> PyStr.rfind c (PyStr.take n s) = -1.
Proof.
  revert s. induction n as [|n IH]; intros [|a s]; simpl; try tauto.
  destruct (0 <=? PyStr.rfind c s) eqn:Hi.
  - apply Z.leb_le in Hi. lia.
  - apply Z.leb_gt in Hi. destruct (decide (a = c)); [lia|].
    intros _. rewrite IH; [reflexivity|].
    pose proof (rfind_range c s). lia.
Qed.

Lemma rfind_absent_head (c a : ascii) (s : string) :
  PyStr.rfind c (String a s) = -1 -> a <> c.
Proof.
  simpl. destruct (0 <=? PyStr.rfind c s) eqn:Hi.
  - apply Z.leb_le in Hi. lia.
  - destruct (decide (a = c)); [lia|auto].
Qed.

(** The basename has no separator in it. *)
Lemma basename_no_sep (p : string) :
  PyStr.rfind OsPath.sep (OsPath.basename p) = -1.
Proof.
  unfold OsPath.basename, PyStr.slice_from, PyStr.clip.
  pose proof (rfind_range OsPath.sep p) as Hr.
  destruct (Z.eq_dec (PyStr.rfind OsPath.sep p) (-1)) as [He|Hne].
  - rewrite He. simpl. apply rfind_absent_drop, He.
  - assert (H0 : 0 <= PyStr.rfind OsPath.sep p) by lia.
    destruct (rfind_found _ _ H0) as (r & Hd & Hn).
    replace (PyStr.rfind OsPath.sep p + 1 <? 0) with false
      by (symmetry; apply Z.ltb_ge; lia).
    rewrite Z.min_l by lia.
    replace (Z.to_nat (PyStr.rfind OsPath.sep p + 1))
      with (S (Z.to_nat (PyStr.rfind OsPath.sep p))) by lia.
    assert (Hs : forall n s, PyStr.drop (S n) s = PyStr.drop 1 (PyStr.drop n s)).
    { clear. induction n as [|n IH]; intros [|a s]; try reflexivity.
      exact (IH s). }
    rewrite Hs, Hd. simpl. exact Hn.
Qed.

Lemma rfind_app (c : ascii) (a b : string) :
  PyStr.rfind c (a +:+ b)
  = if 0 <=? PyStr.rfind c b then PyStr.len a + PyStr.rfind c b
    else PyStr.rfind c a.
Proof.
  unfold PyStr.len. induction a as [|x a IH].
  - rewrite app_empty_l. simpl.
    destruct (0 <=? PyStr.rfind c b) eqn:Hb; [reflexivity|].
    apply Z.leb_gt in Hb. pose proof (rfind_range c b). lia.
  - rewrite app_cons. cbn [PyStr.rfind String.length]. rewrite IH.
    destruct (0 <=? PyStr.rfind c b) eqn:Hb.
    + apply Z.leb_le in Hb.
      replace (0 <=? Z.of_nat (String.length a) + PyStr.rfind c b) with true
        by (symmetry; apply Z.leb_le; lia).
      lia.
    + reflexivity.
Qed.

Lemma rfind_app_absent (c : ascii) (a b : string) :
  PyStr.rfind c a = -1 -> PyStr.rfind c b = -1 -> PyStr.rfind c (a +:+ b) = -1.
Proof. intros Ha Hb. rewrite rfind_app, Hb. exact Ha. Qed.

Lemma rfind_app_absent_inv (c : ascii) (a b : string) :
  PyStr.rfind c (a +:+ b) = -1 -> PyStr.rfind c a = -1 /\ PyStr.rfind c b = -1.
Proof.
  rewrite rfind_app. pose proof (rfind_range c b). pose proof (rfind_range c a).
  unfold PyStr.len in *.
  destruct (0 <=? PyStr.rfind c b) eqn:Hb.
  - apply Z.leb_le in Hb. lia.
  - apply Z.leb_gt in Hb. lia.
Qed.

Lemma rfind_forallb (P : ascii -> bool) (c : ascii) (s : string) :
  P c = false -> string_forallb P s = true -> PyStr.rfind c s = -1.
Proof.
  intros Hc. induction s as [|x s IH]; [reflexivity|].
  simpl. intros [Hx Hs]%andb_prop. rewrite (IH Hs). simpl.
  destruct (decide (x = c)) as [->|]; [congruence|reflexivity].
Qed.

Lemma drop_app_length_str (a b : string) :
  PyStr.drop (String.length a) (a +:+ b) = b.
Proof. induction a as [|x a IH]; [reflexivity|]. rewrite app_cons. exact IH. Qed.

(** The last character, as the slice [a[-1:]] gives it. *)
Lemma take_drop_last (c : ascii) (r : string) :
  PyStr.take 1 (PyStr.drop (String.length r) (String c r))
  = String (default c (last_char r)) "".
Proof.
  revert c. induction r as [|x r IH]; intros c; [reflexivity|].
  cbn [String.length PyStr.drop last_char]. rewrite IH.
  destruct (last_char r); reflexivity.
Qed.

Lemma last_char_none (a : string) : last_char a = None -> a = "".
Proof.
  destruct a as [|x a]; [reflexivity|].
  simpl. destruct (last_char a); discriminate.
Qed.

Lemma last_char_split (a : string) (c : ascii) :
  last_char a = Some c -> exists a', a = a' +:+ String c "".
Proof.
  induction a as [|x a IH]; [discriminate|].
  simpl. destruct (last_char a) as [y|] eqn:Hl.
  - intros [= ->]. destruct (IH eq_refl) as (a' & ->).
    exists (String x a'). reflexivity.
  - intros [= ->]. apply last_char_none in Hl as ->.
    exists "". reflexivity.
Qed.


(* ===================================================================== *)
(** * NamingScheme *)
(* ===================================================================== *)


Lemma hexdigit_lower_hex (n : Z) : is_lower_hex (MD5.hexdigit n) = true.
Proof.
  unfold is_lower_hex, MD5.hexdigit. apply bool_decide_eq_true.
  apply list_elem_of_In, nth_In.
  assert (0 <= n mod 16 < 16) by (apply Z.mod_pos_bound; lia).
  change (length MD5.hexdigits) with 16%nat. lia.
Qed.

Lemma hex_lower_hex (bs : list Z) :
  string_forallb is_lower_hex (MD5.hex bs) = true.
Proof.
  induction bs as [|b bs IH]; simpl; [reflexivity|].
  rewrite !hexdigit_lower_hex, IH. reflexivity.
Qed.



Lemma hexdigest_lower_hex (s : string) :
  string_forallb is_lower_hex (MD5.hexdigest s) = true.
Proof. apply hex_lower_hex. Qed.

(** The extension [splitext] gives is empty, or a dot followed by
    characters that are not dots. *)
Lemma splitext_ext (p : string) :
  snd (OsPath.splitext p) = ""
  \/ exists r, snd (OsPath.splitext p) = String "." r /\ PyStr.rfind "." r = -1.
Proof.
  unfold OsPath.splitext.
  destruct (_ && _) eqn:Hc; [|left; reflexivity].
  right. apply andb_prop in Hc as [Hlt _]. apply Z.ltb_lt in Hlt.
  pose proof (rfind_range OsPath.sep p) as Hs.
  pose proof (rfind_range OsPath.extsep p) as Hd.
  assert (H0 : 0 <= PyStr.rfind OsPath.extsep p) by lia.
  destruct (rfind_found _ _ H0) as (r & Hr & Hn).
  exists r. split; [|exact Hn].
  simpl. unfold PyStr.slice_from, PyStr.clip.
  replace (PyStr.rfind OsPath.extsep p <? 0) with false
    by (symmetry; apply Z.ltb_ge; lia).
  rewrite Z.min_l by lia. exact Hr.
Qed.

Lemma splitext_split (p : string) :
  fst (OsPath.splitext p) +:+ snd (OsPath.splitext p) = p.
Proof.
  unfold OsPath.splitext. destruct (_ && _); simpl.
  - apply slice_split.
  - apply app_empty_r.
Qed.

(** The name is assembled from the stem, the digest and the extension
    kept or replaced. *)
Lemma generate_unique_filename_eq (u : string) :
  let base := OsPath.basename (PyStr.split_head "?" u) in
  let stem := fst (OsPath.splitext base) in
  let ext := snd (OsPath.splitext base) in
  generate_unique_filename u =
    stem +:+ "_" +:+ PyStr.slice_to 8 (MD5.hexdigest u) +:+
    (if in_IMAGE_EXTENSIONS (PyStr.lower ext) then ext else ".jpg").
Proof.
  intros base stem ext.
  unfold generate_unique_filename. fold base. unfold stem, ext.
  destruct (OsPath.splitext base) as [bn e]. simpl.
  destruct e as [|c e]; [reflexivity|].
  simpl PyStr.truthy. simpl negb at 1. rewrite orb_false_l.
  destruct (in_IMAGE_EXTENSIONS _); reflexivity.
Qed.

(** ** The parts of a URL *)

Lemma lacks_app (c : ascii) (a b : string) :
  lacks c (a +:+ b) = lacks c a && lacks c b.
Proof. apply forallb_app_str. Qed.

Lemma lacks_rfind (c : ascii) (s : string) :
  lacks c s = true -> PyStr.rfind c s = -1.
Proof.
  apply rfind_forallb. rewrite bool_decide_eq_true_2; reflexivity.
Qed.

Lemma lacks_find (c : ascii) (s : string) :
  lacks c s = true -> PyStr.find c s = -1.
Proof.
  induction s as [|x s IH]; [reflexivity|].
  cbn [lacks string_forallb PyStr.find]. intros [Hx Hs]%andb_prop.
  apply negb_true_iff, bool_decide_eq_false in Hx.
  destruct (decide (x = c)); [contradiction|].
  unfold lacks in IH. rewrite (IH Hs). reflexivity.
Qed.

Lemma find_first (c : ascii) (a q : string) :
  lacks c a = true -> PyStr.find c (a +:+ String c q) = PyStr.len a.
Proof.
  unfold PyStr.len. induction a as [|x a IH].
  - intros _. rewrite app_empty_l. cbn [PyStr.find String.length].
    destruct (decide (c = c)); [reflexivity|contradiction].
  - rewrite app_cons. cbn [lacks string_forallb PyStr.find String.length].
    intros [Hx Hs]%andb_prop.
    apply negb_true_iff, bool_decide_eq_false in Hx.
    destruct (decide (x = c)); [contradiction|].
    unfold lacks in IH. rewrite (IH Hs).
    replace (Z.of_nat (String.length a) <? 0) with false
      by (symmetry; apply Z.ltb_ge; lia).
    lia.
Qed.

(** Cutting at the first [?] takes the query away. *)
Lemma split_head_parts (c : ascii) (a q : string) :
  lacks c a = true ->
  q = "" \/ (exists q', q = String c q') ->
  PyStr.split_head c (a +:+ q) = a.
Proof.
  intros Ha [->|(q' & ->)]; unfold PyStr.split_head.
  - rewrite app_empty_r, (lacks_find _ _ Ha). reflexivity.
  - rewrite (find_first _ _ _ Ha).
    unfold PyStr.len, PyStr.slice_to, PyStr.clip, PyStr.len.
    replace (Z.of_nat (String.length a) <? 0) with false
      by (symmetry; apply Z.ltb_ge; lia).
    rewrite Z.min_l by (rewrite length_app_str; lia).
    rewrite Nat2Z.id. apply take_app_length_str.
Qed.

(** The basename is what follows the folders. *)
Lemma basename_parts (folder name : string) :
  folder = "" \/ last_char folder = Some "/"%char ->
  lacks "/" name = true ->
  OsPath.basename (folder +:+ name) = name.
Proof.
  intros Hf Hn. apply lacks_rfind in Hn.
  unfold OsPath.basename, OsPath.sep.
  rewrite rfind_app, Hn. change (0 <=? -1) with false. cbv iota.
  destruct Hf as [->|Hl].
  - rewrite app_empty_l. change (PyStr.rfind "/" "" + 1) with 0.
    unfold PyStr.slice_from, PyStr.clip, PyStr.len. change (0 <? 0) with false.
    cbv iota. rewrite Z.min_l by lia. reflexivity.
  - apply last_char_split in Hl as (d & ->).
    rewrite rfind_app. change (PyStr.rfind "/" "/") with 0.
    change (0 <=? 0) with true. cbv iota.
    unfold PyStr.slice_from, PyStr.clip, PyStr.len.
    replace (Z.of_nat (String.length d) + 0 + 1 <? 0) with false
      by (symmetry; apply Z.ltb_ge; lia).
    rewrite Z.min_l by (rewrite !length_app_str; simpl; lia).
    replace (Z.to_nat (Z.of_nat (String.length d) + 0 + 1))
      with (String.length (d +:+ "/"))
      by (rewrite length_app_str; simpl; lia).
    apply drop_app_length_str.
Qed.

Lemma char_at_parts (pre : string) (c : ascii) (r : string) :
  PyStr.char_at (PyStr.len pre) (pre +:+ String c r) = String c "".
Proof.
  unfold PyStr.char_at, PyStr.slice_from, PyStr.clip, PyStr.len.
  replace (Z.of_nat (String.length pre) <? 0) with false
    by (symmetry; apply Z.ltb_ge; lia).
  rewrite Z.min_l by (rewrite length_app_str; lia).
  rewrite Nat2Z.id, drop_app_length_str. reflexivity.
Qed.

(** The loop of [splitext] over a stretch [s] of the path says whether
    [s] has a character that is no dot. *)
Lemma splitext_scan_parts (s pre tail : string) (fuel : nat) :
  (String.length s <= fuel)%nat ->
  OsPath.splitext_scan fuel (pre +:+ s +:+ tail) (PyStr.len pre)
    (PyStr.len pre + PyStr.len s)
  = negb (all_dots s).
Proof.
  revert pre fuel. induction s as [|c s IH]; intros pre fuel Hfuel.
  - destruct fuel; cbn [OsPath.splitext_scan]; [reflexivity|].
    unfold PyStr.len. cbn [String.length].
    replace (_ <? _) with false by (symmetry; apply Z.ltb_ge; lia).
    reflexivity.
  - destruct fuel as [|fuel]; [simpl in Hfuel; lia|].
    cbn [OsPath.splitext_scan].
    replace (PyStr.len pre <? PyStr.len pre + PyStr.len (String c s)) with true
      by (symmetry; apply Z.ltb_lt; unfold PyStr.len; simpl; lia).
    rewrite app_cons, char_at_parts.
    cbn [all_dots string_forallb]. unfold OsPath.extsep.
    destruct (decide (String c "" = ".")) as [Hc|Hc].
    + injection Hc as ->.
      rewrite bool_decide_eq_true_2 by reflexivity. cbn [andb].
      specialize (IH (pre +:+ ".") fuel).
      rewrite app_assoc_str in IH. cbn [String.app] in IH.
      replace (PyStr.len pre + 1) with (PyStr.len (pre +:+ "."))
        by (unfold PyStr.len; rewrite length_app_str; simpl; lia).
      replace (PyStr.len pre + PyStr.len (String "." s))
        with (PyStr.len (pre +:+ ".") + PyStr.len s)
        by (unfold PyStr.len; rewrite length_app_str; simpl; lia).
      apply IH. simpl in Hfuel. lia.
    + rewrite bool_decide_eq_false_2 by congruence. reflexivity.
Qed.

(** [splitext] gives the stem and the extension of a name. *)
Lemma splitext_parts (stem ext : string) :
  lacks "/" (stem +:+ ext) = true ->
  (ext = ""
   /\ exists dots rest,
        stem = dots +:+ rest /\ all_dots dots = true /\ lacks "." rest = true)
  \/ (all_dots stem = false
      /\ exists e, ext = String "." e /\ lacks "." e = true) ->
  OsPath.splitext (stem +:+ ext) = (stem, ext).
Proof.
  intros Hsep Hext. apply lacks_rfind in Hsep.
  unfold OsPath.splitext, OsPath.sep, OsPath.extsep. rewrite Hsep.
  destruct Hext as [(-> & dots & rest & -> & Hdots & Hrest)
                   |(Hstem & e & -> & He)].
  - rewrite app_empty_r. apply lacks_rfind in Hrest.
    rewrite rfind_app, Hrest. change (0 <=? -1) with false. cbv iota.
    pose proof (rfind_range "." dots) as Hr. unfold PyStr.len in Hr.
    destruct (-1 <? PyStr.rfind "." dots) eqn:Hlt; [|reflexivity].
    apply Z.ltb_lt in Hlt. cbn [andb].
    set (k := Z.to_nat (PyStr.rfind "." dots)).
    assert (Hscan :
      OsPath.splitext_scan (String.length (dots +:+ rest)) (dots +:+ rest)
        (-1 + 1) (PyStr.rfind "." dots) = false).
    { assert (Hp : "" +:+ PyStr.take k dots +:+ (PyStr.drop k dots +:+ rest)
                   = dots +:+ rest)
        by (rewrite app_empty_l, <- app_assoc_str, take_drop_str; reflexivity).
      pose proof (splitext_scan_parts (PyStr.take k dots) ""
                    (PyStr.drop k dots +:+ rest)
                    (String.length (dots +:+ rest))) as Hs.
      rewrite Hp in Hs.
      assert (Hlen : String.length (PyStr.take k dots) = k)
        by (rewrite length_take_str; lia).
      change (PyStr.len "") with 0 in Hs. unfold PyStr.len in Hs.
      rewrite Hlen in Hs.
      replace (0 + Z.of_nat k) with (PyStr.rfind "." dots) in Hs by lia.
      change (-1 + 1) with 0. rewrite Hs.
      - unfold all_dots. rewrite forallb_take_str by exact Hdots. reflexivity.
      - rewrite length_app_str. lia. }
    rewrite Hscan. reflexivity.
  - apply lacks_rfind in He. rewrite rfind_app.
    assert (Hd : PyStr.rfind "." (String "." e) = 0).
    { cbn [PyStr.rfind]. rewrite He. change (0 <=? -1) with false. cbv iota.
      destruct (decide ("."%char = "."%char)); [reflexivity|contradiction]. }
    rewrite Hd. change (0 <=? 0) with true. cbv iota.
    rewrite Z.add_0_r.
    replace (-1 <? PyStr.len stem) with true
      by (symmetry; apply Z.ltb_lt; unfold PyStr.len; lia).
    cbn [andb].
    pose proof (splitext_scan_parts stem "" (String "." e)
                  (String.length (stem +:+ String "." e))) as Hs.
    rewrite app_empty_l in Hs. change (PyStr.len "") with 0 in Hs.
    rewrite Z.add_0_l in Hs. change (-1 + 1) with 0.
    rewrite Hs by (rewrite length_app_str; lia).
    rewrite Hstem. cbn [negb].
    unfold PyStr.slice_to, PyStr.slice_from, PyStr.clip, PyStr.len.
    replace (Z.of_nat (String.length stem) <? 0) with false
      by (symmetry; apply Z.ltb_ge; lia).
    rewrite Z.min_l by (rewrite length_app_str; lia).
    rewrite Nat2Z.id, take_app_length_str, drop_app_length_str. reflexivity.
Qed.

(** Every text splits at the first [c] it has. *)
Lemma split_first (c : ascii) (s : string) :
  exists a q, s = a +:+ q /\ lacks c a = true
              /\ (q = "" \/ exists q', q = String c q').
Proof.
  induction s as [|x s (a & q & -> & Ha & Hq)].
  - exists "", "". auto.
  - destruct (decide (x = c)) as [->|Hx].
    + exists "", (String c (a +:+ q)). split; [reflexivity|]. split; eauto.
    + exists (String x a), q. split; [reflexivity|]. split; [|exact Hq].
      cbn [lacks string_forallb]. rewrite bool_decide_eq_false_2 by exact Hx.
      exact Ha.
Qed.

(** Every text splits after the last [c] it has. *)
Lemma split_last (c : ascii) (s : string) :
  exists a b, s = a +:+ b /\ (a = "" \/ last_char a = Some c)
              /\ lacks c b = true.
Proof.
  induction s as [|x s (a & b & -> & Ha & Hb)].
  - exists "", "". auto.
  - destruct a as [|y a].
    + destruct (decide (x = c)) as [->|Hx].
      * exists (String c ""), b. auto.
      * exists "", (String x b). split; [reflexivity|]. split; [auto|].
        cbn [lacks string_forallb]. rewrite bool_decide_eq_false_2 by exact Hx.
        exact Hb.
    + exists (String x (String y a)), b. split; [reflexivity|].
      split; [|exact Hb]. right.
      destruct Ha as [Ha|Ha]; [discriminate|].
      change (last_char (String x (String y a)))
        with (match last_char (String y a) with
              | None => Some x
              | o => o
              end).
      rewrite Ha. reflexivity.
Qed.

(** Every name has a stem and an extension. *)
Lemma split_extension (name : string) :
  exists stem ext,
    name = stem +:+ ext
    /\ ((ext = ""
         /\ exists dots rest,
              stem = dots +:+ rest
              /\ all_dots dots = true /\ lacks "." rest = true)
        \/ (all_dots stem = false
            /\ exists e, ext = String "." e /\ lacks "." e = true)).
Proof.
  destruct (split_last "." name) as (a & e & -> & Ha & He).
  destruct Ha as [->|Hl].
  - exists e, "". split; [rewrite app_empty_r; reflexivity|].
    left. split; [reflexivity|]. exists "", e. auto.
  - apply last_char_split in Hl as (d & ->).
    destruct (all_dots d) eqn:Hd.
    + exists ((d +:+ ".") +:+ e), "".
      split; [rewrite app_empty_r; reflexivity|].
      left. split; [reflexivity|]. exists (d +:+ "."), e.
      split; [reflexivity|]. split; [|exact He].
      unfold all_dots in *. rewrite forallb_app_str, Hd. reflexivity.
    + exists d, (String "." e).
      split; [rewrite app_assoc_str; reflexivity|].
      right. split; [exact Hd|]. eauto.
Qed.

(** Every URL has its four parts. *)
Lemma url_parts_exist (u : string) :
  exists folder stem ext query,
    u = folder +:+ stem +:+ ext +:+ query /\ url_parts folder stem ext query.
Proof.
  destruct (split_first "?" u) as (head & query & -> & Hhead & Hquery).
  destruct (split_last "/" head) as (folder & name & -> & Hfolder & Hname).
  destruct (split_extension name) as (stem & ext & -> & Hext).
  exists folder, stem, ext, query. split.
  - rewrite !app_assoc_str. reflexivity.
  - unfold url_parts. auto.
Qed.


(** The extension of the path of a URL of given parts. *)
Lemma path_extension_parts (folder stem ext query : string) :
  url_parts folder stem ext query ->
  path_extension (folder +:+ stem +:+ ext +:+ query) = ext.
Proof.
  intros (Hq & Hquery & Hfolder & Hsep & Hext).
  pose proof (split_head_parts _ _ _ Hq Hquery) as Hhead.
  rewrite !app_assoc_str in Hhead.
  unfold path_extension. rewrite Hhead.
  rewrite (basename_parts _ _ Hfolder Hsep).
  rewrite (splitext_parts _ _ Hsep Hext). reflexivity.
Qed.

Lemma lower_app (a b : string) :
  PyStr.lower (a +:+ b) = PyStr.lower a +:+ PyStr.lower b.
Proof.
  induction a as [|c a IH]; [reflexivity|].
  rewrite app_cons. cbn [PyStr.lower]. rewrite IH. reflexivity.
Qed.

Lemma startswith_app (x b : string) : PyStr.startswith x (x +:+ b) = true.
Proof.
  induction x as [|c x IH]; [destruct b; reflexivity|].
  rewrite app_cons. cbn [PyStr.startswith].
  destruct (decide (c = c)); [exact IH|contradiction].
Qed.

Lemma contains_here (x hay : string) :
  PyStr.startswith x hay = true -> PyStr.contains x hay = true.
Proof.
  destruct hay as [|c hay]; cbn [PyStr.contains]; [auto|].
  intros ->. reflexivity.
Qed.

Lemma contains_later (x a hay : string) :
  PyStr.contains x hay = true -> PyStr.contains x (a +:+ hay) = true.
Proof.
  intros H. induction a as [|c a IH]; [exact H|].
  rewrite app_cons. cbn [PyStr.contains]. rewrite IH. apply orb_true_r.
Qed.

(** A text contains each of its parts. *)
Lemma contains_parts (a x b : string) :
  PyStr.contains x (a +:+ x +:+ b) = true.
Proof. apply contains_later, contains_here, startswith_app. Qed.

(** A reference whose path has an image extension passes the extension
    test of [download_image]. *)
Lemma has_image_extension_direct (ref : string) :
  has_image_extension ref = true -> is_direct_image_url ref = true.
Proof.
  destruct (url_parts_exist ref) as (folder & stem & ext & query & -> & Hp).
  unfold has_image_extension, is_direct_image_url, any_in, in_IMAGE_EXTENSIONS.
  rewrite (path_extension_parts _ _ _ _ Hp).
  intros Hin%bool_decide_eq_true. apply existsb_exists.
  exists (PyStr.lower ext). split; [apply list_elem_of_In, Hin|].
  rewrite <- app_assoc_str, !lower_app. apply contains_parts.
Qed.



(* ===================================================================== *)
(** * ContentValidator *)
(* ===================================================================== *)

(** The validator, as a function of the file: it returns whether the
    file is present and valid, leaves files and request count alone, and
    logs one warning when it rejects. *)
Lemma is_valid_image_run (E : environment) (file_path : string)
    (min_size : Z) (w : world) :
  exists es,
    is_valid_image E file_path min_size w
    = (present_and_valid E (fs w) file_path min_size,
       World (fs w) (requests w) (trace w ++ es))
    /\ (present_and_valid E (fs w) file_path min_size = true -> es = [])
    /\ Forall (fun e => exists m, e = EvLog WARNING m) es.
Proof.
  unfold is_valid_image, present_and_valid, validate, parse, decode.
  destruct w as [files n tr]. simpl.
  destruct (files !! file_path) as [data|]; simpl.
  2: { eexists. split; [reflexivity|]. split; [discriminate|].
       repeat constructor. eauto. }
  destruct (Image_open E data) as [[width height]|] eqn:Ho; simpl.
  2: { destruct (Image_verify E data); simpl;
       (eexists; split; [reflexivity|]; split; [discriminate|];
        repeat constructor; eauto). }
  destruct (Image_verify E data); simpl.
  2: { eexists. split; [reflexivity|]. split; [discriminate|].
       repeat constructor. eauto. }
  destruct (width <? min_size) eqn:H1; destruct (height <? min_size) eqn:H2;
    destruct (min_size <=? width) eqn:H3; destruct (min_size <=? height) eqn:H4;
    simpl; try lia;
    try (eexists; split; [reflexivity|]; split; [discriminate|];
         repeat constructor; eauto).
  exists []. rewrite app_nil_r. repeat split. constructor.
Qed.

(** The three ways through the validator. *)
Lemma is_valid_image_missing (E : environment) (file_path : string)
    (min_size : Z) (w : world) :
  fs w !! file_path = None ->
  is_valid_image E file_path min_size w
  = (false, World (fs w) (requests w)
              (trace w ++ [EvLog WARNING (Msg_invalid_image file_path)])).
Proof.
  intros H. unfold is_valid_image. rewrite H. reflexivity.
Qed.

Lemma is_valid_image_refused (E : environment) (file_path : string)
    (min_size : Z) (w : world) (data : string) :
  fs w !! file_path = Some data ->
  Image_open E data = None \/ Image_verify E data = false ->
  is_valid_image E file_path min_size w
  = (false, World (fs w) (requests w)
              (trace w ++ [EvLog WARNING (Msg_invalid_image file_path)])).
Proof.
  intros H Hr. unfold is_valid_image. rewrite H.
  destruct (Image_open E data) as [[width height]|]; [|reflexivity].
  destruct Hr as [Hr|Hr]; [discriminate|]. rewrite Hr. reflexivity.
Qed.

Lemma is_valid_image_opened (E : environment) (file_path : string)
    (min_size : Z) (w : world) (data : string) (width height : Z) :
  fs w !! file_path = Some data ->
  Image_open E data = Some (width, height) ->
  Image_verify E data = true ->
  is_valid_image E file_path min_size w
  = if (width <? min_size) || (height <? min_size)
    then (false, World (fs w) (requests w)
                   (trace w ++ [EvLog WARNING
                                  (Msg_image_too_small file_path width height)]))
    else (true, w).
Proof.
  intros H Ho Hv. unfold is_valid_image. rewrite H, Ho, Hv. reflexivity.
Qed.

(** C9, as the code has it.  [is_valid_image] accepts a file exactly
    when Pillow's [Image.open] accepts its bytes, [Image.verify] raises
    nothing on them, and the width and the height [Image.open] reports
    are each at least the minimum.  A file that is missing, or that
    [Image.open] or [Image.verify] refuses, for whatever reason, is
    rejected with the "Invalid image" warning; a file they accept whose
    width or height is below the minimum is rejected with the "Image too
    small" warning.  The image data is never decoded ([Image.load] is not
    called), so whether data that is cut short is rejected is up to
    [Image.open] and [Image.verify].  Nothing else is checked and
    nothing else is done: no file and no request count changes, and an
    accepted file adds no event. *)
Theorem is_valid_image_validate (E : environment) (file_path : string)
    (min_size : Z) (w : world) :
  let r := is_valid_image E file_path min_size w in
  fs (snd r) = fs w
  /\ requests (snd r) = requests w
  /\ (fst r = true <->
      exists data width height,
        fs w !! file_path = Some data
        /\ Image_open E data = Some (width, height)
        /\ Image_verify E data = true
        /\ min_size <= width /\ min_size <= height)
  /\ (fst r = true <-> validate (parse E (fs w) file_path) min_size = Valid)
  /\ (fst r = true -> trace (snd r) = trace w)
  /\ (fs w !! file_path = None
      \/ (exists data,
            fs w !! file_path = Some data
            /\ (Image_open E data = None \/ Image_verify E data = false)) ->
      validate (parse E (fs w) file_path) min_size = Invalid "corrupt"
      /\ fst r = false
      /\ trace (snd r)
         = trace w ++ [EvLog WARNING (Msg_invalid_image file_path)])
  /\ (forall data width height,
        fs w !! file_path = Some data ->
        Image_open E data = Some (width, height) ->
        Image_verify E data = true ->
        width < min_size \/ height < min_size ->
        validate (parse E (fs w) file_path) min_size = Invalid "too small"
        /\ fst r = false
        /\ trace (snd r)
           = trace w ++ [EvLog WARNING
                           (Msg_image_too_small file_path width height)]).
Proof.
  cbv zeta. unfold parse, decode.
  destruct (fs w !! file_path) as [data|] eqn:Hf.
  2: { rewrite (is_valid_image_missing E file_path min_size w Hf).
       cbn [fst snd fs requests trace validate].
       split; [reflexivity|]. split; [reflexivity|].
       split; [split; [discriminate|intros (? & ? & ? & ? & _); discriminate]|].
       split; [split; discriminate|]. split; [discriminate|].
       split; [intros _; auto|]. intros ? ? ? ?. discriminate. }
  destruct (Image_open E data) as [[width height]|] eqn:Ho.
  2: { rewrite (is_valid_image_refused E file_path min_size w data Hf (or_introl Ho)).
       cbn [fst snd fs requests trace].
       assert (Hp : (if Image_verify E data then None else None)
                    = (None : option (Z * Z)))
         by (destruct (Image_verify E data); reflexivity).
       rewrite Hp. cbn [validate].
       split; [reflexivity|]. split; [reflexivity|].
       split; [split; [discriminate|]|].
       { intros (? & ? & ? & [= <-] & Ho' & _). congruence. }
       split; [split; discriminate|]. split; [discriminate|].
       split; [intros _; auto|]. intros ? ? ? [= <-] Ho' _. congruence. }
  destruct (Image_verify E data) eqn:Hv.
  2: { rewrite (is_valid_image_refused E file_path min_size w data Hf (or_intror Hv)).
       cbn [fst snd fs requests trace validate].
       split; [reflexivity|]. split; [reflexivity|].
       split; [split; [discriminate|]|].
       { intros (? & ? & ? & [= <-] & _ & Hv' & _). congruence. }
       split; [split; discriminate|]. split; [discriminate|].
       split; [intros _; auto|]. intros ? ? ? [= <-] _ Hv' _. congruence. }
  rewrite (is_valid_image_opened E file_path min_size w data width height Hf Ho Hv).
  cbn [validate].
  destruct (width <? min_size) eqn:H1; destruct (height <? min_size) eqn:H2;
    destruct (min_size <=? width) eqn:H3; destruct (min_size <=? height) eqn:H4;
    try lia; cbn [orb andb fst snd fs requests trace].
  all: split; [try reflexivity; destruct w; reflexivity|].
  all: split; [try reflexivity; destruct w; reflexivity|].
  all: split;
    [split;
     [try discriminate;
      intros _; exists data, width, height; repeat split; try assumption; lia
     |try (intros _; reflexivity);
      intros (? & ? & ? & [= <-] & Ho' & _ & ? & ?);
      rewrite Ho in Ho'; injection Ho' as <- <-; lia]|].
  all: split; [split; congruence|].
  all: split; [try discriminate; try reflexivity|].
  all: split;
    [intros [?|(? & [= <-] & [?|?])]; congruence
    |intros ? ? ? [= <-] Ho' _ Hsmall;
     rewrite Ho in Ho'; injection Ho' as <- <-;
     try lia; repeat split; reflexivity].
Qed.

(** C9, as the claim words it, fails where Pillow accepts what does not
    decode.  In a toy raster format (a header with the width and the
    height, then one byte per pixel) read as Pillow reads JPEG and the
    like - [Image.open] parses the header, [Image.verify] has nothing to
    check, and only [Image.load] reads the pixels - a file of 200 x 200
    cut short after its third pixel does not parse as an image, and the
    validator accepts it. *)
Lemma truncated_image_accepted :
  Fixtures.toy_header Fixtures.truncated_image = Some (200, 200)
  /\ Fixtures.toy_pixels Fixtures.truncated_image = None
  /\ validate (Fixtures.toy_parse Fixtures.truncated_image) 100
     = Invalid "corrupt"
  /\ fst (is_valid_image Fixtures.env_header_only
            (Fixtures.target Fixtures.image_a) 100
            Fixtures.world_with_truncated)
     = true.
Proof. repeat split; vm_compute; reflexivity. Qed.

Lemma is_valid_image_validate_witness :
  let r := is_valid_image Fixtures.env_small
             (Fixtures.target Fixtures.image_a) 100 Fixtures.world_with_small in
  validate (parse Fixtures.env_small (fs Fixtures.world_with_small)
              (Fixtures.target Fixtures.image_a)) 100
  = Invalid "too small"
  /\ fst r = false
  /\ trace (snd r)
     = trace Fixtures.world_with_small
       ++ [EvLog WARNING
             (Msg_image_too_small (Fixtures.target Fixtures.image_a) 50 50)].
Proof.
  destruct (is_valid_image_validate Fixtures.env_small
              (Fixtures.target Fixtures.image_a) 100 Fixtures.world_with_small)
    as (_ & _ & _ & _ & _ & _ & H).
  apply (H Fixtures.small_image 50 50); try reflexivity.
  left. lia.
Defined.

(* ===================================================================== *)
(** * ResourceLocator *)
(* ===================================================================== *)

Section Locator.

Variable E : environment.

Lemma find_filter {A} (P Q : A -> bool) (l : list A) :
  List.find Q (List.filter P l) = List.find (fun x => P x && Q x) l.
Proof.
  induction l as [|x l IH]; simpl; [reflexivity|].
  destruct (P x); simpl; [|exact IH].
  destruct (Q x); [reflexivity|exact IH].
Qed.

Lemma head_filter {A} (P : A -> bool) (l : list A) :
  head (List.filter P l) = List.find P l.
Proof.
  induction l as [|x l IH]; simpl; [reflexivity|].
  destruct (P x); [reflexivity|exact IH].
Qed.

(** The two loops with [break] are searches for the first match. *)
Lemma img_hint_loop_find (page : string) (imgs : list tag) :
  img_hint_loop E page imgs
  = joined E page "src"
      (List.find (fun t => any_in HINT_TERMS (PyStr.lower (tag_get t "src"))) imgs).
Proof.
  induction imgs as [|t imgs IH]; [reflexivity|].
  cbn [img_hint_loop List.find].
  destruct (any_in HINT_TERMS (PyStr.lower (tag_get t "src")));
    [reflexivity|exact IH].
Qed.

Lemma a_loop_find (page : string) (links : list tag) :
  a_loop E page links
  = joined E page "href"
      (List.find (fun t => any_in IMAGE_EXTENSIONS (PyStr.lower (tag_get t "href"))) links).
Proof.
  induction links as [|t links IH]; [reflexivity|].
  cbn [a_loop List.find].
  destruct (any_in IMAGE_EXTENSIONS (PyStr.lower (tag_get t "href")));
    [reflexivity|exact IH].
Qed.

Lemma meta_loop_candidates (pvs : list string) (soup : list tag) :
  meta_loop pvs soup
  = first_truthy (map (fun pv => meta_candidate pv soup) pvs).
Proof.
  induction pvs as [|pv pvs IH]; simpl; [reflexivity|].
  unfold meta_candidate at 1, soup_find_attr, named, attr_is.
  destruct (List.find _ soup) as [t|].
  - destruct (tag_attrs t !! "content") as [c|]; [|exact IH].
    destruct (PyStr.truthy c); [reflexivity|exact IH].
  - destruct (List.find _ soup) as [t|]; [|exact IH].
    destruct (tag_attrs t !! "content") as [c|]; [|exact IH].
    destruct (PyStr.truthy c); [reflexivity|exact IH].
Qed.

Lemma found_first_truthy (l : list (option string)) :
  found (first_truthy l) = first_truthy l.
Proof.
  induction l as [|[s|] l IH]; simpl; try reflexivity; [|exact IH].
  destruct (PyStr.truthy s) eqn:Hs; [|exact IH].
  unfold found. simpl. rewrite Hs. reflexivity.
Qed.

(** The blocks of the search give the first candidate that is found,
    unless something was found before them. *)
Lemma run_blocks_first_found (image_url : option string)
    (blocks : list (result (option string))) :
  match run_blocks image_url blocks with
  | Returned a => Returned (found a)
  | Raised e => Raised e
  end
  = match found image_url with
    | Some s => Returned (Some s)
    | None => first_found blocks
    end.
Proof.
  revert image_url. induction blocks as [|block rest IH]; intros image_url.
  - cbn [run_blocks first_found]. destruct (found image_url); reflexivity.
  - cbn [run_blocks first_found]. unfold unless_found, found in *.
    destruct (falsy image_url) eqn:Hf.
    + destruct block as [[u|]|e]; [| |reflexivity].
      * rewrite IH. cbn [falsy].
        destruct (PyStr.truthy u); reflexivity.
      * rewrite IH, Hf. reflexivity.
    + rewrite IH, Hf. destruct image_url; [reflexivity|discriminate].
Qed.

Lemma first_found_metas (a b : option string)
    (l : list (result (option string))) :
  first_found (Returned a :: Returned b :: l)
  = match first_truthy [a; b] with
    | Some s => Returned (Some s)
    | None => first_found l
    end.
Proof.
  cbn [first_found first_truthy].
  destruct a as [s|]; [destruct (PyStr.truthy s); [reflexivity|]|];
    (destruct b as [t|]; [destruct (PyStr.truthy t)|]; reflexivity).
Qed.

(** The search in the document returns the first non-empty candidate
    of the tiers, in the order of [tier_candidates], and raises when a
    candidate it comes to cannot be joined. *)
Lemma search_soup_tiers (page : string) (soup : list tag) :
  match search_soup E page soup with
  | Returned a => Returned (found a)
  | Raised e => Raised e
  end
  = first_found (tier_candidates E page soup).
Proof.
  assert (Hrun : search_soup E page soup
                 = run_blocks (meta_loop ["og:image"; "twitter:image"] soup)
                     [ img_hint_loop E page (soup_find_all_with "img" "src" soup);
                       match soup_find_with "img" "src" soup with
                       | Some img_tag => url_join E page (tag_get img_tag "src")
                       | None => Returned None
                       end;
                       a_loop E page (soup_find_all_with "a" "href" soup) ]).
  { unfold search_soup. cbn [run_blocks].
    repeat match goal with
           | |- context [unless_found ?a ?b] => destruct (unless_found a b)
           end; reflexivity. }
  rewrite Hrun. clear Hrun.
  rewrite run_blocks_first_found.
  unfold tier_candidates. rewrite first_found_metas.
  rewrite meta_loop_candidates. cbn [map]. rewrite found_first_truthy.
  destruct (first_truthy _) as [s|]; [reflexivity|].
  unfold soup_find_with, soup_find_all_with.
  rewrite img_hint_loop_find, a_loop_find, head_filter, !find_filter.
  unfold named, has_attr.
  destruct (List.find _ soup) as [t|]; reflexivity.
Qed.

Lemma returned_search_soup (page : string) (soup : list tag) :
  found (returned (search_soup E page soup))
  = returned (first_found (tier_candidates E page soup)).
Proof.
  rewrite <- search_soup_tiers.
  destruct (search_soup E page soup); reflexivity.
Qed.

(** The fetch of the page: one request, no file touched; any failure of
    the fetch or of the search gives [None]. *)
Lemma extract_image_url_run (page : string) (w : world) :
  exists es,
    snd (extract_image_url E page w)
    = World (fs w) (S (requests w)) (trace w ++ EvGet page false 15 :: es)
    /\ Forall (fun e => exists m, e = EvLog ERROR m) es
    /\ (found (fst (extract_image_url E page w)) <> None -> es = []).
Proof.
  unfold extract_image_url, requests_get, bind, emit, log, ret.
  destruct w as [files n tr]. simpl.
  assert (Herr : forall m,
            exists es,
              World files (S n) ((tr ++ [EvGet page false 15]) ++ [EvLog ERROR m])
              = World files (S n) (tr ++ EvGet page false 15 :: es)
              /\ Forall (fun e => exists m, e = EvLog ERROR m) es
              /\ (found (@None string) <> None -> es = [])).
  { intros m. eexists. rewrite <- app_assoc. split; [reflexivity|].
    split; [repeat constructor; eauto|]. intros H. exfalso. apply H. reflexivity. }
  destruct (net E n page) as [[]|resp]; simpl; try apply Herr.
  destruct (body_error resp) as [[]|]; simpl; try apply Herr.
  destruct (raise_for_status resp); simpl; try apply Herr.
  destruct (search_soup E page (document resp)) as [a|[]]; simpl; try apply Herr.
  exists []. split; [reflexivity|]. split; [constructor|reflexivity].
Qed.


End Locator.



(* ===================================================================== *)
(** * The target path never is a ledger *)
(* ===================================================================== *)

Lemma last_char_app (a b : string) :
  b <> "" -> last_char (a +:+ b) = last_char b.
Proof.
  intros Hb. induction a as [|c a IH]; [reflexivity|].
  rewrite app_cons. simpl. rewrite IH.
  destruct b as [|x b]; [congruence|]. simpl.
  destruct (last_char b); reflexivity.
Qed.

Lemma last_char_lower (s : string) :
  last_char (PyStr.lower s) = PyStr.lower_char <$> last_char s.
Proof.
  induction s as [|c s IH]; [reflexivity|].
  simpl. rewrite IH. destruct (last_char s); reflexivity.
Qed.

Lemma image_extension_end (ext : string) :
  in_IMAGE_EXTENSIONS (PyStr.lower ext) = true ->
  PyStr.lower_char <$> last_char ext ∈ ext_ends.
Proof.
  intros H. apply bool_decide_eq_true in H.
  rewrite <- last_char_lower. unfold IMAGE_EXTENSIONS, ext_ends in *.
  repeat (apply elem_of_cons in H as [->|H]); simpl; try set_solver.
Qed.

Lemma image_extension_nonempty (ext : string) :
  in_IMAGE_EXTENSIONS (PyStr.lower ext) = true -> ext <> "".
Proof. intros H ->. vm_compute in H. discriminate. Qed.

(** A generated file name ends like an image extension. *)
Lemma generate_unique_filename_end (u : string) :
  PyStr.lower_char <$> last_char (generate_unique_filename u) ∈ ext_ends.
Proof.
  rewrite generate_unique_filename_eq.
  rewrite <- !app_assoc_str.
  destruct (in_IMAGE_EXTENSIONS _) eqn:Hext.
  - rewrite last_char_app by (apply image_extension_nonempty, Hext).
    apply image_extension_end, Hext.
  - rewrite last_char_app by discriminate. simpl. set_solver.
Qed.

(** A generated file name does not start with the separator. *)
Lemma generate_unique_filename_relative (u : string) :
  PyStr.startswith "/" (generate_unique_filename u) = false.
Proof.
  rewrite generate_unique_filename_eq.
  pose proof (basename_no_sep (PyStr.split_head "?" u)) as Hsep.
  rewrite <- (splitext_split (OsPath.basename (PyStr.split_head "?" u))) in Hsep.
  destruct (fst (OsPath.splitext _)) as [|c stem]; [reflexivity|].
  rewrite app_cons in Hsep |- *. apply rfind_absent_head in Hsep.
  simpl. destruct (decide ("/"%char = c)) as [<-|]; [|reflexivity].
  exfalso. apply Hsep. reflexivity.
Qed.

Lemma join_relative_inj (a b1 b2 : string) :
  PyStr.startswith "/" b1 = false -> PyStr.startswith "/" b2 = false ->
  OsPath.join a b1 = OsPath.join a b2 -> b1 = b2.
Proof.
  unfold OsPath.join. intros H1 H2.
  change (String OsPath.sep "") with "/". rewrite H1, H2.
  destruct (_ || _); intros H.
  - apply (inj (String.app a)) in H. exact H.
  - apply (inj (String.app a)) in H.
    apply (inj (String.app "/")) in H. exact H.
Qed.

(** Whatever the directory and the URL, the file the worker writes is
    neither of the two ledgers, and the ledgers are two files. *)
Lemma target_not_ledger (download_dir u : string) :
  OsPath.join download_dir LOG_FILE
  <> OsPath.join download_dir (generate_unique_filename u)
  /\ OsPath.join download_dir FAILED_DOWNLOADS_FILE
     <> OsPath.join download_dir (generate_unique_filename u)
  /\ OsPath.join download_dir LOG_FILE
     <> OsPath.join download_dir FAILED_DOWNLOADS_FILE.
Proof.
  pose proof (generate_unique_filename_end u) as Hend.
  pose proof (generate_unique_filename_relative u) as Hrel.
  repeat split; intros H; apply join_relative_inj in H;
    try reflexivity; try exact Hrel; try discriminate.
  - rewrite <- H in Hend. unfold ext_ends in Hend.
    repeat (apply elem_of_cons in Hend as [Hend|Hend]; [discriminate|]).
    inversion Hend.
  - rewrite <- H in Hend. unfold ext_ends in Hend.
    repeat (apply elem_of_cons in Hend as [Hend|Hend]; [discriminate|]).
    inversion Hend.
Qed.

(* ===================================================================== *)
(** * DownloadWorker: the retry loop *)
(* ===================================================================== *)

Lemma count_events_app (P : event -> bool) (a b : list event) :
  count_events P (a ++ b) = (count_events P a + count_events P b)%nat.
Proof. unfold count_events. rewrite List.filter_app, length_app. reflexivity. Qed.

Lemma new_events_app (w w' : world) (es : list event) :
  trace w' = trace w ++ es -> new_events w w' = es.
Proof. intros H. unfold new_events. rewrite H. apply drop_app_length. Qed.

Lemma new_events_world (w : world) (files : gmap string string) (n : nat)
    (es : list event) :
  new_events w (World files n (trace w ++ es)) = es.
Proof. apply new_events_app. reflexivity. Qed.

Lemma present_and_valid_insert (E : environment) (files : gmap string string)
    (path data : string) (min_size : Z) :
  present_and_valid E (<[path := data]> files) path min_size
  = accepts E data min_size.
Proof.
  unfold present_and_valid, accepts, parse. rewrite lookup_insert_eq.
  reflexivity.
Qed.

Lemma present_and_valid_ext (E : environment) (f1 f2 : gmap string string)
    (path : string) (min_size : Z) :
  f1 !! path = f2 !! path ->
  present_and_valid E f1 path min_size = present_and_valid E f2 path min_size.
Proof. unfold present_and_valid, parse. intros ->. reflexivity. Qed.

(** Counting in, and walking over, an explicit list of events. *)
Ltac ev_count :=
  rewrite ?count_events_app; unfold count_events; cbn;
  first [reflexivity | lia].

Ltac ev_forall :=
  cbn [app]; repeat constructor; try discriminate; try (intros _; reflexivity).

Ltac ev_side :=
  try discriminate; try reflexivity; try ev_count;
  try (intros ?; ev_count);
  try (intros _; reflexivity);
  try (intros; exfalso; auto; fail).

Lemma count_append_open (p q : string) :
  count_events (is_append_to p) [EvOpen q "a"]
  = if decide (p = q) then 1%nat else 0%nat.
Proof.
  unfold count_events. cbn. rewrite andb_true_l.
  destruct (decide (p = q)) as [->|Hne].
  - rewrite bool_decide_eq_true_2 by reflexivity. reflexivity.
  - rewrite bool_decide_eq_false_2 by congruence. reflexivity.
Qed.

Section Worker.

Variable E : environment.
Variables actual_img_url img_name log_file : string.
Variables min_img_size max_retries : Z.

Local Abbreviation summary :=
  (loop_summary E actual_img_url img_name log_file min_img_size).

Lemma attempt_once_summary (attempt : Z) (w : world) :
  summary 1 w
    (fst (attempt_once E actual_img_url img_name log_file
            min_img_size max_retries attempt w))
    (snd (attempt_once E actual_img_url img_name log_file
            min_img_size max_retries attempt w)).
Proof.
  unfold loop_summary, attempt_once, requests_get, on_exception, write_file,
    append_file, remove, path_exists, set_file, random_wait, log, emit, bind, ret.
  destruct w as [files n tr]. cbn [fs requests trace fst snd].
  destruct (net E n actual_img_url) as [e|resp] eqn:Hnet.
  { (* requests.get raises *)
    cbn [fs requests trace fst snd].
    eexists. rewrite <- !app_assoc. split; [reflexivity|].
    repeat split; ev_side. ev_forall. }
  assert (Hresp : (match body_error resp with
                   | Some _ => Returns resp
                   | None => Returns resp
                   end) = Returns resp) by (destruct (body_error resp); reflexivity).
  rewrite Hresp. clear Hresp. cbn [fs requests trace fst snd].
  destruct (raise_for_status resp) as [e|] eqn:Hst.
  { cbn [fs requests trace fst snd].
    eexists. rewrite <- !app_assoc. split; [reflexivity|].
    repeat split; ev_side. ev_forall. }
  destruct (PyStr.startswith "image/" (default "" (content_type resp))) eqn:Hct;
    cbn [negb fs requests trace fst snd].
  2: { eexists. rewrite <- !app_assoc. split; [reflexivity|].
       repeat split; ev_side. ev_forall. }
  destruct (writable E img_name) eqn:Hwr; cbn [fs requests trace fst snd].
  2: { (* the target cannot be created *)
       eexists. rewrite <- !app_assoc. split; [reflexivity|].
       repeat split; ev_side. ev_forall. }
  destruct (body_error resp) as [e|] eqn:Hbody.
  { (* the stream breaks after the file is written *)
    cbn [fs requests trace fst snd].
    eexists. rewrite <- !app_assoc. split; [reflexivity|].
    repeat split; ev_side.
    - ev_forall.
    - intros p Hp _. apply lookup_insert_ne. congruence.
    - intros Hne. apply lookup_insert_ne. congruence. }
  match goal with
  | |- context [is_valid_image E img_name min_img_size ?w1] =>
      destruct (is_valid_image_run E img_name min_img_size w1)
        as (ves & Hv & Hves & Hwarn);
      rewrite Hv; clear Hv
  end.
  cbn [fs requests trace fst snd] in *.
  destruct (present_and_valid E (<[img_name:=PyStr.concat (chunks resp)]> files)
              img_name min_img_size) eqn:Hval.
  { (* stored and valid: success *)
    rewrite (Hves eq_refl). cbn [fs requests trace fst snd].
    eexists. rewrite <- !app_assoc. split; [reflexivity|].
    repeat split; ev_side.
    - ev_forall.
    - intros p Hp Hl. rewrite lookup_insert_ne by congruence.
      apply lookup_insert_ne. congruence.
    - congruence.
    - intros p. rewrite !count_events_app, count_append_open. reflexivity.
    - rewrite <- Hval. apply present_and_valid_ext.
      rewrite lookup_insert_ne by congruence. reflexivity.
    - rewrite lookup_insert_eq. unfold ledger. cbn [fs].
      rewrite lookup_insert_ne by congruence. reflexivity.
    - intros Hall. specialize (Hall 0%nat (Nat.lt_0_succ 0)).
      rewrite Nat.add_0_r in Hall. revert Hall.
      unfold attempt_fails, fetch_fails.
      rewrite Hnet, Hst, Hct, Hbody, Hwr.
      rewrite <- (present_and_valid_insert E files img_name), Hval.
      rewrite !bool_decide_eq_false_2 by (intros [? ?]; discriminate).
      discriminate. }
  (* stored and rejected by the validator: the file is removed *)
  rewrite bool_decide_eq_true_2
    by (cbn [fs]; rewrite lookup_insert_eq; eauto).
  cbn [fs requests trace fst snd].
  eexists. rewrite <- !app_assoc. split; [reflexivity|].
  assert (Hc : forall P, (forall m, P (EvLog WARNING m) = false) ->
                         count_events P ves = 0%nat).
  { intros P HP. clear -Hwarn HP. unfold count_events.
    induction Hwarn as [|e l [m ->] _ IH]; [reflexivity|].
    simpl. rewrite HP. exact IH. }
  repeat split; try discriminate; try (intros; exfalso; auto; fail).
  - rewrite !count_events_app, Hc by reflexivity. ev_count.
  - rewrite !count_events_app, Hc by reflexivity. ev_count.
  - intros _. rewrite !count_events_app, Hc by reflexivity. ev_count.
  - repeat (apply Forall_app; split); repeat constructor; try discriminate.
    clear -Hwarn. induction Hwarn as [|e l [m ->] _ IH]; constructor;
      [discriminate|exact IH].
  - intros p Hp _. rewrite lookup_delete_ne by congruence.
    apply lookup_insert_ne. congruence.
  - intros Hne. rewrite lookup_delete_ne by congruence.
    apply lookup_insert_ne. congruence.
  - intros p. rewrite !count_events_app, Hc by reflexivity. ev_count.
Qed.

Lemma loop_summary_done (w : world) : summary 0 w None w.
Proof.
  exists []. rewrite app_nil_r.
  repeat split; try reflexivity; try discriminate; auto.
Qed.

Lemma loop_summary_return (k : nat) (w w1 : world) (b : bool) :
  summary 1 w (Some b) w1 -> summary (S k) w (Some b) w1.
Proof.
  intros (es & Ht & Hn & Hle & _ & Hget & Hframe & _ & Hsome & Hfail).
  exists es.
  split; [exact Ht|]. split; [exact Hn|]. split; [lia|].
  split; [discriminate|]. split; [exact Hget|]. split; [exact Hframe|].
  split; [discriminate|]. split; [exact Hsome|].
  intros Hall. apply Hfail. intros i Hi. apply Hall. lia.
Qed.

Lemma loop_summary_continue (k : nat) (w w1 w2 : world) (r : option bool) :
  summary 1 w None w1 -> summary k w1 r w2 ->
  summary (S k) w r w2.
Proof.
  intros (es1 & Ht1 & Hn1 & Hle1 & Heq1 & Hget1 & Hframe1 & Hnone1 & _ & Hfail1)
         (es2 & Ht2 & Hn2 & Hle2 & Heq2 & Hget2 & Hframe2 & Hnone2 & Hsome2 & Hfail2).
  specialize (Heq1 eq_refl). destruct (Hnone1 eq_refl) as [Hlog1 Happ1].
  exists (es1 ++ es2). rewrite !count_events_app.
  split; [rewrite Ht2, Ht1, app_assoc; reflexivity|].
  split; [lia|]. split; [lia|].
  split; [intros Hr; rewrite (Heq2 Hr); lia|].
  split; [apply Forall_app; split; assumption|].
  split; [intros p Hp Hl; rewrite Hframe2, Hframe1 by assumption; reflexivity|].
  split.
  { intros Hr. destruct (Hnone2 Hr) as [Hlog2 Happ2]. split.
    - intros Hne. rewrite Hlog2, Hlog1 by assumption. reflexivity.
    - intros p. rewrite count_events_app, Happ1, Happ2. reflexivity. }
  split.
  { intros b Hr. destruct (Hsome2 b Hr) as (Hb & Happ2 & Hok). split; [exact Hb|].
    split.
    - intros p. rewrite count_events_app, Happ1, Happ2. reflexivity.
    - intros Hne. destruct (Hok Hne) as [Hval Hled]. split; [exact Hval|].
      rewrite Hled. unfold ledger. rewrite (Hlog1 Hne). reflexivity. }
  intros Hall. apply Hfail2. intros i Hi.
  replace (requests w1 + i)%nat with (requests w + S i)%nat by lia.
  apply Hall. lia.
Qed.

(** The retry loop makes at most one streamed fetch per element of
    [range(max_retries)], all of them for the resolved URL; it returns
    only with success; it touches no file but the target and, on
    success, the success ledger. *)
Lemma retry_loop_summary (attempts : list Z) (w : world) :
  summary (length attempts) w
    (fst (retry_loop E actual_img_url img_name log_file
            min_img_size max_retries attempts w))
    (snd (retry_loop E actual_img_url img_name log_file
            min_img_size max_retries attempts w)).
Proof.
  revert w. induction attempts as [|attempt rest IH]; intros w.
  - apply loop_summary_done.
  - cbn [retry_loop length]. unfold bind.
    pose proof (attempt_once_summary attempt w) as H1.
    destruct (attempt_once E actual_img_url img_name log_file
                min_img_size max_retries attempt w) as [[b|] w1];
      cbn [fst snd] in *.
    + apply loop_summary_return, H1.
    + eapply loop_summary_continue; [exact H1|apply IH].
Qed.

End Worker.

(* ===================================================================== *)
(** * DownloadWorker: after the resolution *)
(* ===================================================================== *)

Lemma length_range (n : Z) : length (range n) = Z.to_nat n.
Proof. unfold range. rewrite length_map, length_seq. reflexivity. Qed.

Lemma count_warnings (P : event -> bool) (es : list event) :
  (forall m, P (EvLog WARNING m) = false) ->
  Forall (fun e => exists m, e = EvLog WARNING m) es ->
  count_events P es = 0%nat.
Proof.
  intros HP Hes. unfold count_events.
  induction Hes as [|e l [m ->] _ IH]; [reflexivity|].
  simpl. rewrite HP. exact IH.
Qed.

Lemma warnings_no_get (url : string) (es : list event) :
  Forall (fun e => exists m, e = EvLog WARNING m) es ->
  Forall (fun e => is_get e = true -> e = EvGet url true 20) es.
Proof.
  intros Hes. induction Hes as [|e l [m ->] _ IH]; constructor;
    [discriminate|exact IH].
Qed.

Section Resolved.

Variable E : environment.
Variables actual_img_url download_dir log_file failed_file : string.
Variables min_img_size max_retries : Z.

Let img_name : string :=
  OsPath.join download_dir (generate_unique_filename actual_img_url).

(** The test [os.path.exists(img_name) and is_valid_image(...)]. *)
Lemma existing_file_check (w : world) :
  exists ves,
    (if bool_decide (is_Some (fs w !! img_name))
     then is_valid_image E img_name min_img_size else ret false) w
    = (present_and_valid E (fs w) img_name min_img_size,
       World (fs w) (requests w) (trace w ++ ves))
    /\ (present_and_valid E (fs w) img_name min_img_size = true -> ves = [])
    /\ Forall (fun e => exists m, e = EvLog WARNING m) ves.
Proof.
  destruct (bool_decide (is_Some (fs w !! img_name))) eqn:Hex.
  - apply is_valid_image_run.
  - exists []. apply bool_decide_eq_false in Hex.
    unfold present_and_valid, parse, ret.
    destruct (fs w !! img_name) eqn:Hl; [exfalso; apply Hex; eauto|].
    destruct w; simpl. rewrite app_nil_r. repeat split. constructor.
Qed.

(** A target that is present and valid: the worker logs "Already
    exists" and returns [True]; nothing else happens. *)
Lemma download_resolved_present (w : world) :
  present_and_valid E (fs w) img_name min_img_size = true ->
  download_resolved E actual_img_url download_dir log_file failed_file
    min_img_size max_retries w
  = (true, World (fs w) (requests w)
             (trace w ++ [EvLog INFO (Msg_already_exists img_name)])).
Proof.
  intros Hpv. unfold download_resolved, bind, path_exists. fold img_name.
  destruct (existing_file_check w) as (ves & Heq & Hnil & _).
  rewrite Heq, Hpv, (Hnil Hpv), app_nil_r. reflexivity.
Qed.

Hypothesis log_not_target : log_file <> img_name.
Hypothesis failed_not_target : failed_file <> img_name.
Hypothesis ledgers_differ : log_file <> failed_file.

Local Abbreviation summary :=
  (resolved_summary E actual_img_url download_dir log_file failed_file
     min_img_size max_retries).

Lemma download_resolved_summary (w : world) :
  summary w
    (fst (download_resolved E actual_img_url download_dir log_file
            failed_file min_img_size max_retries w))
    (snd (download_resolved E actual_img_url download_dir log_file
            failed_file min_img_size max_retries w)).
Proof.
  unfold resolved_summary. cbv zeta. fold img_name.
  destruct (present_and_valid E (fs w) img_name min_img_size) eqn:Hpv.
  { (* already present *)
    rewrite (download_resolved_present w Hpv). cbn [fst snd].
    exists [EvLog INFO (Msg_already_exists img_name)].
    cbn [fs requests trace]. rewrite ?Hpv.
    repeat split; ev_side; try congruence.
    ev_forall. }
  unfold download_resolved, bind, path_exists. fold img_name.
  destruct (existing_file_check w) as (ves & Heq & _ & Hwarn).
  rewrite Heq, Hpv. clear Heq.
  set (w1 := World (fs w) (requests w) (trace w ++ ves)).
  pose proof (retry_loop_summary E actual_img_url img_name log_file
                min_img_size max_retries (range max_retries) w1) as Hloop.
  rewrite length_range in Hloop.
  destruct (retry_loop E actual_img_url img_name log_file min_img_size
              max_retries (range max_retries) w1) as [r w2].
  cbn [fst snd] in Hloop.
  destruct Hloop as (es & Ht & Hn & Hle & Heq & Hget & Hframe & Hnone & Hsome & Hfail).
  subst w1. cbn [fs requests trace] in *.
  pose proof (count_warnings is_image_get ves (fun _ => eq_refl) Hwarn) as Hc1.
  assert (Hc2 : forall p, count_events (is_append_to p) ves = 0%nat)
    by (intros p; apply count_warnings; [reflexivity|exact Hwarn]).
  destruct r as [b|].
  - (* the loop returned: success *)
    destruct (Hsome b eq_refl) as (-> & Happ & Hok).
    destruct (Hok log_not_target) as [Hval Hled].
    unfold ret. cbn [fst snd].
    exists (ves ++ es). rewrite ?Hpv, !count_events_app, Hc1, !Hc2, !Happ.
    split; [rewrite Ht, app_assoc; reflexivity|].
    split; [lia|]. split; [lia|].
    split; [apply Forall_app; split;
            [apply warnings_no_get, Hwarn|exact Hget]|].
    split; [intros p H1 H2 _; apply Hframe; assumption|].
    split; [discriminate|].
    split.
    { intros _. split; [exact Hval|].
      split; [apply Hframe; congruence|].
      split; [destruct (decide (failed_file = log_file));
              [congruence|reflexivity]|].
      intros _. split; [exact Hled|].
      destruct (decide (log_file = log_file)); [reflexivity|congruence]. }
    split; [discriminate|].
    intros Hall _. specialize (Hfail Hall). discriminate.
  - (* the loop ran out of attempts: failure *)
    destruct (Hnone eq_refl) as [Hlog Happ]. specialize (Heq eq_refl).
    unfold log, append_file, set_file, emit, bind, ret.
    destruct w2 as [files2 n2 tr2]. cbn [fst snd fs requests trace] in *.
    exists (ves ++ es ++ [EvLog WARNING (Msg_failed_after max_retries actual_img_url);
                          EvOpen failed_file "a"]).
    cbn [fs requests trace].
    rewrite ?Hpv, !count_events_app, Hc1, !Hc2, !Happ.
    split; [rewrite Ht, <- !app_assoc; reflexivity|].
    split; [rewrite Hn; ev_count|].
    split; [rewrite Heq; ev_count|].
    split; [apply Forall_app; split; [apply warnings_no_get, Hwarn|];
            apply Forall_app; split; [exact Hget|ev_forall]|].
    split; [intros p H1 H2 H3; rewrite lookup_insert_ne by congruence;
            apply Hframe; assumption|].
    split.
    { intros _. split; [reflexivity|].
      split; [rewrite Heq; ev_count|].
      split; [rewrite lookup_insert_eq; unfold ledger; cbn [fs];
              rewrite Hframe by congruence; reflexivity|].
      split; [rewrite lookup_insert_ne by congruence;
              apply Hlog, log_not_target|].
      change [EvLog WARNING (Msg_failed_after max_retries actual_img_url);
              EvOpen failed_file "a"]
        with ([EvLog WARNING (Msg_failed_after max_retries actual_img_url)]
                ++ [EvOpen failed_file "a"]).
      rewrite !count_events_app, !count_append_open.
      split.
      - destruct (decide (failed_file = failed_file)); [reflexivity|congruence].
      - destruct (decide (log_file = failed_file)); [congruence|reflexivity]. }
    split; [discriminate|].
    split; [discriminate|].
    reflexivity.
Qed.

End Resolved.

(* ===================================================================== *)
(** * DownloadWorker: rejected attempts *)
(* ===================================================================== *)

(** C5, as the code has it.  An attempt whose response has an error
    status (400 to 599) logs the error, waits a longer random time
    ([random_wait(3, 7)], after the [random_wait(1, 3)] before the fetch)
    and goes on to the next attempt.  An attempt whose response has no
    error status but a Content-Type that does not start with [image/]
    logs a warning and goes on to the next attempt at once, without that
    longer wait.  Neither writes or removes any file. *)
Theorem attempt_once_rejected (E : environment)
    (actual_img_url img_name log_file : string)
    (min_img_size max_retries attempt : Z) (w : world) (resp : response) :
  net E (requests w) actual_img_url = Returns resp ->
  is_Some (raise_for_status resp)
  \/ PyStr.startswith "image/" (default "" (content_type resp)) = false ->
  attempt_once E actual_img_url img_name log_file min_img_size max_retries
    attempt w
  = (None,
     World (fs w) (S (requests w))
       (trace w ++ [EvSleep 1 3; EvGet actual_img_url true 20]
          ++ match raise_for_status resp with
             | Some _ =>
                 [EvLog ERROR (Msg_download_error (attempt + 1) max_retries
                                 actual_img_url);
                  EvSleep 3 7]
             | None =>
                 [EvLog WARNING (Msg_not_image_content actual_img_url
                                   (default "" (content_type resp)))]
             end)).
Proof.
  intros Hnet Hrej.
  unfold attempt_once, requests_get, on_exception, random_wait, log, emit,
    bind, ret.
  destruct w as [files n tr]. cbn [fs requests trace] in *.
  rewrite Hnet.
  assert (Hb : (match body_error resp with
                | Some _ => Returns resp
                | None => Returns resp
                end) = Returns resp) by (destruct (body_error resp); reflexivity).
  rewrite Hb. clear Hb. cbn [fs requests trace].
  unfold raise_for_status in *.
  destruct ((400 <=? status_code resp) && (status_code resp <? 600)).
  - cbn [fs requests trace]. rewrite <- !app_assoc. reflexivity.
  - destruct Hrej as [[? ?]|Hct]; [discriminate|].
    rewrite Hct. cbn [negb fs requests trace]. rewrite <- !app_assoc.
    reflexivity.
Qed.

Lemma attempt_once_rejected_witness :
  attempt_once Fixtures.env_html Fixtures.image_a
    (Fixtures.target Fixtures.image_a) Fixtures.log_path 100 2 0
    Fixtures.empty_world
  = (None,
     World ∅ 1
       [EvSleep 1 3; EvGet Fixtures.image_a true 20;
        EvLog WARNING (Msg_not_image_content Fixtures.image_a "text/html")]).
Proof.
  apply (attempt_once_rejected Fixtures.env_html Fixtures.image_a
           (Fixtures.target Fixtures.image_a) Fixtures.log_path 100 2 0
           Fixtures.empty_world
           (Response 200 (Some "text/html") [] None []));
    [reflexivity | right; reflexivity].
Defined.

(** C5, as the claim words it, fails: when every response is an HTML
    page, the attempts follow each other with only the wait of one to
    three seconds before each fetch; no wait of three to seven seconds
    happens in the whole call. *)
Lemma content_type_rejection_without_backoff :
  trace (snd (download_image Fixtures.env_html Fixtures.image_a
                Fixtures.data_dir Fixtures.log_path Fixtures.failed_path
                100 2 Fixtures.empty_world))
  = [ EvSleep 1 3; EvGet Fixtures.image_a true 20;
      EvLog WARNING (Msg_not_image_content Fixtures.image_a "text/html");
      EvSleep 1 3; EvGet Fixtures.image_a true 20;
      EvLog WARNING (Msg_not_image_content Fixtures.image_a "text/html");
      EvLog WARNING (Msg_failed_after 2 Fixtures.image_a);
      EvOpen Fixtures.failed_path "a" ]
  /\ ~ In (EvSleep 3 7)
         (trace (snd (download_image Fixtures.env_html Fixtures.image_a
                        Fixtures.data_dir Fixtures.log_path
                        Fixtures.failed_path 100 2 Fixtures.empty_world))).
Proof.
  assert (H : trace (snd (download_image Fixtures.env_html Fixtures.image_a
                Fixtures.data_dir Fixtures.log_path Fixtures.failed_path
                100 2 Fixtures.empty_world))
  = [ EvSleep 1 3; EvGet Fixtures.image_a true 20;
      EvLog WARNING (Msg_not_image_content Fixtures.image_a "text/html");
      EvSleep 1 3; EvGet Fixtures.image_a true 20;
      EvLog WARNING (Msg_not_image_content Fixtures.image_a "text/html");
      EvLog WARNING (Msg_failed_after 2 Fixtures.image_a);
      EvOpen Fixtures.failed_path "a" ]) by (vm_compute; reflexivity).
  split; [exact H|]. rewrite H. simpl.
  intros Hin. repeat (destruct Hin as [Hin|Hin]; [discriminate|]). exact Hin.
Qed.

(* ===================================================================== *)
(** * DownloadWorker: [download_image] *)
(* ===================================================================== *)

Lemma truthy_nonempty (s : string) : PyStr.truthy s = true <-> s <> "".
Proof. destruct s; simpl; split; congruence. Qed.

Lemma found_Some (a : option string) (u : string) :
  found a = Some u -> a = Some u /\ falsy a = false.
Proof.
  unfold found. destruct (falsy a) eqn:Hf; [discriminate|]. auto.
Qed.

Lemma found_None (a : option string) : found a = None -> falsy a = true.
Proof.
  unfold found. destruct (falsy a) eqn:Hf; [reflexivity|].
  destruct a; [discriminate|]. simpl in Hf. discriminate.
Qed.

Section Download.

Variable E : environment.
Variables download_dir log_file failed_file : string.
Variables min_img_size max_retries : Z.

Let run (img_url : string) : M bool :=
  download_image E img_url download_dir log_file failed_file
    min_img_size max_retries.

(** A missing URL: a warning, and [False]. *)
Lemma download_image_missing (w : world) :
  run "" w
  = (false, World (fs w) (requests w)
              (trace w ++ [EvLog WARNING Msg_missing_url])).
Proof. reflexivity. Qed.

(** A candidate that passes the extension test is downloaded as it is. *)
Lemma download_image_direct (img_url : string) (w : world) :
  img_url <> "" -> is_direct_image_url img_url = true ->
  run img_url w
  = download_resolved E img_url download_dir log_file failed_file
      min_img_size max_retries w.
Proof.
  intros Hne Hd. apply truthy_nonempty in Hne.
  unfold run, download_image. unfold is_direct_image_url in Hd.
  rewrite Hne, Hd. reflexivity.
Qed.

(** A page whose resolution finds nothing: the candidate goes to the
    failure ledger. *)
Lemma download_image_unresolved (img_url : string) (w : world) :
  img_url <> "" -> is_direct_image_url img_url = false ->
  found (fst (extract_image_url E img_url w)) = None ->
  exists errs,
    run img_url w
    = (false,
       World (<[failed_file := ledger w failed_file +:+ img_url +:+ NL]> (fs w))
         (S (requests w))
         (trace w ++ EvGet img_url false 15
            :: errs ++ [EvLog WARNING (Msg_could_not_extract img_url);
                        EvOpen failed_file "a"]))
    /\ Forall (fun e => exists m, e = EvLog ERROR m) errs.
Proof.
  intros Hne Hd Hf. apply truthy_nonempty in Hne. apply found_None in Hf.
  unfold run, download_image, bind. unfold is_direct_image_url in Hd.
  rewrite Hne, Hd. cbn [negb].
  destruct (extract_image_url_run E img_url w) as (errs & Hw & Herrs & _).
  destruct (extract_image_url E img_url w) as [a w1]. cbn [fst snd] in *.
  subst w1. rewrite Hf. exists errs. split; [|exact Herrs].
  unfold log, append_file, set_file, emit, bind, ret, ledger.
  cbn [fs requests trace]. rewrite <- !app_assoc. reflexivity.
Qed.

(** A page that resolves: the URL found is downloaded, after the one
    request of the resolution. *)
Lemma download_image_resolved (img_url u : string) (w : world) :
  img_url <> "" -> is_direct_image_url img_url = false ->
  found (fst (extract_image_url E img_url w)) = Some u ->
  run img_url w
  = download_resolved E u download_dir log_file failed_file
      min_img_size max_retries
      (World (fs w) (S (requests w)) (trace w ++ [EvGet img_url false 15])).
Proof.
  intros Hne Hd Hf. apply truthy_nonempty in Hne.
  apply found_Some in Hf as [Ha Hf].
  unfold run, download_image, bind. unfold is_direct_image_url in Hd.
  rewrite Hne, Hd. cbn [negb].
  assert (Hw : snd (extract_image_url E img_url w)
               = World (fs w) (S (requests w)) (trace w ++ [EvGet img_url false 15])).
  { destruct (extract_image_url_run E img_url w) as (errs & Hw & _ & Hnil).
    rewrite Hw, Hnil; [reflexivity|].
    unfold found. rewrite Hf, Ha. discriminate. }
  destruct (extract_image_url E img_url w) as [a w1]. cbn [fst snd] in *.
  subst a w1. rewrite Hf. reflexivity.
Qed.

End Download.

(* ===================================================================== *)
(** * The worker as the orchestrator and the resume controller call it *)
(* ===================================================================== *)

Lemma no_resolution_get (u : string) (es : list event) :
  Forall (fun e => is_get e = true -> e = EvGet u true 20) es ->
  count_events is_resolution_get es = 0%nat.
Proof.
  intros H. unfold count_events. induction H as [|e l He _ IH]; [reflexivity|].
  simpl. destruct e as [| url [] t | | |]; simpl; try exact IH.
  specialize (He eq_refl). discriminate.
Qed.

Lemma count_gets (es : list event) :
  count_events is_get es
  = (count_events is_resolution_get es + count_events is_image_get es)%nat.
Proof.
  unfold count_events. induction es as [|e l IH]; [reflexivity|].
  destruct e as [| url [] t | | |]; simpl; rewrite ?IH; lia.
Qed.

Lemma count_errors (P : event -> bool) (es : list event) :
  (forall m, P (EvLog ERROR m) = false) ->
  Forall (fun e => exists m, e = EvLog ERROR m) es ->
  count_events P es = 0%nat.
Proof.
  intros HP Hes. unfold count_events.
  induction Hes as [|e l [m ->] _ IH]; [reflexivity|].
  simpl. rewrite HP. exact IH.
Qed.

Section Configured.

Variable E : environment.
Variable download_dir : string.
Variables min_img_size max_retries : Z.

Let log_file : string := OsPath.join download_dir LOG_FILE.
Let failed_file : string := OsPath.join download_dir FAILED_DOWNLOADS_FILE.
Let target (u : string) : string :=
  OsPath.join download_dir (generate_unique_filename u).

Let run (img_url : string) : M bool :=
  download_image E img_url download_dir log_file failed_file
    min_img_size max_retries.

Let resolved (u : string) : M bool :=
  download_resolved E u download_dir log_file failed_file
    min_img_size max_retries.

Lemma configured_summary (u : string) (w : world) :
  resolved_summary E u download_dir log_file failed_file
    min_img_size max_retries w (fst (resolved u w)) (snd (resolved u w)).
Proof.
  destruct (target_not_ledger download_dir u) as (H1 & H2 & H3).
  apply download_resolved_summary; assumption.
Qed.

(** C4, as the code has it.  For a candidate that is not empty: when
    its lower-cased text contains an image extension, it is downloaded
    as it is, and every request of the call is the streamed fetch of the
    candidate itself; when it does not, the first thing the call does
    is to fetch the candidate as a page, once, and every later request
    is the streamed fetch of the URL the resolver found there (and there
    is none, and the call fails, when the resolver found nothing).  A
    candidate whose path has an image extension contains one, and so is
    downloaded as it is. *)
Theorem download_image_resolution (img_url : string) (w : world) :
  img_url <> "" ->
  let r := run img_url w in
  let es := new_events w (snd r) in
  (has_image_extension img_url = true -> is_direct_image_url img_url = true)
  /\ if is_direct_image_url img_url
     then r = resolved img_url w
          /\ count_events is_resolution_get es = 0%nat
          /\ Forall (fun e => is_get e = true -> e = EvGet img_url true 20) es
     else exists es',
          es = EvGet img_url false 15 :: es'
          /\ count_events is_resolution_get es' = 0%nat
          /\ match found (fst (extract_image_url E img_url w)) with
             | Some u =>
                 Forall (fun e => is_get e = true -> e = EvGet u true 20) es'
                 /\ r = resolved u
                          (World (fs w) (S (requests w))
                             (trace w ++ [EvGet img_url false 15]))
             | None => fst r = false /\ count_events is_get es' = 0%nat
             end.
Proof.
  intros Hne r es. split; [apply has_image_extension_direct|].
  destruct (is_direct_image_url img_url) eqn:Hd.
  - assert (Hr : r = resolved img_url w)
      by exact (download_image_direct E download_dir log_file failed_file
                  min_img_size max_retries img_url w Hne Hd).
    split; [exact Hr|].
    destruct (configured_summary img_url w) as (es0 & Ht & _ & _ & Hget & _).
    fold (resolved img_url w) in Ht. rewrite <- Hr in Ht.
    assert (es = es0) as -> by (apply new_events_app, Ht).
    split; [eapply no_resolution_get, Hget|exact Hget].
  - destruct (found (fst (extract_image_url E img_url w))) as [u|] eqn:Hf.
    + assert (Hr : r = resolved u (World (fs w) (S (requests w))
                                    (trace w ++ [EvGet img_url false 15])))
        by exact (download_image_resolved E download_dir log_file failed_file
                    min_img_size max_retries img_url u w Hne Hd Hf).
      destruct (configured_summary u (World (fs w) (S (requests w))
                                        (trace w ++ [EvGet img_url false 15])))
        as (es0 & Ht & _ & _ & Hget & _).
      rewrite <- Hr in Ht. cbn [trace] in Ht. rewrite <- app_assoc in Ht.
      exists es0. split; [apply new_events_app, Ht|].
      split; [eapply no_resolution_get, Hget|]. split; [exact Hget|exact Hr].
    + destruct (download_image_unresolved E download_dir log_file failed_file
                  min_img_size max_retries img_url w Hne Hd Hf)
        as (errs & Hr & Herrs).
      fold (run img_url w) in Hr. fold r in Hr.
      exists (errs ++ [EvLog WARNING (Msg_could_not_extract img_url);
                       EvOpen failed_file "a"]).
      split; [unfold es; rewrite Hr; apply new_events_world|].
      rewrite Hr. cbn [fst].
      rewrite count_gets, !count_events_app.
      rewrite !(count_errors _ errs) by (try reflexivity; exact Herrs).
      repeat split.
  Qed.

Lemma extract_image_url_result (image_page_url : string) (w : world) :
  fst (extract_image_url E image_page_url w)
  = extract_result E image_page_url (net E (requests w) image_page_url).
Proof.
  unfold extract_image_url, extract_result, requests_get, bind, emit, log, ret.
  destruct w as [files n tr]. cbn [fs requests trace].
  destruct (net E n image_page_url) as [[]|resp]; cbn [fst snd]; try reflexivity.
  destruct (body_error resp) as [[]|]; cbn [fst snd]; try reflexivity.
  destruct (raise_for_status resp); [reflexivity|].
  destruct (search_soup E image_page_url (document resp)) as [a|[]];
    reflexivity.
Qed.

(** The worker on a candidate whose target is present and valid. *)
Lemma run_present (img_url u : string) (w : world) :
  resolved_url E img_url w = Some u ->
  present_and_valid E (fs w) (target u) min_img_size = true ->
  run img_url w
  = (true,
     World (fs w)
       (if is_direct_image_url img_url then requests w else S (requests w))
       (trace w
          ++ (if is_direct_image_url img_url then []
              else [EvGet img_url false 15])
          ++ [EvLog INFO (Msg_already_exists (target u))])).
Proof.
  unfold resolved_url. fold (is_direct_image_url img_url).
  destruct (PyStr.truthy img_url) eqn:Hne; [|discriminate].
  apply truthy_nonempty in Hne. cbn [negb].
  destruct (is_direct_image_url img_url) eqn:Hd; cbn [negb]; intros Hu Hpv.
  - injection Hu as <-.
    unfold run. rewrite download_image_direct by assumption.
    apply download_resolved_present, Hpv.
  - unfold run. rewrite (download_image_resolved _ _ _ _ _ _ _ u) by assumption.
    rewrite download_resolved_present by exact Hpv.
    cbn [fs requests trace]. rewrite <- app_assoc. reflexivity.
Qed.

(** A call that returns [True] leaves the target present and valid. *)
Lemma run_true_present (img_url : string) (w : world) :
  fst (run img_url w) = true ->
  exists u,
    resolved_url E img_url w = Some u
    /\ present_and_valid E (fs (snd (run img_url w))) (target u) min_img_size
       = true.
Proof.
  unfold resolved_url. fold (is_direct_image_url img_url).
  destruct (PyStr.truthy img_url) eqn:Hne.
  2: { destruct img_url; [|discriminate]. unfold run.
       rewrite download_image_missing. discriminate. }
  apply truthy_nonempty in Hne. cbn [negb].
  destruct (is_direct_image_url img_url) eqn:Hd; cbn [negb].
  - unfold run. rewrite download_image_direct by assumption.
    intros Hb. exists img_url. split; [reflexivity|].
    destruct (configured_summary img_url w)
      as (es & _ & _ & _ & _ & _ & _ & Htrue & _).
    apply Htrue, Hb.
  - destruct (found (fst (extract_image_url E img_url w))) as [u|] eqn:Hf.
    + unfold run. rewrite (download_image_resolved _ _ _ _ _ _ _ u) by assumption.
      intros Hb. exists u. split; [reflexivity|].
      destruct (configured_summary u
                  (World (fs w) (S (requests w))
                     (trace w ++ [EvGet img_url false 15])))
        as (es & _ & _ & _ & _ & _ & _ & Htrue & _).
      apply Htrue, Hb.
    + destruct (download_image_unresolved E download_dir log_file failed_file
                  min_img_size max_retries img_url w Hne Hd Hf)
        as (errs & Hr & _).
      fold (run img_url w) in Hr. rewrite Hr. discriminate.
Qed.

(** C3, as the code has it.  A candidate whose target file is present
    and valid is answered with [True] and the "Already exists" record:
    no streamed fetch, no file opened for writing or removed, no ledger
    touched.  A candidate that passes the extension test makes no
    request at all; a page makes its one resolution request first, which
    is how its target is known.  So, when the network answers the same
    to the same request, a second call for a candidate whose first call
    returned [True] writes nothing: the files, the ledgers among them,
    stay as the first call left them. *)
Theorem download_image_already_present (img_url : string) (w : world) :
  (forall u,
     resolved_url E img_url w = Some u ->
     present_and_valid E (fs w) (target u) min_img_size = true ->
     let r := run img_url w in
     let es := new_events w (snd r) in
     fst r = true
     /\ fs (snd r) = fs w
     /\ es = (if is_direct_image_url img_url then []
              else [EvGet img_url false 15])
             ++ [EvLog INFO (Msg_already_exists (target u))]
     /\ count_events is_image_get es = 0%nat
     /\ count_events is_file_write es = 0%nat)
  /\ ((forall n m x, net E n x = net E m x) ->
      fst (run img_url w) = true ->
      let w1 := snd (run img_url w) in
      let r := run img_url w1 in
      let es := new_events w1 (snd r) in
      fst r = true
      /\ fs (snd r) = fs w1
      /\ count_events is_image_get es = 0%nat
      /\ count_events is_file_write es = 0%nat).
Proof.
  assert (Hpresent : forall w u,
            resolved_url E img_url w = Some u ->
            present_and_valid E (fs w) (target u) min_img_size = true ->
            let r := run img_url w in
            let es := new_events w (snd r) in
            fst r = true
            /\ fs (snd r) = fs w
            /\ es = (if is_direct_image_url img_url then []
                     else [EvGet img_url false 15])
                    ++ [EvLog INFO (Msg_already_exists (target u))]
            /\ count_events is_image_get es = 0%nat
            /\ count_events is_file_write es = 0%nat).
  { clear w. intros w u Hu Hpv r es. subst es r.
    rewrite (run_present img_url u w Hu Hpv). cbn [fst snd fs trace].
    rewrite new_events_world.
    repeat split; destruct (is_direct_image_url img_url); reflexivity. }
  split; [apply Hpresent|].
  intros Hnet Hb w1 r es.
  destruct (run_true_present img_url w Hb) as (u & Hu & Hpv).
  assert (Hu1 : resolved_url E img_url w1 = Some u).
  { revert Hu. unfold resolved_url.
    rewrite !extract_image_url_result, (Hnet (requests w1) (requests w)).
    auto. }
  destruct (Hpresent w1 u Hu1 Hpv) as (H1 & H2 & _ & H4 & H5).
  repeat split; assumption.
Qed.

(** C8, as the code has it.  Every call makes at most [max_retries]
    streamed fetches and at most one resolution request, and ends.  When
    every attempt for the URL the call goes on with fails - its fetch
    fails ([requests.get] raises, the status is an error, the
    Content-Type is no image, or the body breaks while it is streamed),
    or the target cannot be created, or the validator rejects what was
    stored - the outcome is: for a missing URL or a resolution that finds
    nothing, [False] with no streamed fetch at all; for a target that is
    already present and valid, [True] with no streamed fetch; and
    otherwise [False] after exactly one streamed fetch per element of
    [range(max_retries)]. *)
Theorem download_image_retry_bound (img_url : string) (w : world) :
  let r := run img_url w in
  let es := new_events w (snd r) in
  (count_events is_image_get es <= Z.to_nat max_retries)%nat
  /\ (count_events is_resolution_get es <= 1)%nat
  /\ ((forall u n,
         resolved_url E img_url w = Some u ->
         attempt_fails E (target u) min_img_size (net E n u) = true) ->
      match resolved_url E img_url w with
      | None =>
          fst r = false
          /\ count_events is_image_get es = 0%nat
          /\ count_events is_resolution_get es
             = (if decide (img_url = "") then 0%nat else 1%nat)
      | Some u =>
          if present_and_valid E (fs w) (target u) min_img_size
          then fst r = true /\ count_events is_image_get es = 0%nat
          else fst r = false
               /\ count_events is_image_get es = Z.to_nat max_retries
      end).
Proof.
  intros r es. subst r es.
  unfold resolved_url. fold (is_direct_image_url img_url).
  destruct (PyStr.truthy img_url) eqn:Hne.
  2: { destruct img_url; [|discriminate]. unfold run.
       rewrite download_image_missing. cbn [fst snd negb]. rewrite new_events_world.
       repeat split; try ev_count. }
  apply truthy_nonempty in Hne. cbn [negb].
  assert (Hres : forall u w0 pre,
            trace w0 = trace w ++ pre -> fs w0 = fs w ->
            count_events is_image_get pre = 0%nat ->
            (count_events is_resolution_get pre <= 1)%nat ->
            let r := resolved u w0 in
            let es := new_events w (snd r) in
            (count_events is_image_get es <= Z.to_nat max_retries)%nat
            /\ (count_events is_resolution_get es <= 1)%nat
            /\ ((forall n,
                   attempt_fails E (target u) min_img_size (net E n u) = true) ->
                if present_and_valid E (fs w) (target u) min_img_size
                then fst r = true /\ count_events is_image_get es = 0%nat
                else fst r = false
                     /\ count_events is_image_get es = Z.to_nat max_retries)).
  { intros u w0 pre Htr Hfs Hpre1 Hpre2 r es. subst r es.
    destruct (configured_summary u w0)
      as (es & Ht & _ & Hle & Hget & _ & Hfalse & _ & Hpres & Hfail).
    rewrite Htr, <- app_assoc in Ht.
    rewrite (new_events_app w _ _ Ht), !count_events_app.
    rewrite (no_resolution_get u es Hget), Hpre1. rewrite Hfs in *.
    split; [lia|]. split; [lia|]. intros Hall.
    fold (target u) in Hpres, Hfail, Hfalse.
    destruct (present_and_valid E (fs w) (target u) min_img_size).
    - destruct (Hpres eq_refl) as (Hb & _ & ->). split; [exact Hb|]. ev_count.
    - specialize (Hfail (fun i _ => Hall _) eq_refl). split; [exact Hfail|].
      destruct (Hfalse Hfail) as (_ & Hc & _). exact Hc. }
  destruct (is_direct_image_url img_url) eqn:Hd; cbn [negb].
  - unfold run. rewrite download_image_direct by assumption.
    destruct (Hres img_url w []) as (H1 & H2 & H3);
      try reflexivity; try ev_count.
    { rewrite app_nil_r. reflexivity. }
    split; [exact H1|]. split; [exact H2|].
    intros Hall. apply H3. intros n. apply Hall. reflexivity.
  - destruct (found (fst (extract_image_url E img_url w))) as [u|] eqn:Hf.
    + unfold run. rewrite (download_image_resolved _ _ _ _ _ _ _ u) by assumption.
      destruct (Hres u (World (fs w) (S (requests w))
                          (trace w ++ [EvGet img_url false 15]))
                  [EvGet img_url false 15]) as (H1 & H2 & H3);
        try reflexivity; try ev_count.
      split; [exact H1|]. split; [exact H2|].
      intros Hall. apply H3. intros n. apply Hall. reflexivity.
    + destruct (download_image_unresolved E download_dir log_file failed_file
                  min_img_size max_retries img_url w Hne Hd Hf)
        as (errs & Hr & Herrs).
      fold (run img_url w) in Hr. rewrite Hr. cbn [fst snd].
      rewrite new_events_world.
      change (EvGet img_url false 15 :: ?l) with ([EvGet img_url false 15] ++ l).
      rewrite !count_events_app.
      rewrite !(count_errors _ errs) by (try reflexivity; exact Herrs).
      destruct (decide (img_url = "")); [contradiction|].
      repeat split; ev_count.
Qed.

(** What the ledgers hold after a call for a candidate that is not
    empty: a call that returns [False] added one line to the failure
    ledger, the candidate when its resolution found nothing and the
    resolved URL otherwise, and left the success ledger alone; a call
    that returns [True] after a download added the resolved URL to the
    success ledger and left the failure ledger alone. *)
Lemma run_ledgers (img_url : string) (w : world) :
  img_url <> "" ->
  let r := run img_url w in
  let es := new_events w (snd r) in
  let u := default img_url (resolved_url E img_url w) in
  (fst r = false ->
   fs (snd r) !! failed_file = Some (ledger w failed_file +:+ u +:+ NL)
   /\ count_events (is_append_to failed_file) es = 1%nat
   /\ fs (snd r) !! log_file = fs w !! log_file)
  /\ (fst r = true ->
      fs (snd r) !! failed_file = fs w !! failed_file
      /\ count_events (is_append_to failed_file) es = 0%nat
      /\ (present_and_valid E (fs w) (target u) min_img_size = false ->
          fs (snd r) !! log_file = Some (ledger w log_file +:+ u +:+ NL))).
Proof.
  intros Hne r es u. subst r es u.
  assert (Hres : forall u w0 pre,
            trace w0 = trace w ++ pre -> fs w0 = fs w ->
            count_events (is_append_to failed_file) pre = 0%nat ->
            let r := resolved u w0 in
            let es := new_events w (snd r) in
            (fst r = false ->
             fs (snd r) !! failed_file = Some (ledger w failed_file +:+ u +:+ NL)
             /\ count_events (is_append_to failed_file) es = 1%nat
             /\ fs (snd r) !! log_file = fs w !! log_file)
            /\ (fst r = true ->
                fs (snd r) !! failed_file = fs w !! failed_file
                /\ count_events (is_append_to failed_file) es = 0%nat
                /\ (present_and_valid E (fs w) (target u) min_img_size = false ->
                    fs (snd r) !! log_file
                    = Some (ledger w log_file +:+ u +:+ NL)))).
  { intros u w0 pre Htr Hfs Hpre r es. subst r es.
    destruct (configured_summary u w0)
      as (es & Ht & _ & _ & _ & _ & Hfalse & Htrue & _).
    rewrite Htr, <- app_assoc in Ht.
    rewrite (new_events_app w _ _ Ht), !count_events_app, Hpre.
    fold (target u) in Hfalse, Htrue. unfold ledger in *. rewrite Hfs in *.
    split.
    - intros Hb. destruct (Hfalse Hb) as (_ & _ & H1 & H2 & H3 & _).
      rewrite H3. auto.
    - intros Hb. destruct (Htrue Hb) as (_ & H1 & H2 & H3).
      rewrite H2. split; [exact H1|]. split; [reflexivity|].
      intros Hpv. apply H3, Hpv. }
  unfold resolved_url. fold (is_direct_image_url img_url).
  rewrite (proj2 (truthy_nonempty img_url) Hne). cbn [negb].
  destruct (is_direct_image_url img_url) eqn:Hd; cbn [negb default].
  - unfold run. rewrite download_image_direct by assumption.
    apply (Hres img_url w []); try reflexivity.
    rewrite app_nil_r. reflexivity.
  - destruct (found (fst (extract_image_url E img_url w))) as [u|] eqn:Hf;
      cbn [default].
    + unfold run. rewrite (download_image_resolved _ _ _ _ _ _ _ u) by assumption.
      apply (Hres u _ [EvGet img_url false 15]); reflexivity.
    + destruct (download_image_unresolved E download_dir log_file failed_file
                  min_img_size max_retries img_url w Hne Hd Hf)
        as (errs & Hr & Herrs).
      fold (run img_url w) in Hr. rewrite Hr. cbn [fst snd fs].
      rewrite new_events_world.
      split; [|discriminate]. intros _.
      split; [apply lookup_insert_eq|].
      split.
      * change (EvGet img_url false 15 :: errs ++ ?l)
          with ([EvGet img_url false 15] ++ errs ++ l).
        change [EvLog WARNING (Msg_could_not_extract img_url);
                EvOpen failed_file "a"]
          with ([EvLog WARNING (Msg_could_not_extract img_url)]
                  ++ [EvOpen failed_file "a"]).
        rewrite !count_events_app, count_append_open.
        rewrite (count_errors _ errs) by (try reflexivity; exact Herrs).
        destruct (decide (failed_file = failed_file)); [reflexivity|congruence].
      * apply lookup_insert_ne.
        destruct (target_not_ledger download_dir "") as (_ & _ & H3).
        intros Heq. apply H3. symmetry. exact Heq.
Qed.

(** C2, as the code has it.  A call for a candidate that is not empty
    and that returns [False] (its resolution found nothing, or its
    retries are exhausted) appends exactly one line to the failure
    ledger: the candidate in the first case, the resolved URL in the
    second.  A call for a missing URL returns [False] with a warning
    only: it opens no file and leaves the failure ledger as it is. *)
Theorem download_image_failure_recorded (img_url : string) (w : world) :
  (img_url <> "" ->
   let r := run img_url w in
   fst r = false ->
   fs (snd r) !! failed_file
   = Some (ledger w failed_file
           +:+ default img_url (resolved_url E img_url w) +:+ NL)
   /\ count_events (is_append_to failed_file) (new_events w (snd r)) = 1%nat)
  /\ run "" w
     = (false, World (fs w) (requests w)
                 (trace w ++ [EvLog WARNING Msg_missing_url])).
Proof.
  split; [|reflexivity].
  intros Hne r Hb. destruct (run_ledgers img_url w Hne) as [Hfalse _].
  destruct (Hfalse Hb) as (H1 & H2 & _). split; assumption.
Qed.

(** C10, for any environment.  For a page candidate (one that is not
    empty and does not pass the extension test): when the resolution
    finds nothing, the candidate itself is the line added to the
    failure ledger; when the resolution finds a URL and the call returns
    [False], that URL is the line added to the failure ledger; when it
    finds a URL and the call returns [True] after downloading, that URL
    is the line added to the success ledger. *)
Lemma page_ledger_lines (img_url : string) (w : world) :
  img_url <> "" -> is_direct_image_url img_url = false ->
  let r := run img_url w in
  match found (fst (extract_image_url E img_url w)) with
  | None =>
      fst r = false
      /\ fs (snd r) !! failed_file
         = Some (ledger w failed_file +:+ img_url +:+ NL)
      /\ fs (snd r) !! log_file = fs w !! log_file
  | Some u =>
      (fst r = false ->
       fs (snd r) !! failed_file = Some (ledger w failed_file +:+ u +:+ NL)
       /\ fs (snd r) !! log_file = fs w !! log_file)
      /\ (fst r = true ->
          present_and_valid E (fs w) (target u) min_img_size = false ->
          fs (snd r) !! log_file = Some (ledger w log_file +:+ u +:+ NL)
          /\ fs (snd r) !! failed_file = fs w !! failed_file)
  end.
Proof.
  intros Hne Hd r. destruct (run_ledgers img_url w Hne) as [Hfalse Htrue].
  fold r in Hfalse, Htrue. revert Hfalse Htrue.
  unfold resolved_url. fold (is_direct_image_url img_url).
  rewrite (proj2 (truthy_nonempty img_url) Hne), Hd. cbn [negb].
  destruct (found (fst (extract_image_url E img_url w))) as [u|] eqn:Hf;
    cbn [default]; intros Hfalse Htrue.
  - split.
    + intros Hb. destruct (Hfalse Hb) as (H1 & _ & H3). auto.
    + intros Hb Hpv. destruct (Htrue Hb) as (H1 & _ & H3). auto.
  - destruct (download_image_unresolved E download_dir log_file failed_file
                min_img_size max_retries img_url w Hne Hd Hf)
      as (errs & Hr & _).
    assert (Hb : fst r = false) by (unfold r, run; rewrite Hr; reflexivity).
    destruct (Hfalse Hb) as (H1 & _ & H3). auto.
Qed.

End Configured.

(* ===================================================================== *)
(** * ResumeController *)
(* ===================================================================== *)

(** The loop over the completed futures keeps, for every result that is
    [False], the URL at the position of that result in the order of
    completion. *)
Lemma collect_positions (urls : list string) (results : list bool) (i : nat)
    (new_success still_failed : Z) (temp_failed : list string) :
  collect urls i results (new_success, still_failed, temp_failed)
  = (new_success + Z.of_nat (length (List.filter id results)),
     still_failed + Z.of_nat (length (failed_positions i results)),
     temp_failed ++ map (fun k => nth k urls "") (failed_positions i results)).
Proof.
  revert i new_success still_failed temp_failed.
  induction results as [|[] results IH]; intros i s f t.
  - simpl. rewrite app_nil_r. f_equal. f_equal; lia.
  - cbn [collect List.filter id failed_positions length]. rewrite IH.
    f_equal. f_equal; lia.
  - cbn [collect List.filter id failed_positions length map]. rewrite IH.
    rewrite <- app_assoc. f_equal. f_equal; lia.
Qed.

(** The rewritten ledger has one entry per call that returned [False]. *)
Lemma collect_length (urls : list string) (results : list bool) :
  length (snd (collect urls 0 results (0, 0, [])))
  = (length results - length (List.filter id results))%nat.
Proof.
  rewrite collect_positions. cbn [snd app]. rewrite length_map.
  generalize 0%nat. induction results as [|[] results IH]; intros i; simpl.
  - reflexivity.
  - rewrite IH. pose proof (List.filter_length_le id results). lia.
  - rewrite IH. pose proof (List.filter_length_le id results). lia.
Qed.

(** When the futures complete in the order they were submitted, the URLs
    kept are the URLs whose own call returned [False]. *)
Lemma collect_in_order (urls : list string) (results : list bool) :
  length results = length urls ->
  snd (collect urls 0 results (0, 0, [])) = failed_urls urls results.
Proof.
  rewrite collect_positions. cbn [snd app].
  assert (H : forall pre, length results = length urls ->
            map (fun k => nth k (pre ++ urls) "")
              (failed_positions (length pre) results)
            = failed_urls urls results).
  { revert urls. induction results as [|r results IH]; intros urls pre Hlen.
    - destruct urls; reflexivity.
    - destruct urls as [|url urls]; [discriminate|].
      injection Hlen as Hlen.
      specialize (IH urls (pre ++ [url]) Hlen).
      rewrite <- app_assoc, length_app, Nat.add_1_r in IH. cbn [app] in IH.
      destruct r; cbn [failed_positions failed_urls map]; rewrite IH;
        [reflexivity|].
      f_equal. rewrite app_nth2, Nat.sub_diag by lia. reflexivity. }
  intros Hlen. apply (H [] Hlen).
Qed.

(** C1, at an input where the code goes wrong.  The failure ledger
    lists [image_a], then [page_b].  The call for [page_b] completes
    first and fails (its page cannot be fetched, which takes one request
    and no wait); the call for [image_a] completes second and succeeds.
    The ledger is rewritten with one entry, as it should, but the entry is
    [image_a], the URL that was downloaded, and [page_b], the URL that
    failed, is gone. *)
Theorem retry_failed_images_wrong_url :
  let w' := snd (retry_failed_images Fixtures.env_a_only Fixtures.resume_args
                   [1; 0]%nat Fixtures.world_ledger) in
  read_urls (ledger Fixtures.world_ledger Fixtures.failed_path)
  = [Fixtures.image_a; Fixtures.page_b]
  /\ fst (as_completed Fixtures.env_a_only Fixtures.resume_args
            [Fixtures.image_a; Fixtures.page_b] [1; 0]%nat
            Fixtures.world_ledger)
     = [false; true]
  /\ fs w' !! Fixtures.target Fixtures.image_a = Some Fixtures.big_image
  /\ read_urls (ledger w' Fixtures.log_path) = [Fixtures.image_a]
  /\ In (EvLog WARNING (Msg_could_not_extract Fixtures.page_b)) (trace w')
  /\ read_urls (ledger w' Fixtures.failed_path) = [Fixtures.image_a].
Proof.
  conjuncts; try (vm_compute; reflexivity).
  vm_compute. tauto.
Qed.

(** With the same ledger and network, and the futures completing in the
    order of submission, the rewritten ledger is the right one. *)
Example retry_failed_images_in_order :
  let w' := snd (retry_failed_images Fixtures.env_a_only Fixtures.resume_args
                   [0; 1]%nat Fixtures.world_ledger) in
  read_urls (ledger w' Fixtures.failed_path) = [Fixtures.page_b].
Proof. vm_compute. reflexivity. Qed.

(* ===================================================================== *)
(** * The properties at concrete inputs *)
(* ===================================================================== *)

(** C4, as the claim words it, fails for a reference with an image
    extension inside its name.  The path of
    [https://example.com/view.PNG.html?id=7] has the extension [.html],
    which is no image extension, and yet the reference is not resolved:
    it passes the extension test, because its lower-cased text contains
    [.png], and the only request of the call is the streamed fetch of the
    reference itself, the body of which is stored under a name that ends
    in [.jpg].  The claim fails at the missing URL too: it does not pass
    the extension test, and yet it is not resolved, as the call makes no
    request for it at all. *)
Lemma extension_inside_name_not_resolved :
  (path_extension Fixtures.viewer = ".html"
   /\ has_image_extension Fixtures.viewer = false
   /\ is_direct_image_url Fixtures.viewer = true
   /\ download_image Fixtures.env_page Fixtures.viewer Fixtures.data_dir
        Fixtures.log_path Fixtures.failed_path 100 2 Fixtures.empty_world
      = (true,
         World
           {[ Fixtures.log_path := Fixtures.viewer +:+ NL;
              OsPath.join Fixtures.data_dir "view.PNG_767aab65.jpg"
              := Fixtures.big_image ]}
           1
           [EvSleep 1 3; EvGet Fixtures.viewer true 20;
            EvOpen (OsPath.join Fixtures.data_dir "view.PNG_767aab65.jpg") "wb";
            EvLog INFO
              (Msg_downloaded
                 (OsPath.join Fixtures.data_dir "view.PNG_767aab65.jpg"));
            EvOpen Fixtures.log_path "a"]))
  /\ (is_direct_image_url "" = false
      /\ count_events is_resolution_get
           (new_events Fixtures.empty_world
              (snd (download_image Fixtures.env_page "" Fixtures.data_dir
                      Fixtures.log_path Fixtures.failed_path 100 2
                      Fixtures.empty_world)))
         = 0%nat
      /\ trace (snd (download_image Fixtures.env_page "" Fixtures.data_dir
                       Fixtures.log_path Fixtures.failed_path 100 2
                       Fixtures.empty_world))
         = [EvLog WARNING Msg_missing_url]).
Proof. conjuncts; vm_compute; reflexivity. Qed.

Lemma download_image_resolution_witness :
  Fixtures.page <> ""
  /\ (has_image_extension Fixtures.page = true ->
      is_direct_image_url Fixtures.page = true)
  /\ exists es',
       new_events Fixtures.empty_world
         (snd (download_image Fixtures.env_page Fixtures.page Fixtures.data_dir
                 Fixtures.log_path Fixtures.failed_path 100 2
                 Fixtures.empty_world))
       = EvGet Fixtures.page false 15 :: es'
       /\ count_events is_resolution_get es' = 0%nat.
Proof.
  assert (Hne : Fixtures.page <> "") by discriminate.
  split; [exact Hne|].
  pose proof (download_image_resolution Fixtures.env_page Fixtures.data_dir
                100 2 Fixtures.page Fixtures.empty_world Hne) as H.
  cbv zeta in H. destruct H as [H0 H]. split; [exact H0|].
  change (is_direct_image_url Fixtures.page) with false in H.
  destruct H as (es' & H1 & H2 & _).
  exists es'. split; [exact H1|exact H2].
Defined.

(** C3, as the claim words it, fails for a page candidate: its target
    is present and valid, and the call still makes a network request, the
    fetch of the page, before it answers "Already exists". *)
Lemma present_page_still_fetched :
  resolved_url Fixtures.env_page Fixtures.page Fixtures.world_with_o
  = Some Fixtures.image_o
  /\ present_and_valid Fixtures.env_page (fs Fixtures.world_with_o)
       (Fixtures.target Fixtures.image_o) 100 = true
  /\ new_events Fixtures.world_with_o
       (snd (download_image Fixtures.env_page Fixtures.page Fixtures.data_dir
               Fixtures.log_path Fixtures.failed_path 100 2
               Fixtures.world_with_o))
     = [EvGet Fixtures.page false 15;
        EvLog INFO (Msg_already_exists (Fixtures.target Fixtures.image_o))]
  /\ count_events is_get
       (new_events Fixtures.world_with_o
          (snd (download_image Fixtures.env_page Fixtures.page Fixtures.data_dir
                  Fixtures.log_path Fixtures.failed_path 100 2
                  Fixtures.world_with_o)))
     <> 0%nat.
Proof. conjuncts; vm_compute; try reflexivity. discriminate. Qed.

Lemma download_image_already_present_witness :
  (let r := download_image Fixtures.env_page Fixtures.image_a Fixtures.data_dir
              Fixtures.log_path Fixtures.failed_path 100 2
              Fixtures.world_with_a in
   fst r = true /\ fs (snd r) = fs Fixtures.world_with_a)
  /\ (let w1 := snd (download_image Fixtures.env_page Fixtures.page
                       Fixtures.data_dir Fixtures.log_path Fixtures.failed_path
                       100 2 Fixtures.empty_world) in
      let r := download_image Fixtures.env_page Fixtures.page Fixtures.data_dir
                 Fixtures.log_path Fixtures.failed_path 100 2 w1 in
      fst r = true /\ fs (snd r) = fs w1).
Proof.
  split.
  - destruct (download_image_already_present Fixtures.env_page
                Fixtures.data_dir 100 2 Fixtures.image_a Fixtures.world_with_a)
      as [Ha _].
    destruct (Ha Fixtures.image_a) as (H1 & H2 & _);
      [vm_compute; reflexivity | vm_compute; reflexivity |].
    split; [exact H1|exact H2].
  - destruct (download_image_already_present Fixtures.env_page
                Fixtures.data_dir 100 2 Fixtures.page Fixtures.empty_world)
      as [_ Hb].
    destruct Hb as (H1 & H2 & _);
      [intros n m x; reflexivity | vm_compute; reflexivity |].
    split; [exact H1|exact H2].
Defined.

(** C8, as the claim words it, fails when the target is already there:
    every fetch would fail, and the call returns [True]. *)
Lemma failing_fetch_returns_true :
  (forall n u, fetch_fails (net Fixtures.env_down n u) = true)
  /\ fst (download_image Fixtures.env_down Fixtures.image_a Fixtures.data_dir
            Fixtures.log_path Fixtures.failed_path 100 3
            Fixtures.world_with_a)
     = true.
Proof. split; [intros n u; reflexivity|vm_compute; reflexivity]. Qed.

Lemma download_image_retry_bound_witness :
  let r := download_image Fixtures.env_broken Fixtures.image_a
             Fixtures.data_dir Fixtures.log_path Fixtures.failed_path 100 3
             Fixtures.empty_world in
  let es := new_events Fixtures.empty_world (snd r) in
  (forall n, fetch_fails (net Fixtures.env_broken n Fixtures.image_a) = true)
  /\ fst r = false
  /\ count_events is_image_get es = 3%nat.
Proof.
  split; [intros n; reflexivity|].
  destruct (download_image_retry_bound Fixtures.env_broken Fixtures.data_dir
              100 3 Fixtures.image_a Fixtures.empty_world) as (_ & _ & H).
  assert (Hall : forall u n,
            resolved_url Fixtures.env_broken Fixtures.image_a
              Fixtures.empty_world = Some u ->
            attempt_fails Fixtures.env_broken
              (OsPath.join Fixtures.data_dir (generate_unique_filename u)) 100
              (net Fixtures.env_broken n u) = true)
    by (intros u n _; reflexivity).
  specialize (H Hall).
  change (resolved_url Fixtures.env_broken Fixtures.image_a
            Fixtures.empty_world) with (Some Fixtures.image_a) in H.
  change (present_and_valid Fixtures.env_broken (fs Fixtures.empty_world)
            (OsPath.join Fixtures.data_dir
               (generate_unique_filename Fixtures.image_a)) 100)
    with false in H.
  exact H.
Defined.

(** C2, as the claim words it, fails at the missing URL: the call
    returns [False] and nothing is added to the failure ledger, which is
    not even opened. *)
Lemma missing_url_not_recorded :
  let r := download_image Fixtures.env_down "" Fixtures.data_dir
             Fixtures.log_path Fixtures.failed_path 100 3
             Fixtures.world_ledger in
  fst r = false
  /\ fs (snd r) !! Fixtures.failed_path
     = fs Fixtures.world_ledger !! Fixtures.failed_path
  /\ count_events (is_append_to Fixtures.failed_path)
       (new_events Fixtures.world_ledger (snd r)) = 0%nat.
Proof. conjuncts; vm_compute; reflexivity. Qed.

Lemma download_image_failure_recorded_witness :
  let r := download_image Fixtures.env_down Fixtures.image_b Fixtures.data_dir
             Fixtures.log_path Fixtures.failed_path 100 3
             Fixtures.world_ledger in
  fs (snd r) !! Fixtures.failed_path
  = Some (ledger Fixtures.world_ledger Fixtures.failed_path
          +:+ Fixtures.image_b +:+ NL)
  /\ count_events (is_append_to Fixtures.failed_path)
       (new_events Fixtures.world_ledger (snd r)) = 1%nat.
Proof.
  destruct (download_image_failure_recorded Fixtures.env_down Fixtures.data_dir
              100 3 Fixtures.image_b Fixtures.world_ledger) as [H _].
  apply H; [discriminate | vm_compute; reflexivity].
Defined.

(** C10.  The URL a ledger records is not always the candidate.  For a
    page candidate (not empty, not passing the extension test): when its
    resolution finds nothing, the candidate itself is appended to the
    failure ledger; when its resolution finds a URL and the call returns
    [False], the resolved URL is appended to the failure ledger; when its
    resolution finds a URL and the call returns [True] after a download,
    the resolved URL is appended to the success ledger.  So a ledger can
    hold a URL that was never a candidate: for the one candidate
    [Fixtures.page], the success ledger ends up with the single line
    [Fixtures.image_o]. *)
Theorem ledger_url_not_always_candidate :
  (forall (E : environment) (download_dir : string)
          (min_img_size max_retries : Z) (img_url : string) (w : world),
     img_url <> "" -> is_direct_image_url img_url = false ->
     let log_file := OsPath.join download_dir LOG_FILE in
     let failed_file := OsPath.join download_dir FAILED_DOWNLOADS_FILE in
     let r := download_image E img_url download_dir log_file failed_file
                min_img_size max_retries w in
     match found (fst (extract_image_url E img_url w)) with
     | None =>
         fst r = false
         /\ fs (snd r) !! failed_file
            = Some (ledger w failed_file +:+ img_url +:+ NL)
         /\ fs (snd r) !! log_file = fs w !! log_file
     | Some u =>
         (fst r = false ->
          fs (snd r) !! failed_file = Some (ledger w failed_file +:+ u +:+ NL)
          /\ fs (snd r) !! log_file = fs w !! log_file)
         /\ (fst r = true ->
             present_and_valid E (fs w)
               (OsPath.join download_dir (generate_unique_filename u))
               min_img_size = false ->
             fs (snd r) !! log_file = Some (ledger w log_file +:+ u +:+ NL)
             /\ fs (snd r) !! failed_file = fs w !! failed_file)
     end)
  /\ (let r := download_image Fixtures.env_page Fixtures.page Fixtures.data_dir
                 Fixtures.log_path Fixtures.failed_path 100 2
                 Fixtures.empty_world in
      fst r = true
      /\ read_urls (ledger (snd r) Fixtures.log_path) = [Fixtures.image_o]
      /\ Fixtures.image_o <> Fixtures.page).
Proof.
  split.
  - intros E download_dir min_img_size max_retries img_url w Hne Hd.
    exact (page_ledger_lines E download_dir min_img_size max_retries
             img_url w Hne Hd).
  - conjuncts; try (vm_compute; reflexivity). discriminate.
Qed.

Lemma ledger_url_not_always_candidate_witness :
  let r := download_image Fixtures.env_down Fixtures.page Fixtures.data_dir
             Fixtures.log_path Fixtures.failed_path 100 2
             Fixtures.world_ledger in
  fst r = false
  /\ fs (snd r) !! Fixtures.failed_path
     = Some (ledger Fixtures.world_ledger Fixtures.failed_path
             +:+ Fixtures.page +:+ NL)
  /\ fs (snd r) !! Fixtures.log_path
     = fs Fixtures.world_ledger !! Fixtures.log_path.
Proof.
  destruct ledger_url_not_always_candidate as [H _].
  assert (Hne : Fixtures.page <> "") by discriminate.
  assert (Hd : is_direct_image_url Fixtures.page = false) by reflexivity.
  specialize (H Fixtures.env_down Fixtures.data_dir 100 2 Fixtures.page
                Fixtures.world_ledger Hne Hd).
  cbv zeta in H.
  change (found (fst (extract_image_url Fixtures.env_down Fixtures.page
                        Fixtures.world_ledger)))
    with (@None string) in H.
  exact H.
Defined.

(* ===================================================================== *)
(** * The text of a ledger *)
(* ===================================================================== *)

Lemma rev_app_rev_app (u a b : string) :
  String.rev_app (String.rev_app u a) b = String.rev_app a (u +:+ b).
Proof.
  revert a b. induction u as [|c u IH]; intros a b; [reflexivity|].
  simpl. rewrite IH. reflexivity.
Qed.

Lemma forallb_rev_app (P : ascii -> bool) (a b : string) :
  string_forallb P (String.rev_app a b)
  = string_forallb P a && string_forallb P b.
Proof.
  revert b. induction a as [|c a IH]; intros b; [reflexivity|].
  simpl. rewrite IH. simpl. destruct (P c), (string_forallb P a); reflexivity.
Qed.

Lemma lines_go_line (u cur rest : string) :
  string_forallb (fun c => negb (is_line_break c)) u = true ->
  PyStr.lines_go cur (u +:+ NL +:+ rest)
  = String.rev (String.rev_app u cur) :: PyStr.lines_go "" rest.
Proof.
  revert cur. induction u as [|c u IH]; intros cur Hu.
  - reflexivity.
  - simpl in Hu. apply andb_prop in Hu as [Hc Hu].
    rewrite app_cons. cbn [PyStr.lines_go String.rev_app].
    unfold is_line_break in Hc.
    destruct (decide (c = "010"%char)) as [->|_]; [discriminate|].
    destruct (decide (c = "013"%char)) as [->|_]; [discriminate|].
    apply IH, Hu.
Qed.

Lemma lines_write_urls (urls : list string) :
  Forall (fun u => string_forallb (fun c => negb (is_line_break c)) u = true)
    urls ->
  PyStr.lines (write_urls urls) = urls.
Proof.
  unfold PyStr.lines, write_urls.
  induction 1 as [|u urls Hu _ IH]; [reflexivity|].
  cbn [map PyStr.concat]. rewrite app_assoc_str, lines_go_line by exact Hu.
  rewrite IH. f_equal. unfold String.rev.
  rewrite rev_app_rev_app. simpl. apply app_empty_r.
Qed.

(** ** Reversal *)

Lemma rev_app_app (a b : string) : String.rev_app a b = String.rev a +:+ b.
Proof.
  unfold String.rev. revert b. induction a as [|c a IH]; intros b; [reflexivity|].
  simpl. rewrite (IH (String c b)), (IH (String c "")), app_assoc_str.
  reflexivity.
Qed.

Lemma rev_cons (c : ascii) (s : string) :
  String.rev (String c s) = String.rev s +:+ String c "".
Proof. unfold String.rev at 1. simpl. apply rev_app_app. Qed.

Lemma rev_app_distr_str (a b : string) :
  String.rev (a +:+ b) = String.rev b +:+ String.rev a.
Proof.
  induction a as [|c a IH].
  - rewrite app_empty_l. symmetry. apply app_empty_r.
  - rewrite app_cons, !rev_cons, IH. apply app_assoc_str.
Qed.

Lemma rev_involutive_str (s : string) : String.rev (String.rev s) = s.
Proof.
  induction s as [|c s IH]; [reflexivity|].
  rewrite rev_cons, rev_app_distr_str, IH. reflexivity.
Qed.

Lemma length_rev_str (s : string) :
  String.length (String.rev s) = String.length s.
Proof.
  induction s as [|c s IH]; [reflexivity|].
  rewrite rev_cons, length_app_str, IH. simpl. lia.
Qed.

Lemma forallb_rev_str (P : ascii -> bool) (s : string) :
  string_forallb P (String.rev s) = string_forallb P s.
Proof.
  unfold String.rev. rewrite forallb_rev_app. simpl. apply andb_true_r.
Qed.

(** ** White space *)

Lemma isspace_nonempty (e : string) : PyStr.isspace e = true -> e <> "".
Proof. intros H ->. vm_compute in H. discriminate. Qed.

Lemma spaces_one (e : string) : PyStr.isspace e = true -> spaces e.
Proof.
  intros H. rewrite <- (app_empty_r e). apply spaces_cons; [exact H|constructor].
Qed.

Lemma spaces_app (a b : string) : spaces a -> spaces b -> spaces (a +:+ b).
Proof.
  intros Ha Hb. induction Ha as [|e s He _ IH]; [exact Hb|].
  rewrite app_assoc_str. apply spaces_cons; assumption.
Qed.

Lemma skip_space_spec (s r : string) :
  PyStr.skip_space s = Some r ->
  exists e, s = e +:+ r /\ PyStr.isspace e = true.
Proof.
  unfold PyStr.skip_space.
  destruct s as [|a r1]; [discriminate|].
  destruct (PyStr.isspace (String a "")) eqn:H1.
  { intros [= <-]. exists (String a ""). split; [reflexivity|exact H1]. }
  destruct r1 as [|b r2]; [discriminate|].
  destruct (PyStr.isspace (String a (String b ""))) eqn:H2.
  { intros [= <-]. exists (String a (String b "")).
    split; [reflexivity|exact H2]. }
  destruct r2 as [|c r3]; [discriminate|].
  destruct (PyStr.isspace (String a (String b (String c "")))) eqn:H3;
    [|discriminate].
  intros [= <-]. exists (String a (String b (String c ""))).
  split; [reflexivity|exact H3].
Qed.

Lemma skip_space_rev_spec (s r : string) :
  PyStr.skip_space_rev s = Some r ->
  exists e, s = String.rev e +:+ r /\ PyStr.isspace e = true.
Proof.
  unfold PyStr.skip_space_rev.
  destruct s as [|a r1]; [discriminate|].
  destruct (PyStr.isspace (String a "")) eqn:H1.
  { intros [= <-]. exists (String a ""). split; [reflexivity|exact H1]. }
  destruct r1 as [|b r2]; [discriminate|].
  destruct (PyStr.isspace (String b (String a ""))) eqn:H2.
  { intros [= <-]. exists (String b (String a "")).
    split; [reflexivity|exact H2]. }
  destruct r2 as [|c r3]; [discriminate|].
  destruct (PyStr.isspace (String c (String b (String a "")))) eqn:H3;
    [|discriminate].
  intros [= <-]. exists (String c (String b (String a ""))).
  split; [reflexivity|exact H3].
Qed.

(** A text that goes on after a leading white-space character still
    starts with it. *)
Lemma skip_space_prefix (x q : string) :
  PyStr.skip_space (x +:+ q) = None -> PyStr.skip_space x = None.
Proof.
  unfold PyStr.skip_space.
  destruct x as [|a [|b [|c r3]]]; try reflexivity; rewrite ?app_cons.
  - destruct (PyStr.isspace (String a "")); [discriminate|reflexivity].
  - destruct (PyStr.isspace (String a "")); [discriminate|].
    rewrite app_empty_l.
    destruct (PyStr.isspace (String a (String b ""))); [|reflexivity].
    discriminate.
  - destruct (PyStr.isspace (String a "")); [discriminate|].
    destruct (PyStr.isspace (String a (String b ""))); [discriminate|].
    destruct (PyStr.isspace (String a (String b (String c ""))));
      [discriminate|reflexivity].
Qed.

(** ** The skipping loop *)

Section StripGo.

Variable skip : string -> option string.
Variable token : string -> Prop.
Hypothesis skip_token :
  forall s r, skip s = Some r -> exists e, s = e +:+ r /\ token e /\ e <> "".

Lemma skip_shorter (s r : string) :
  skip s = Some r -> (String.length r < String.length s)%nat.
Proof.
  intros H. destruct (skip_token s r H) as (e & -> & _ & He).
  rewrite length_app_str. destruct e; [congruence|]. simpl. lia.
Qed.

Lemma strip_go_split (n : nat) (s : string) :
  exists toks,
    s = PyStr.concat toks +:+ PyStr.strip_go skip n s /\ Forall token toks.
Proof.
  revert s. induction n as [|n IH]; intros s.
  - exists []. split; [reflexivity|constructor].
  - cbn [PyStr.strip_go]. destruct (skip s) as [r|] eqn:Hs.
    + destruct (skip_token s r Hs) as (e & -> & He & _).
      destruct (IH r) as (toks & Hr & Htoks).
      exists (e :: toks). split; [|constructor; assumption].
      cbn [PyStr.concat]. rewrite app_assoc_str, <- Hr. reflexivity.
    + exists []. split; [reflexivity|constructor].
Qed.

Lemma strip_go_done (n : nat) (s : string) :
  (String.length s <= n)%nat -> skip (PyStr.strip_go skip n s) = None.
Proof.
  revert s. induction n as [|n IH]; intros s Hn.
  - cbn [PyStr.strip_go]. destruct (skip s) as [r|] eqn:Hs; [|reflexivity].
    apply skip_shorter in Hs. lia.
  - cbn [PyStr.strip_go]. destruct (skip s) as [r|] eqn:Hs; [|exact Hs].
    apply IH. apply skip_shorter in Hs. lia.
Qed.

Lemma strip_go_fixed (n : nat) (s : string) :
  skip s = None -> PyStr.strip_go skip n s = s.
Proof. intros H. destruct n; cbn [PyStr.strip_go]; rewrite ?H; reflexivity. Qed.

End StripGo.

Lemma skip_space_token (s r : string) :
  PyStr.skip_space s = Some r ->
  exists e, s = e +:+ r /\ PyStr.isspace e = true /\ e <> "".
Proof.
  intros H. destruct (skip_space_spec s r H) as (e & Hs & He).
  exists e. split; [exact Hs|]. split; [exact He|apply isspace_nonempty, He].
Qed.

Lemma skip_space_rev_token (s r : string) :
  PyStr.skip_space_rev s = Some r ->
  exists e, s = e +:+ r /\ PyStr.isspace (String.rev e) = true /\ e <> "".
Proof.
  intros H. destruct (skip_space_rev_spec s r H) as (e & Hs & He).
  exists (String.rev e). rewrite rev_involutive_str.
  split; [exact Hs|]. split; [exact He|].
  intros Hr. apply (isspace_nonempty e He).
  rewrite <- (rev_involutive_str e), Hr. reflexivity.
Qed.

Lemma concat_spaces (toks : list string) :
  Forall (fun e => PyStr.isspace e = true) toks -> spaces (PyStr.concat toks).
Proof.
  induction 1 as [|e toks He _ IH]; [constructor|].
  cbn [PyStr.concat]. apply spaces_cons; assumption.
Qed.

Lemma concat_rev_spaces (toks : list string) :
  Forall (fun e => PyStr.isspace (String.rev e) = true) toks ->
  spaces (String.rev (PyStr.concat toks)).
Proof.
  induction 1 as [|e toks He _ IH]; [constructor|].
  cbn [PyStr.concat]. rewrite rev_app_distr_str.
  apply spaces_app; [exact IH|apply spaces_one, He].
Qed.

(** ** [lstrip], [rstrip], [strip] *)

Lemma lstrip_split (s : string) :
  exists p, s = p +:+ PyStr.lstrip s /\ spaces p.
Proof.
  destruct (strip_go_split PyStr.skip_space _ skip_space_token
              (String.length s) s) as (toks & Hs & Htoks).
  exists (PyStr.concat toks). split; [exact Hs|apply concat_spaces, Htoks].
Qed.

Lemma lstrip_done (s : string) : PyStr.skip_space (PyStr.lstrip s) = None.
Proof.
  apply (strip_go_done PyStr.skip_space _ skip_space_token). lia.
Qed.

Lemma lstrip_fixed (s : string) :
  PyStr.skip_space s = None -> PyStr.lstrip s = s.
Proof. apply strip_go_fixed. Qed.

Lemma rstrip_split (s : string) :
  exists q, s = PyStr.rstrip s +:+ q /\ spaces q.
Proof.
  destruct (strip_go_split PyStr.skip_space_rev _ skip_space_rev_token
              (String.length s) (String.rev s)) as (toks & Hs & Htoks).
  exists (String.rev (PyStr.concat toks)).
  split; [|apply concat_rev_spaces, Htoks].
  unfold PyStr.rstrip. rewrite <- rev_app_distr_str, <- Hs.
  symmetry. apply rev_involutive_str.
Qed.

Lemma rstrip_done (s : string) :
  PyStr.skip_space_rev (String.rev (PyStr.rstrip s)) = None.
Proof.
  unfold PyStr.rstrip. rewrite rev_involutive_str.
  apply (strip_go_done PyStr.skip_space_rev _ skip_space_rev_token).
  rewrite length_rev_str. lia.
Qed.

Lemma rstrip_fixed (s : string) :
  PyStr.skip_space_rev (String.rev s) = None -> PyStr.rstrip s = s.
Proof.
  intros H. unfold PyStr.rstrip. rewrite strip_go_fixed by exact H.
  apply rev_involutive_str.
Qed.

Lemma strip_strip (s : string) : PyStr.strip (PyStr.strip s) = PyStr.strip s.
Proof.
  unfold PyStr.strip.
  assert (Hl : PyStr.lstrip (PyStr.rstrip (PyStr.lstrip s))
               = PyStr.rstrip (PyStr.lstrip s)).
  { apply lstrip_fixed.
    destruct (rstrip_split (PyStr.lstrip s)) as (q & Hq & _).
    apply (skip_space_prefix _ q). rewrite <- Hq. apply lstrip_done. }
  rewrite Hl. apply rstrip_fixed, rstrip_done.
Qed.

Lemma forallb_lstrip (P : ascii -> bool) (s : string) :
  string_forallb P s = true -> string_forallb P (PyStr.lstrip s) = true.
Proof.
  destruct (lstrip_split s) as (p & Hs & _). rewrite Hs at 1.
  rewrite forallb_app_str. intros [_ H]%andb_prop. exact H.
Qed.

Lemma forallb_rstrip (P : ascii -> bool) (s : string) :
  string_forallb P s = true -> string_forallb P (PyStr.rstrip s) = true.
Proof.
  destruct (rstrip_split s) as (q & Hs & _). rewrite Hs at 1.
  rewrite forallb_app_str. intros [H _]%andb_prop. exact H.
Qed.

(** A line that strips to nothing is white space only. *)
Lemma strip_empty_spaces (l : string) : PyStr.strip l = "" -> spaces l.
Proof.
  unfold PyStr.strip. intros H.
  destruct (lstrip_split l) as (p & Hl & Hp).
  destruct (rstrip_split (PyStr.lstrip l)) as (q & Hq & Hspq).
  rewrite H, app_empty_l in Hq. rewrite Hl, Hq.
  apply spaces_app; assumption.
Qed.

(** White space decodes. *)
Lemma spaces_valid (s : string) : spaces s -> Utf8.valid s = true.
Proof.
  induction 1 as [|e s He _ IH]; [reflexivity|].
  apply bool_decide_eq_true in He. unfold PyStr.WHITESPACE in He.
  cbn [map PyStr.of_bytes fold_right] in He.
  repeat (apply elem_of_cons in He as [->|He]; [exact IH|]).
  inversion He.
Qed.

Lemma lines_go_no_break (cur s : string) :
  string_forallb (fun c => negb (is_line_break c)) cur = true ->
  Forall (fun u => string_forallb (fun c => negb (is_line_break c)) u = true)
    (PyStr.lines_go cur s).
Proof.
  revert cur. induction s as [|c s IH]; intros cur Hcur.
  - simpl. destruct cur; constructor; [|constructor].
    unfold String.rev. rewrite forallb_rev_app, Hcur. reflexivity.
  - assert (Hrev : string_forallb (fun c => negb (is_line_break c))
                     (String.rev cur) = true)
      by (unfold String.rev; rewrite forallb_rev_app, Hcur; reflexivity).
    cbn [PyStr.lines_go].
    destruct (decide (c = "010"%char)) as [->|H10];
      [constructor; [exact Hrev|apply IH; reflexivity]|].
    destruct (decide (c = "013"%char)) as [->|H13];
      [constructor; [exact Hrev|apply IH; reflexivity]|].
    apply IH. simpl. rewrite Hcur. unfold is_line_break.
    rewrite !bool_decide_eq_false_2 by assumption. reflexivity.
Qed.

Lemma lines_go_spaces (cur s : string) :
  Forall spaces (PyStr.lines_go cur s) -> spaces (String.rev cur +:+ s).
Proof.
  assert (Hbreak : forall c, c = "010"%char \/ c = "013"%char ->
                             spaces (String c "")).
  { intros c [->| ->]; apply spaces_one; vm_compute; reflexivity. }
  revert cur. induction s as [|c s IH]; intros cur.
  - cbn [PyStr.lines_go]. rewrite app_empty_r.
    destruct cur; [constructor|]. intros H. inversion H; assumption.
  - assert (Hcut : Forall spaces (String.rev cur :: PyStr.lines_go "" s) ->
                   spaces (String c "") ->
                   spaces (String.rev cur +:+ String c s)).
    { intros H Hc. inversion H as [|? ? H1 H2]; subst.
      apply spaces_app; [exact H1|].
      change (String c s) with (String c "" +:+ s).
      apply spaces_app; [exact Hc|]. exact (IH "" H2). }
    cbn [PyStr.lines_go].
    destruct (decide (c = "010"%char)) as [H10|H10]; [auto|].
    destruct (decide (c = "013"%char)) as [H13|H13]; [auto|].
    intros H. specialize (IH (String c cur) H).
    rewrite rev_cons, app_assoc_str in IH. exact IH.
Qed.

(** A text in which the reader finds no URL is white space only, so it
    decodes. *)
Lemma read_urls_nil_valid (content : string) :
  read_urls content = [] -> Utf8.valid content = true.
Proof.
  unfold read_urls, PyStr.lines. intros H.
  apply spaces_valid. apply (lines_go_spaces "" content).
  apply List.Forall_forall. intros l Hl. apply strip_empty_spaces.
  destruct (PyStr.strip l) as [|a r] eqn:Hs; [reflexivity|].
  assert (Hin : In (PyStr.strip l)
                  (List.filter PyStr.truthy
                     (map PyStr.strip (PyStr.lines_go "" content)))).
  { apply filter_In. split; [apply in_map, Hl|]. rewrite Hs. reflexivity. }
  rewrite H in Hin. destruct Hin.
Qed.

Lemma read_urls_all_clean (content : string) :
  Forall clean_url (read_urls content).
Proof.
  unfold read_urls. apply Forall_forall. intros u Hin.
  apply list_elem_of_In, filter_In in Hin as [Hin Hne].
  apply in_map_iff in Hin as (l & <- & Hl).
  split; [apply truthy_nonempty, Hne|].
  split; [apply strip_strip|].
  apply forallb_rstrip, forallb_lstrip.
  pose proof (lines_go_no_break "" content eq_refl) as Hall.
  rewrite Forall_forall in Hall. apply Hall, list_elem_of_In, Hl.
Qed.

Lemma read_write_round_trip (urls : list string) :
  Forall clean_url urls -> read_urls (write_urls urls) = urls.
Proof.
  intros Hclean. unfold read_urls.
  rewrite lines_write_urls
    by (eapply Forall_impl; [exact Hclean|]; intros u (_ & _ & H); exact H).
  induction Hclean as [|u urls (Hne & Hstrip & _) _ IH]; [reflexivity|].
  cbn [map List.filter]. rewrite Hstrip.
  apply truthy_nonempty in Hne. rewrite Hne, IH. reflexivity.
Qed.


(** X2.  Writing clean URLs as the resume controller does, one per line,
    and reading the text back as it does, gives the same URLs in the same
    order. *)
Theorem read_urls_write_urls (urls : list string) :
  Forall clean_url urls -> read_urls (write_urls urls) = urls.
Proof. exact (read_write_round_trip urls). Qed.

Lemma read_urls_write_urls_witness :
  read_urls (write_urls [Fixtures.image_a; Fixtures.page_b])
  = [Fixtures.image_a; Fixtures.page_b].
Proof.
  apply read_urls_write_urls.
  repeat constructor; try discriminate; vm_compute; reflexivity.
Defined.

(* ===================================================================== *)
(** * NamingScheme: where the file lands *)
(* ===================================================================== *)

Lemma char_at_last (a : string) (c : ascii) :
  PyStr.char_at (-1) a = String c "" -> exists a', a = a' +:+ String c "".
Proof.
  destruct a as [|x r]; [discriminate|].
  unfold PyStr.char_at, PyStr.slice_from, PyStr.clip, PyStr.len.
  cbn [String.length]. replace (-1 <? 0) with true by reflexivity.
  replace (Z.to_nat (Z.max 0 (Z.of_nat (S (String.length r)) + -1)))
    with (String.length r) by lia.
  rewrite take_drop_last. intros [= Hc].
  apply last_char_split. simpl. rewrite <- Hc.
  destruct (last_char r); reflexivity.
Qed.

(** Joining a directory and a name without separator, and taking the
    basename, gives the name back. *)
Lemma basename_join (a b : string) :
  PyStr.rfind "/" b = -1 -> OsPath.basename (OsPath.join a b) = b.
Proof.
  intros Hb.
  assert (Hrel : PyStr.startswith "/" b = false).
  { destruct b as [|x b]; [reflexivity|]. apply rfind_absent_head in Hb.
    simpl. destruct (decide ("/"%char = x)); [congruence|reflexivity]. }
  assert (Hbase : forall d, OsPath.basename ((d +:+ "/") +:+ b) = b).
  { intros d.
    assert (Hr : PyStr.rfind "/" ((d +:+ "/") +:+ b) = PyStr.len d).
    { rewrite rfind_app, Hb. change (0 <=? -1) with false. cbv iota.
      rewrite rfind_app. change (PyStr.rfind "/" "/") with 0.
      change (0 <=? 0) with true. cbv iota. lia. }
    unfold OsPath.basename, OsPath.sep. rewrite Hr.
    unfold PyStr.slice_from, PyStr.clip, PyStr.len.
    replace (Z.of_nat (String.length d) + 1 <? 0) with false
      by (symmetry; apply Z.ltb_ge; lia).
    rewrite Z.min_l by (rewrite !length_app_str; simpl; lia).
    replace (Z.to_nat (Z.of_nat (String.length d) + 1))
      with (String.length (d +:+ "/"))
      by (rewrite length_app_str; simpl; lia).
    apply drop_app_length_str. }
  unfold OsPath.join. change (String OsPath.sep "") with "/". rewrite Hrel.
  destruct a as [|x r].
  - cbn [PyStr.truthy negb orb]. rewrite app_empty_l.
    unfold OsPath.basename, OsPath.sep. rewrite Hb.
    unfold PyStr.slice_from, PyStr.clip, PyStr.len. cbn [Z.add Z.ltb Z.compare].
    rewrite Z.min_l by lia. reflexivity.
  - cbn [PyStr.truthy negb orb].
    destruct (bool_decide (PyStr.char_at (-1) (String x r) = "/")) eqn:Hend.
    + apply bool_decide_eq_true in Hend. apply char_at_last in Hend as (d & ->).
      apply Hbase.
    + rewrite <- app_assoc_str. apply Hbase.
Qed.

Lemma generate_unique_filename_no_sep (u : string) :
  PyStr.rfind "/" (generate_unique_filename u) = -1.
Proof.
  rewrite generate_unique_filename_eq.
  pose proof (basename_no_sep (PyStr.split_head "?" u)) as Hsep.
  rewrite <- (splitext_split (OsPath.basename (PyStr.split_head "?" u))) in Hsep.
  apply rfind_app_absent_inv in Hsep as [Hstem Hext].
  repeat apply rfind_app_absent; try exact Hstem; try reflexivity.
  - apply (rfind_forallb is_lower_hex); [reflexivity|].
    unfold PyStr.slice_to. apply forallb_take_str, hexdigest_lower_hex.
  - destruct (in_IMAGE_EXTENSIONS _); [exact Hext|reflexivity].
Qed.

(** X3.  Whatever the URL, the generated name has no path separator,
    so the file is placed in the download directory itself: the basename
    of the target path is the generated name.  And the name always ends
    with an extension whose lower-case form is a recognised image
    extension. *)
Theorem generated_name_stays_in_directory (download_dir u : string) :
  let name := generate_unique_filename u in
  PyStr.rfind "/" name = -1
  /\ OsPath.basename (OsPath.join download_dir name) = name
  /\ exists front ext,
       name = front +:+ ext /\ in_IMAGE_EXTENSIONS (PyStr.lower ext) = true.
Proof.
  intros name. pose proof (generate_unique_filename_no_sep u) as Hsep.
  split; [exact Hsep|]. split; [apply basename_join, Hsep|].
  unfold name. rewrite generate_unique_filename_eq.
  destruct (in_IMAGE_EXTENSIONS
              (PyStr.lower (snd (OsPath.splitext
                 (OsPath.basename (PyStr.split_head "?" u)))))) eqn:Hext.
  - exists (fst (OsPath.splitext (OsPath.basename (PyStr.split_head "?" u)))
              +:+ "_" +:+ PyStr.slice_to 8 (MD5.hexdigest u)),
           (snd (OsPath.splitext (OsPath.basename (PyStr.split_head "?" u)))).
    rewrite !app_assoc_str. split; [reflexivity|exact Hext].
  - exists (fst (OsPath.splitext (OsPath.basename (PyStr.split_head "?" u)))
              +:+ "_" +:+ PyStr.slice_to 8 (MD5.hexdigest u)), ".jpg".
    rewrite !app_assoc_str. split; reflexivity.
Qed.

(** X4.  Whatever the directory and the URL, the path the worker
    downloads to is neither the success ledger nor the failure ledger, so
    no URL can make a download overwrite a ledger; and the two ledgers
    are different files. *)
Theorem download_target_is_no_ledger (download_dir u : string) :
  let target := OsPath.join download_dir (generate_unique_filename u) in
  target <> OsPath.join download_dir LOG_FILE
  /\ target <> OsPath.join download_dir FAILED_DOWNLOADS_FILE
  /\ OsPath.join download_dir LOG_FILE
     <> OsPath.join download_dir FAILED_DOWNLOADS_FILE.
Proof.
  intros target. destruct (target_not_ledger download_dir u) as (H1 & H2 & H3).
  repeat split; [intros H; apply H1 | intros H; apply H2 | exact H3];
    symmetry; exact H.
Qed.

(* ===================================================================== *)
(** * ContentValidator and ResourceLocator: further properties *)
(* ===================================================================== *)

Lemma present_and_valid_lower (E : environment) (files : gmap string string)
    (path : string) (min_size min_size' : Z) :
  min_size' <= min_size ->
  present_and_valid E files path min_size = true ->
  present_and_valid E files path min_size' = true.
Proof.
  unfold present_and_valid, validate. intros Hle.
  destruct (parse E files path) as [[width height]|]; [|discriminate].
  destruct ((min_size <=? width) && (min_size <=? height)) eqn:H; [|discriminate].
  apply andb_prop in H as [H1 H2]. apply Z.leb_le in H1, H2. intros _.
  replace (min_size' <=? width) with true by (symmetry; apply Z.leb_le; lia).
  replace (min_size' <=? height) with true by (symmetry; apply Z.leb_le; lia).
  reflexivity.
Qed.

(** X5.  A file the validator accepts at one minimum size is accepted
    at every smaller minimum size: lowering [--min-size] never turns a
    valid file into an invalid one. *)
Theorem is_valid_image_lower_minimum (E : environment) (file_path : string)
    (min_size min_size' : Z) (w : world) :
  min_size' <= min_size ->
  fst (is_valid_image E file_path min_size w) = true ->
  fst (is_valid_image E file_path min_size' w) = true.
Proof.
  intros Hle.
  destruct (is_valid_image_run E file_path min_size w) as (es & -> & _).
  destruct (is_valid_image_run E file_path min_size' w) as (es' & -> & _).
  cbn [fst]. apply present_and_valid_lower, Hle.
Qed.

Lemma is_valid_image_lower_minimum_witness :
  fst (is_valid_image Fixtures.env_page (Fixtures.target Fixtures.image_a) 50
         Fixtures.world_with_a) = true.
Proof.
  apply (is_valid_image_lower_minimum Fixtures.env_page
           (Fixtures.target Fixtures.image_a) 200 50 Fixtures.world_with_a);
    [lia | vm_compute; reflexivity].
Defined.

(** X6.  When the fetch of the page fails - [requests.get] raises, the
    body cannot be read, or the status is an error - the resolver returns
    [None] after that one request and one error record, and touches no
    file. *)
Theorem extract_image_url_fetch_failure (E : environment)
    (image_page_url : string) (w : world) :
  match net E (requests w) image_page_url with
  | Raises _ => True
  | Returns resp =>
      is_Some (body_error resp) \/ is_Some (raise_for_status resp)
  end ->
  exists m,
    extract_image_url E image_page_url w
    = (None,
       World (fs w) (S (requests w))
         (trace w ++ [EvGet image_page_url false 15; EvLog ERROR m])).
Proof.
  unfold extract_image_url, requests_get, log, bind, emit, ret.
  destruct w as [files n tr]. cbn [fs requests trace].
  destruct (net E n image_page_url) as [[]|resp]; cbn [fs requests trace].
  - intros _. eexists. rewrite <- app_assoc. reflexivity.
  - intros _. eexists. rewrite <- app_assoc. reflexivity.
  - destruct (body_error resp) as [[]|]; cbn [fs requests trace].
    + intros _. eexists. rewrite <- app_assoc. reflexivity.
    + intros _. eexists. rewrite <- app_assoc. reflexivity.
    + intros [[? ?]|[e He]]; [discriminate|].
      rewrite He. cbn [fs requests trace]. eexists. rewrite <- app_assoc.
      reflexivity.
Qed.

Lemma extract_image_url_fetch_failure_witness :
  exists m,
    extract_image_url Fixtures.env_down Fixtures.page Fixtures.empty_world
    = (None, World ∅ 1 [EvGet Fixtures.page false 15; EvLog ERROR m]).
Proof.
  apply (extract_image_url_fetch_failure Fixtures.env_down Fixtures.page
           Fixtures.empty_world).
  exact I.
Defined.

Lemma find_Some_In {A} (P : A -> bool) (l : list A) (x : A) :
  List.find P l = Some x -> In x l /\ P x = true.
Proof. apply find_some. Qed.

Lemma first_truthy_In (l : list (option string)) (u : string) :
  first_truthy l = Some u -> In (Some u) l.
Proof.
  induction l as [|[s|] l IH]; simpl; [discriminate| |auto].
  destruct (PyStr.truthy s); [intros [= ->]; auto|auto].
Qed.

Lemma first_found_In (l : list (result (option string))) (u : string) :
  returned (first_found l) = Some u -> In (Returned (Some u)) l.
Proof.
  induction l as [|[[s|]|e] l IH]; cbn [first_found returned In].
  - discriminate.
  - destruct (PyStr.truthy s).
    + cbn [returned]. intros [= ->]. left. reflexivity.
    + intros H. right. apply IH, H.
  - intros H. right. apply IH, H.
  - discriminate.
Qed.

Lemma joined_Some (E : environment) (page attr : string) (t : option tag)
    (u : string) :
  joined E page attr t = Returned (Some u) ->
  exists t0, t = Some t0 /\ urljoin E page (tag_get t0 attr) = Some u.
Proof.
  unfold joined. destruct t as [t0|]; [|discriminate].
  destruct (urljoin E page (tag_get t0 attr)) as [v|] eqn:Hj; [|discriminate].
  intros [= ->]. eauto.
Qed.

Lemma find_tag_with (name attr : string) (P : tag -> bool) (soup : list tag)
    (t : tag) :
  (forall t, P t = true -> named t name && has_attr t attr = true) ->
  List.find P soup = Some t ->
  In t soup /\ tag_name t = name /\ tag_attrs t !! attr = Some (tag_get t attr).
Proof.
  intros HP H. apply find_Some_In in H as [Hin Ht].
  apply HP, andb_prop in Ht as [Hn Ha].
  apply bool_decide_eq_true in Hn, Ha. destruct Ha as [v Hv].
  unfold tag_get. rewrite Hv. auto.
Qed.

Lemma meta_candidate_In (pv c : string) (soup : list tag) :
  meta_candidate pv soup = Some c ->
  exists t, In t soup /\ tag_name t = "meta" /\ tag_attrs t !! "content" = Some c.
Proof.
  unfold meta_candidate.
  destruct (List.find (fun t => named t "meta" && attr_is t "property" pv) soup)
    as [t|] eqn:H1.
  - apply find_Some_In in H1 as [Hin HP]. apply andb_prop in HP as [Hn _].
    apply bool_decide_eq_true in Hn. eauto.
  - destruct (List.find (fun t => named t "meta" && attr_is t "name" pv) soup)
      as [t|] eqn:H2; [|discriminate].
    apply find_Some_In in H2 as [Hin HP]. apply andb_prop in HP as [Hn _].
    apply bool_decide_eq_true in Hn. eauto.
Qed.

(** X7.  The resolver invents no URL: what it finds is the content of a
    [meta] tag of the document, or the page URL joined with the source of
    an [img] tag of the document, or the page URL joined with the target
    of a hyperlink of the document. *)
Theorem search_soup_provenance (E : environment) (image_page_url : string)
    (soup : list tag) (u : string) :
  found (returned (search_soup E image_page_url soup)) = Some u ->
  (exists t, In t soup /\ tag_name t = "meta"
             /\ tag_attrs t !! "content" = Some u)
  \/ (exists t src, In t soup /\ tag_name t = "img"
                    /\ tag_attrs t !! "src" = Some src
                    /\ urljoin E image_page_url src = Some u)
  \/ (exists t href, In t soup /\ tag_name t = "a"
                     /\ tag_attrs t !! "href" = Some href
                     /\ urljoin E image_page_url href = Some u).
Proof.
  rewrite returned_search_soup. intros H. apply first_found_In in H.
  unfold tier_candidates in H.
  destruct H as [H|[H|[H|[H|[H|[]]]]]].
  - left. injection H as H. apply (meta_candidate_In "og:image"), H.
  - left. injection H as H. apply (meta_candidate_In "twitter:image"), H.
  - right. left. apply joined_Some in H as (t & Hf & Hj).
    apply (find_tag_with "img" "src") in Hf as (Hin & Hn & Ha);
      [|intros t0 Ht; apply andb_prop in Ht as [Ht _]; exact Ht].
    exists t, (tag_get t "src"). auto.
  - right. left. apply joined_Some in H as (t & Hf & Hj).
    apply (find_tag_with "img" "src") in Hf as (Hin & Hn & Ha);
      [|intros t0 Ht; exact Ht].
    exists t, (tag_get t "src"). auto.
  - right. right. apply joined_Some in H as (t & Hf & Hj).
    apply (find_tag_with "a" "href") in Hf as (Hin & Hn & Ha);
      [|intros t0 Ht; apply andb_prop in Ht as [Ht _]; exact Ht].
    exists t, (tag_get t "href"). auto.
Qed.

Lemma search_soup_provenance_witness :
  (exists t, In t Fixtures.twitter_first /\ tag_name t = "meta"
             /\ tag_attrs t !! "content" = Some Fixtures.image_o)
  \/ (exists t src, In t Fixtures.twitter_first /\ tag_name t = "img"
                    /\ tag_attrs t !! "src" = Some src
                    /\ urljoin Fixtures.env_page Fixtures.page src
                       = Some Fixtures.image_o)
  \/ (exists t href, In t Fixtures.twitter_first /\ tag_name t = "a"
                     /\ tag_attrs t !! "href" = Some href
                     /\ urljoin Fixtures.env_page Fixtures.page href
                        = Some Fixtures.image_o).
Proof.
  apply (search_soup_provenance Fixtures.env_page Fixtures.page
           Fixtures.twitter_first Fixtures.image_o).
  vm_compute. reflexivity.
Defined.

(* ===================================================================== *)
(** * DownloadWorker: further properties of one attempt *)
(* ===================================================================== *)

Section Attempt.

Variable E : environment.
Variables actual_img_url img_name log_file : string.
Variables min_img_size max_retries attempt : Z.

Local Abbreviation attempt_here :=
  (attempt_once E actual_img_url img_name log_file min_img_size max_retries
     attempt).

Lemma returns_resp (resp : response) :
  (match body_error resp with
   | Some _ => Returns resp
   | None => Returns resp
   end) = Returns resp.
Proof. destruct (body_error resp); reflexivity. Qed.

(** An attempt that fails goes on to the next one after one streamed
    fetch; it touches no file but the target, and no ledger. *)
Lemma attempt_once_fails (w : world) :
  attempt_fails E img_name min_img_size (net E (requests w) actual_img_url)
  = true ->
  exists w' es,
    attempt_here w = (None, w')
    /\ requests w' = S (requests w)
    /\ trace w' = trace w ++ es
    /\ (forall p, p <> img_name -> fs w' !! p = fs w !! p)
    /\ count_events is_image_get es = 1%nat
    /\ count_events is_resolution_get es = 0%nat
    /\ forall p, count_events (is_append_to p) es = 0%nat.
Proof.
  intros Hfail.
  pose proof (attempt_once_summary E actual_img_url img_name log_file
                min_img_size max_retries attempt w) as Hsum.
  destruct (attempt_once E actual_img_url img_name log_file min_img_size
              max_retries attempt w) as [r w'].
  cbn [fst snd] in Hsum.
  destruct Hsum as (es & Ht & Hn & _ & Heq & Hget & Hframe & Hnone & _ & Hall).
  assert (Hr : r = None).
  { apply Hall. intros i Hi. assert (i = 0%nat) as -> by lia.
    rewrite Nat.add_0_r. exact Hfail. }
  subst r. specialize (Heq eq_refl). destruct (Hnone eq_refl) as [Hlog Happ].
  exists w', es. split; [reflexivity|]. split; [lia|]. split; [exact Ht|].
  split.
  { intros p Hp. destruct (decide (p = log_file)) as [->|Hl].
    - apply Hlog. congruence.
    - apply Hframe; assumption. }
  split; [exact Heq|]. split; [eapply no_resolution_get, Hget|exact Happ].
Qed.

(** A response that is stored and accepted: the attempt returns [True],
    with the body in the target file and the URL added to the success
    ledger. *)
Lemma attempt_once_accepted (w : world) (resp : response) :
  log_file <> img_name ->
  net E (requests w) actual_img_url = Returns resp ->
  raise_for_status resp = None ->
  PyStr.startswith "image/" (default "" (content_type resp)) = true ->
  writable E img_name = true ->
  body_error resp = None ->
  present_and_valid E (<[img_name := PyStr.concat (chunks resp)]> (fs w))
    img_name min_img_size = true ->
  attempt_here w
  = (Some true,
     World (<[log_file := ledger w log_file +:+ actual_img_url +:+ NL]>
              (<[img_name := PyStr.concat (chunks resp)]> (fs w)))
       (S (requests w))
       (trace w ++ [EvSleep 1 3; EvGet actual_img_url true 20;
                    EvOpen img_name "wb"; EvLog INFO (Msg_downloaded img_name);
                    EvOpen log_file "a"])).
Proof.
  intros Hne Hnet Hst Hct Hwr Hbody Hpv.
  unfold attempt_once, requests_get, write_file, append_file, set_file,
    random_wait, log, emit, bind, ret, ledger.
  destruct w as [files n tr]. cbn [fs requests trace] in *.
  rewrite Hnet, returns_resp. cbn [fs requests trace].
  rewrite Hst, Hct, Hwr, Hbody. cbn [negb fs requests trace].
  match goal with
  | |- context [is_valid_image E img_name min_img_size ?w1] =>
      destruct (is_valid_image_run E img_name min_img_size w1)
        as (ves & Hv & Hves & _);
      rewrite Hv; clear Hv
  end.
  cbn [fs requests trace] in *. rewrite Hpv in *. rewrite (Hves eq_refl).
  cbn [fs requests trace]. rewrite lookup_insert_ne by congruence.
  rewrite <- !app_assoc. reflexivity.
Qed.

(** X8.  A download that is stored whole and that the validator
    rejects is removed at once.  When the response is good, the target
    file can be created and the body arrives whole, but the validator
    rejects what was stored: after the attempt the target path holds no
    file, even when a file was there before the attempt; the attempt goes
    on to the next one without the longer wait, and no other file
    changes. *)
Theorem attempt_once_rejected_by_validator (w : world) (resp : response) :
  net E (requests w) actual_img_url = Returns resp ->
  raise_for_status resp = None ->
  PyStr.startswith "image/" (default "" (content_type resp)) = true ->
  writable E img_name = true ->
  body_error resp = None ->
  accepts E (PyStr.concat (chunks resp)) min_img_size = false ->
  exists es,
    attempt_here w
    = (None, World (delete img_name (fs w)) (S (requests w)) (trace w ++ es))
    /\ In (EvRemove img_name) es
    /\ ~ In (EvSleep 3 7) es.
Proof.
  intros Hnet Hst Hct Hwr Hbody Hpv.
  rewrite <- (present_and_valid_insert E (fs w) img_name) in Hpv.
  unfold attempt_once, requests_get, write_file, remove, path_exists, set_file,
    random_wait, log, emit, bind, ret.
  destruct w as [files n tr]. cbn [fs requests trace] in *.
  rewrite Hnet, returns_resp. cbn [fs requests trace].
  rewrite Hst, Hct, Hwr, Hbody. cbn [negb fs requests trace].
  match goal with
  | |- context [is_valid_image E img_name min_img_size ?w1] =>
      destruct (is_valid_image_run E img_name min_img_size w1)
        as (ves & Hv & _ & Hwarn);
      rewrite Hv; clear Hv
  end.
  cbn [fs requests trace] in *. rewrite Hpv.
  rewrite bool_decide_eq_true_2 by (cbn [fs]; rewrite lookup_insert_eq; eauto).
  cbn [fs requests trace]. rewrite delete_insert_eq.
  eexists. rewrite <- !app_assoc. split; [reflexivity|]. split.
  - apply in_or_app. right. apply in_or_app. right. apply in_or_app. right.
    apply in_or_app. right. apply in_or_app. right. left. reflexivity.
  - intros Hin.
    repeat (apply in_app_or in Hin as [Hin|Hin];
            [try (destruct Hin as [Hin|[]]; discriminate)|]).
    + rewrite List.Forall_forall in Hwarn. destruct (Hwarn _ Hin) as [m Hm].
      discriminate.
    + destruct Hin as [Hin|[]]. discriminate.
Qed.

(** X9.  A body that breaks while it is streamed leaves what arrived
    in the target file.  When the response is good and the target file
    can be created, but the body breaks after some chunks: the attempt
    logs the error, waits the longer time and goes on, and the partial
    file is neither validated nor removed. *)
Theorem attempt_once_broken_stream (w : world) (resp : response) (e : exn) :
  net E (requests w) actual_img_url = Returns resp ->
  raise_for_status resp = None ->
  PyStr.startswith "image/" (default "" (content_type resp)) = true ->
  writable E img_name = true ->
  body_error resp = Some e ->
  exists m,
    attempt_here w
    = (None,
       World (<[img_name := PyStr.concat (chunks resp)]> (fs w))
         (S (requests w))
         (trace w ++ [EvSleep 1 3; EvGet actual_img_url true 20;
                      EvOpen img_name "wb"; EvLog ERROR m; EvSleep 3 7])).
Proof.
  intros Hnet Hst Hct Hwr Hbody.
  unfold attempt_once, requests_get, on_exception, write_file, set_file,
    random_wait, log, emit, bind, ret.
  destruct w as [files n tr]. cbn [fs requests trace] in *.
  rewrite Hnet, returns_resp. cbn [fs requests trace].
  rewrite Hst, Hct, Hwr, Hbody. cbn [negb fs requests trace].
  eexists. rewrite <- !app_assoc. reflexivity.
Qed.

(** X21.  A target file that cannot be created costs the attempt.  When
    the response is good but [open(img_name, "wb")] raises (as for a
    generated name that is too long for the file system): nothing is
    written, validated or removed, no file changes, the error is logged
    as unexpected, and the attempt waits the longer time and goes on. *)
Theorem attempt_once_target_not_created (w : world) (resp : response) :
  net E (requests w) actual_img_url = Returns resp ->
  raise_for_status resp = None ->
  PyStr.startswith "image/" (default "" (content_type resp)) = true ->
  writable E img_name = false ->
  attempt_here w
  = (None,
     World (fs w) (S (requests w))
       (trace w ++ [EvSleep 1 3; EvGet actual_img_url true 20;
                    EvLog ERROR (Msg_download_unexpected (attempt + 1)
                                   max_retries actual_img_url);
                    EvSleep 3 7])).
Proof.
  intros Hnet Hst Hct Hwr.
  unfold attempt_once, requests_get, on_exception, write_file, set_file,
    random_wait, log, emit, bind, ret.
  destruct w as [files n tr]. cbn [fs requests trace] in *.
  rewrite Hnet, returns_resp. cbn [fs requests trace].
  rewrite Hst, Hct, Hwr. cbn [negb fs requests trace].
  rewrite <- !app_assoc. reflexivity.
Qed.

End Attempt.

Lemma attempt_once_rejected_by_validator_witness :
  exists es,
    attempt_once Fixtures.env_small Fixtures.image_a
      (Fixtures.target Fixtures.image_a) Fixtures.log_path 100 2 0
      Fixtures.world_with_a
    = (None,
       World (delete (Fixtures.target Fixtures.image_a)
                (fs Fixtures.world_with_a)) 1 ([] ++ es))
    /\ In (EvRemove (Fixtures.target Fixtures.image_a)) es
    /\ ~ In (EvSleep 3 7) es.
Proof.
  apply (attempt_once_rejected_by_validator Fixtures.env_small Fixtures.image_a
           (Fixtures.target Fixtures.image_a) Fixtures.log_path 100 2 0
           Fixtures.world_with_a
           (Response 200 (Some "image/png") [Fixtures.small_image] None []));
    vm_compute; reflexivity.
Defined.

Lemma attempt_once_target_not_created_witness :
  attempt_once Fixtures.env_long_name Fixtures.image_a
    (Fixtures.target Fixtures.image_a) Fixtures.log_path 100 2 0
    Fixtures.empty_world
  = (None,
     World ∅ 1
       ([] ++ [EvSleep 1 3; EvGet Fixtures.image_a true 20;
               EvLog ERROR (Msg_download_unexpected (0 + 1) 2 Fixtures.image_a);
               EvSleep 3 7])).
Proof.
  apply (attempt_once_target_not_created Fixtures.env_long_name
           Fixtures.image_a (Fixtures.target Fixtures.image_a)
           Fixtures.log_path 100 2 0 Fixtures.empty_world
           (Response 200 (Some "image/png") [Fixtures.big_image] None []));
    reflexivity.
Defined.

Lemma attempt_once_broken_stream_witness :
  exists m,
    attempt_once Fixtures.env_broken Fixtures.image_a
      (Fixtures.target Fixtures.image_a) Fixtures.log_path 100 2 0
      Fixtures.empty_world
    = (None,
       World (<[Fixtures.target Fixtures.image_a := PyStr.concat ["partial"]]> ∅)
         1
         ([] ++ [EvSleep 1 3; EvGet Fixtures.image_a true 20;
                 EvOpen (Fixtures.target Fixtures.image_a) "wb";
                 EvLog ERROR m; EvSleep 3 7])).
Proof.
  apply (attempt_once_broken_stream Fixtures.env_broken Fixtures.image_a
           (Fixtures.target Fixtures.image_a) Fixtures.log_path 100 2 0
           Fixtures.empty_world
           (Response 200 (Some "image/png") ["partial"]
              (Some RequestException) [])
           RequestException);
    reflexivity.
Defined.

(* ===================================================================== *)
(** * DownloadWorker: further properties of a call *)
(* ===================================================================== *)

Lemma range_nonpositive (n : Z) : n <= 0 -> range n = [].
Proof. intros H. unfold range. replace (Z.to_nat n) with 0%nat by lia. reflexivity. Qed.

Section Loop.

Variable E : environment.
Variables actual_img_url img_name log_file : string.
Variables min_img_size max_retries : Z.

Local Abbreviation loop :=
  (retry_loop E actual_img_url img_name log_file min_img_size max_retries).

(** The loop after [k] attempts that fail: it is where it would be had
    it started [k] attempts later; the target file apart, the files are
    as they were. *)
Lemma retry_loop_after_failures (k : nat) (attempts : list Z) (w : world) :
  (k <= length attempts)%nat ->
  (forall i, (i < k)%nat ->
     attempt_fails E img_name min_img_size
       (net E (requests w + i) actual_img_url) = true) ->
  exists w' es,
    loop attempts w = loop (drop k attempts) w'
    /\ requests w' = (requests w + k)%nat
    /\ trace w' = trace w ++ es
    /\ (forall p, p <> img_name -> fs w' !! p = fs w !! p)
    /\ count_events is_image_get es = k
    /\ count_events is_resolution_get es = 0%nat
    /\ forall p, count_events (is_append_to p) es = 0%nat.
Proof.
  revert attempts w. induction k as [|k IH]; intros attempts w Hlen Hfail.
  - exists w, []. rewrite Nat.add_0_r, app_nil_r. repeat split.
  - destruct attempts as [|attempt rest]; [simpl in Hlen; lia|].
    simpl in Hlen.
    destruct (attempt_once_fails E actual_img_url img_name log_file
                min_img_size max_retries attempt w)
      as (w1 & es1 & Heq & Hn1 & Ht1 & Hf1 & Hg1 & Hr1 & Ha1).
    { rewrite <- (Nat.add_0_r (requests w)). apply Hfail. lia. }
    destruct (IH rest w1) as (w2 & es2 & Heq2 & Hn2 & Ht2 & Hf2 & Hg2 & Hr2 & Ha2);
      [lia| |].
    { intros i Hi. rewrite Hn1.
      replace (S (requests w) + i)%nat with (requests w + S i)%nat by lia.
      apply Hfail. lia. }
    exists w2, (es1 ++ es2). cbn [retry_loop drop]. unfold bind at 1.
    rewrite Heq, Heq2.
    rewrite !count_events_app, Hg1, Hg2, Hr1, Hr2.
    split; [reflexivity|]. split; [lia|].
    split; [rewrite Ht2, Ht1, app_assoc; reflexivity|].
    split; [intros p Hp; rewrite Hf2, Hf1 by exact Hp; reflexivity|].
    split; [reflexivity|]. split; [reflexivity|].
    intros p. rewrite count_events_app, Ha1, Ha2. reflexivity.
Qed.

End Loop.

Section ConfiguredMore.

Variable E : environment.
Variable download_dir : string.
Variables min_img_size max_retries : Z.

Let log_file : string := OsPath.join download_dir LOG_FILE.
Let failed_file : string := OsPath.join download_dir FAILED_DOWNLOADS_FILE.
Let target (u : string) : string :=
  OsPath.join download_dir (generate_unique_filename u).

Let run (img_url : string) : M bool :=
  download_image E img_url download_dir log_file failed_file
    min_img_size max_retries.

Let resolved (u : string) : M bool :=
  download_resolved E u download_dir log_file failed_file
    min_img_size max_retries.

(** The four ways a call goes, by its first step. *)
Lemma run_cases (img_url : string) (w : world) :
  (img_url = ""
   /\ resolved_url E img_url w = None
   /\ run img_url w
      = (false, World (fs w) (requests w)
                  (trace w ++ [EvLog WARNING Msg_missing_url])))
  \/ (img_url <> "" /\ is_direct_image_url img_url = true
      /\ resolved_url E img_url w = Some img_url
      /\ run img_url w = resolved img_url w)
  \/ (exists u,
        img_url <> "" /\ is_direct_image_url img_url = false
        /\ resolved_url E img_url w = Some u
        /\ run img_url w
           = resolved u (World (fs w) (S (requests w))
                           (trace w ++ [EvGet img_url false 15])))
  \/ (exists errs,
        img_url <> "" /\ is_direct_image_url img_url = false
        /\ resolved_url E img_url w = None
        /\ run img_url w
           = (false,
              World (<[failed_file := ledger w failed_file +:+ img_url +:+ NL]>
                       (fs w))
                (S (requests w))
                (trace w ++ EvGet img_url false 15
                   :: errs ++ [EvLog WARNING (Msg_could_not_extract img_url);
                               EvOpen failed_file "a"]))
        /\ Forall (fun e => exists m, e = EvLog ERROR m) errs).
Proof.
  unfold resolved_url. fold (is_direct_image_url img_url).
  destruct (PyStr.truthy img_url) eqn:Hne; cbn [negb].
  2: { left. destruct img_url; [|discriminate]. repeat split. }
  apply truthy_nonempty in Hne. right.
  destruct (is_direct_image_url img_url) eqn:Hd; cbn [negb].
  - left. repeat split; try assumption.
    exact (download_image_direct E download_dir log_file failed_file
             min_img_size max_retries img_url w Hne Hd).
  - right.
    destruct (found (fst (extract_image_url E img_url w))) as [u|] eqn:Hf.
    + left. exists u. repeat split; try assumption.
      exact (download_image_resolved E download_dir log_file failed_file
               min_img_size max_retries img_url u w Hne Hd Hf).
    + right.
      destruct (download_image_unresolved E download_dir log_file failed_file
                  min_img_size max_retries img_url w Hne Hd Hf)
        as (errs & Hr & Herrs).
      exists errs. repeat split; assumption.
Qed.

(** X10.  A call changes no file but the target of the URL it goes on
    with, the success ledger and the failure ledger: every other path
    holds after the call what it held before. *)
Theorem download_image_touches_three_files (img_url p : string) (w : world) :
  p <> log_file -> p <> failed_file ->
  (forall u, resolved_url E img_url w = Some u -> p <> target u) ->
  fs (snd (run img_url w)) !! p = fs w !! p.
Proof.
  intros Hlog Hfailed Htarget.
  destruct (run_cases img_url w)
    as [(_ & _ & ->)|[(_ & _ & Hu & ->)|[(u & _ & _ & Hu & ->)
                                        |(errs & _ & _ & _ & -> & _)]]].
  - reflexivity.
  - destruct (configured_summary E download_dir min_img_size max_retries
                img_url w) as (es & _ & _ & _ & _ & Hframe & _).
    apply Hframe; [apply Htarget, Hu|exact Hlog|exact Hfailed].
  - destruct (configured_summary E download_dir min_img_size max_retries u
                (World (fs w) (S (requests w))
                   (trace w ++ [EvGet img_url false 15])))
      as (es & _ & _ & _ & _ & Hframe & _).
    apply Hframe; [apply Htarget, Hu|exact Hlog|exact Hfailed].
  - cbn [snd fs]. apply lookup_insert_ne. congruence.
Qed.

(** What a call did to the two ledgers: nothing, or it added the URL it
    went on with and a line end to the success ledger (and returned
    [True]), or it added that URL, or the candidate when the resolution
    found nothing, and a line end to the failure ledger (and returned
    [False]). *)
Lemma run_ledger_change (img_url : string) (w : world) :
  let r := run img_url w in
  let u := default img_url (resolved_url E img_url w) in
  (ledger (snd r) log_file = ledger w log_file
   /\ ledger (snd r) failed_file = ledger w failed_file)
  \/ (fst r = true
      /\ ledger (snd r) log_file = ledger w log_file +:+ u +:+ NL
      /\ ledger (snd r) failed_file = ledger w failed_file)
  \/ (fst r = false
      /\ ledger (snd r) failed_file = ledger w failed_file +:+ u +:+ NL
      /\ ledger (snd r) log_file = ledger w log_file).
Proof.
  intros r u.
  destruct (decide (img_url = "")) as [->|Hne].
  { left. split; reflexivity. }
  destruct (run_ledgers E download_dir min_img_size max_retries img_url w Hne)
    as [Hfalse Htrue].
  fold log_file failed_file target (run img_url w) in Hfalse, Htrue.
  fold r u in Hfalse, Htrue.
  destruct (fst r) eqn:Hb.
  - destruct (Htrue eq_refl) as (Hfl & _ & Hlg).
    destruct (run_true_present E download_dir min_img_size max_retries
                img_url w Hb) as (v & Hv & _).
    assert (Hu : u = v) by (unfold u; rewrite Hv; reflexivity).
    destruct (present_and_valid E (fs w) (target u) min_img_size) eqn:Hpv.
    + left.
      pose proof (run_present E download_dir min_img_size max_retries
                    img_url v w Hv) as Hrp.
      fold log_file failed_file (target v) in Hrp. rewrite <- Hu in Hrp.
      specialize (Hrp Hpv).
      unfold r, run. rewrite Hrp. split; reflexivity.
    + right. left. split; [reflexivity|].
      unfold ledger. rewrite (Hlg Hpv), Hfl. split; reflexivity.
  - destruct (Hfalse eq_refl) as (Hfl & _ & Hlg).
    right. right. split; [reflexivity|].
    unfold ledger at 1 3. rewrite Hfl, Hlg. split; reflexivity.
Qed.

(** X11.  A call writes to at most one ledger, and what it writes is
    one URL and one line end.  Either both ledgers stay as they are; or
    the call returns [True] and the success ledger is its old text
    followed by the URL the call went on with and a line end; or the call
    returns [False] and the failure ledger is its old text followed by
    that URL, or by the candidate itself when its resolution found
    nothing, and a line end.  The other ledger is unchanged, and nothing
    that a ledger held is changed or removed. *)
Theorem download_image_one_ledger_write (img_url : string) (w : world) :
  let r := run img_url w in
  let u := default img_url (resolved_url E img_url w) in
  (ledger (snd r) log_file = ledger w log_file
   /\ ledger (snd r) failed_file = ledger w failed_file)
  \/ (fst r = true
      /\ ledger (snd r) log_file = ledger w log_file +:+ u +:+ NL
      /\ ledger (snd r) failed_file = ledger w failed_file)
  \/ (fst r = false
      /\ ledger (snd r) failed_file = ledger w failed_file +:+ u +:+ NL
      /\ ledger (snd r) log_file = ledger w log_file).
Proof. exact (run_ledger_change img_url w). Qed.

Lemma resolved_unfold (u : string) (w : world) :
  present_and_valid E (fs w) (target u) min_img_size = false ->
  exists ves,
    resolved u w
    = (let '(r, w2) :=
         retry_loop E u (target u) log_file min_img_size max_retries
           (range max_retries)
           (World (fs w) (requests w) (trace w ++ ves)) in
       match r with
       | Some b => (b, w2)
       | None =>
           (false,
            World (<[failed_file := ledger w2 failed_file +:+ u +:+ NL]> (fs w2))
              (requests w2)
              (trace w2 ++ [EvLog WARNING (Msg_failed_after max_retries u);
                            EvOpen failed_file "a"]))
       end)
    /\ Forall (fun e => exists m, e = EvLog WARNING m) ves.
Proof.
  intros Hpv. unfold resolved, download_resolved, bind, path_exists.
  fold (target u).
  destruct (existing_file_check E u download_dir min_img_size w)
    as (ves & Heq & _ & Hwarn).
  fold (target u) in Heq. rewrite Heq, Hpv. exists ves. split; [|exact Hwarn].
  destruct (retry_loop E u (target u) log_file min_img_size max_retries
              (range max_retries) _) as [[b|] w2]; [reflexivity|].
  unfold log, append_file, set_file, emit, bind, ret, ledger.
  cbn [fs requests trace]. rewrite <- app_assoc. reflexivity.
Qed.

(** X12.  With a retry count of zero or less the loop makes no attempt:
    a candidate whose target is not already there fails at once, with no
    streamed fetch, and its URL goes to the failure ledger. *)
Theorem download_image_no_retries (img_url u : string) (w : world) :
  max_retries <= 0 ->
  resolved_url E img_url w = Some u ->
  present_and_valid E (fs w) (target u) min_img_size = false ->
  let r := run img_url w in
  fst r = false
  /\ count_events is_image_get (new_events w (snd r)) = 0%nat
  /\ ledger (snd r) failed_file = ledger w failed_file +:+ u +:+ NL.
Proof.
  intros Hmax Hu Hpv r.
  assert (Hres : forall w0 pre,
            trace w0 = trace w ++ pre -> fs w0 = fs w ->
            count_events is_image_get pre = 0%nat ->
            fst (resolved u w0) = false
            /\ count_events is_image_get (new_events w (snd (resolved u w0)))
               = 0%nat
            /\ ledger (snd (resolved u w0)) failed_file
               = ledger w failed_file +:+ u +:+ NL).
  { intros w0 pre Htr Hfs Hpre.
    assert (Hpv0 : present_and_valid E (fs w0) (target u) min_img_size = false)
      by (rewrite Hfs; exact Hpv).
    assert (Hb : fst (resolved u w0) = false).
    { destruct (resolved_unfold u w0 Hpv0) as (ves & -> & _).
      rewrite range_nonpositive by exact Hmax. reflexivity. }
    split; [exact Hb|].
    destruct (configured_summary E download_dir min_img_size max_retries u w0)
      as (es & Ht & _ & _ & _ & _ & Hfalse & _).
    fold log_file failed_file (target u) in Ht, Hfalse.
    fold (resolved u w0) in Ht, Hfalse.
    destruct (Hfalse Hb) as (_ & Hc & Hfl & _).
    rewrite Htr, <- app_assoc in Ht.
    rewrite (new_events_app w _ _ Ht), count_events_app, Hpre, Hc.
    split; [lia|].
    unfold ledger at 1. rewrite Hfl.
    unfold ledger. rewrite Hfs. reflexivity. }
  destruct (run_cases img_url w)
    as [(_ & Hn & _)|[(_ & _ & Hu' & Hr)|[(u' & _ & _ & Hu' & Hr)
                                        |(errs & _ & _ & Hn & _)]]];
    try congruence.
  - assert (u = img_url) by congruence. subst u. unfold r. rewrite Hr.
    apply (Hres w []); [rewrite app_nil_r; reflexivity|reflexivity|reflexivity].
  - assert (u' = u) by congruence. subst u'. unfold r. rewrite Hr.
    apply (Hres _ [EvGet img_url false 15]); reflexivity.
Qed.

(** X13.  The loop stops at the first download that is stored and
    accepted.  For a candidate that passes the extension test and whose
    target is not there yet: when the first [k] attempts fail (in the
    fetch, at the creation of the target, or at the validator) and the
    next response is an image that arrives whole, can be stored and is
    accepted by the validator, with [k] less than the retry count, the
    call returns [True] after exactly [k + 1] streamed fetches, the
    target file holds the body of that response, the URL is added to the
    success ledger and the failure ledger is left alone. *)
Theorem download_image_succeeds_at_first_good_response
    (img_url : string) (w : world) (k : nat) (resp : response) :
  img_url <> "" -> is_direct_image_url img_url = true ->
  present_and_valid E (fs w) (target img_url) min_img_size = false ->
  (Z.of_nat k < max_retries) ->
  (forall i, (i < k)%nat ->
     attempt_fails E (target img_url) min_img_size
       (net E (requests w + i) img_url) = true) ->
  net E (requests w + k) img_url = Returns resp ->
  raise_for_status resp = None ->
  PyStr.startswith "image/" (default "" (content_type resp)) = true ->
  writable E (target img_url) = true ->
  body_error resp = None ->
  accepts E (PyStr.concat (chunks resp)) min_img_size = true ->
  let r := run img_url w in
  fst r = true
  /\ count_events is_image_get (new_events w (snd r)) = S k
  /\ fs (snd r) !! target img_url = Some (PyStr.concat (chunks resp))
  /\ ledger (snd r) log_file = ledger w log_file +:+ img_url +:+ NL
  /\ ledger (snd r) failed_file = ledger w failed_file.
Proof.
  intros Hne Hd Hpv Hk Hfail Hnet Hst Hct Hwr Hbody Hvalid r.
  destruct (target_not_ledger download_dir img_url) as (Hlt & Hft & Hlf).
  fold log_file failed_file (target img_url) in Hlt, Hft, Hlf.
  assert (Hrun : exists w1 es,
            r = (true,
                 World (<[log_file := ledger w log_file +:+ img_url +:+ NL]>
                          (<[target img_url := PyStr.concat (chunks resp)]>
                             (fs w1)))
                   (S (requests w1))
                   (trace w ++ es
                      ++ [EvSleep 1 3; EvGet img_url true 20;
                          EvOpen (target img_url) "wb";
                          EvLog INFO (Msg_downloaded (target img_url));
                          EvOpen log_file "a"]))
            /\ (forall p, p <> target img_url -> fs w1 !! p = fs w !! p)
            /\ count_events is_image_get es = k).
  { unfold r, run.
    rewrite (download_image_direct E download_dir log_file failed_file
               min_img_size max_retries img_url w Hne Hd).
    fold (resolved img_url w).
    destruct (resolved_unfold img_url w Hpv) as (ves & -> & Hwarn).
    destruct (retry_loop_after_failures E img_url (target img_url) log_file
                min_img_size max_retries k (range max_retries)
                (World (fs w) (requests w) (trace w ++ ves)))
      as (w1 & es & Heq & Hn1 & Ht1 & Hf1 & Hg & _).
    { rewrite length_range. lia. }
    { exact Hfail. }
    rewrite Heq. clear Heq. cbn [fs requests trace] in *.
    assert (Hdrop : exists attempt rest,
              drop k (range max_retries) = attempt :: rest).
    { destruct (drop k (range max_retries)) as [|a rest] eqn:Hdr; [|eauto].
      apply (f_equal length) in Hdr. rewrite length_drop, length_range in Hdr.
      simpl in Hdr. lia. }
    destruct Hdrop as (attempt & rest & ->).
    exists w1, (ves ++ es). cbn [retry_loop]. unfold bind.
    rewrite <- Hn1 in Hnet.
    rewrite <- (present_and_valid_insert E (fs w1) (target img_url)) in Hvalid.
    rewrite (attempt_once_accepted E img_url (target img_url) log_file
               min_img_size max_retries attempt w1
               resp Hlt Hnet Hst Hct Hwr Hbody Hvalid).
    unfold ret, ledger. rewrite Ht1, (Hf1 log_file) by exact Hlt.
    rewrite <- !app_assoc.
    split; [reflexivity|]. split; [exact Hf1|].
    rewrite count_events_app, Hg.
    rewrite (count_warnings is_image_get ves) by (try reflexivity; exact Hwarn).
    reflexivity. }
  destruct Hrun as (w1 & es & -> & Hf1 & Hc). cbn [fst snd fs].
  rewrite new_events_world, !count_events_app, Hc.
  split; [reflexivity|]. split; [ev_count|].
  split; [rewrite lookup_insert_ne by congruence; apply lookup_insert_eq|].
  unfold ledger. cbn [fs].
  rewrite lookup_insert_eq, lookup_insert_ne, lookup_insert_ne by congruence.
  rewrite (Hf1 failed_file) by exact Hft.
  split; reflexivity.
Qed.

End ConfiguredMore.

Lemma download_image_touches_three_files_witness :
  fs (snd (download_image Fixtures.env_page Fixtures.page Fixtures.data_dir
             Fixtures.log_path Fixtures.failed_path 100 2
             Fixtures.world_with_notes)) !! Fixtures.notes_path
  = Some "keep".
Proof.
  apply (download_image_touches_three_files Fixtures.env_page Fixtures.data_dir
           100 2 Fixtures.page Fixtures.notes_path Fixtures.world_with_notes).
  - discriminate.
  - discriminate.
  - intros u Hu. vm_compute in Hu. injection Hu as <-. vm_compute. discriminate.
Defined.

Lemma download_image_no_retries_witness :
  let r := download_image Fixtures.env_page Fixtures.image_a Fixtures.data_dir
             Fixtures.log_path Fixtures.failed_path 100 0
             Fixtures.empty_world in
  fst r = false
  /\ count_events is_image_get (new_events Fixtures.empty_world (snd r)) = 0%nat
  /\ ledger (snd r) Fixtures.failed_path
     = ledger Fixtures.empty_world Fixtures.failed_path
       +:+ Fixtures.image_a +:+ NL.
Proof.
  apply (download_image_no_retries Fixtures.env_page Fixtures.data_dir 100 0
           Fixtures.image_a Fixtures.image_a Fixtures.empty_world);
    [lia | vm_compute; reflexivity | vm_compute; reflexivity].
Defined.

Lemma download_image_succeeds_at_first_good_response_witness :
  let r := download_image Fixtures.env_flaky Fixtures.image_a Fixtures.data_dir
             Fixtures.log_path Fixtures.failed_path 100 3
             Fixtures.empty_world in
  fst r = true
  /\ count_events is_image_get (new_events Fixtures.empty_world (snd r)) = 2%nat
  /\ fs (snd r) !! Fixtures.target Fixtures.image_a
     = Some (PyStr.concat [Fixtures.big_image])
  /\ ledger (snd r) Fixtures.log_path
     = ledger Fixtures.empty_world Fixtures.log_path
       +:+ Fixtures.image_a +:+ NL
  /\ ledger (snd r) Fixtures.failed_path
     = ledger Fixtures.empty_world Fixtures.failed_path.
Proof.
  apply (download_image_succeeds_at_first_good_response Fixtures.env_flaky
           Fixtures.data_dir 100 3 Fixtures.image_a Fixtures.empty_world 1
           (Response 200 (Some "image/png") [Fixtures.big_image] None []));
    try (vm_compute; reflexivity); try discriminate; try lia.
  intros i Hi. assert (i = 0%nat) as -> by lia. reflexivity.
Defined.

(* ===================================================================== *)
(** * ResumeController: further properties *)
(* ===================================================================== *)

Lemma grown_from_refl (s : string) : grown_from s s.
Proof. exists "". symmetry. apply app_empty_r. Qed.

Lemma grown_from_trans (a b c : string) :
  grown_from a b -> grown_from b c -> grown_from a c.
Proof.
  intros [x ->] [y ->]. exists (x +:+ y). apply app_assoc_str.
Qed.

Lemma failed_positions_length (i : nat) (results : list bool) :
  length (failed_positions i results)
  = (length results - length (List.filter id results))%nat.
Proof.
  revert i. induction results as [|[] results IH]; intros i; simpl.
  - reflexivity.
  - rewrite IH. pose proof (List.filter_length_le id results). lia.
  - rewrite IH. pose proof (List.filter_length_le id results). lia.
Qed.

Lemma failed_positions_bound (i : nat) (results : list bool) :
  Forall (fun k => (k < i + length results)%nat) (failed_positions i results).
Proof.
  revert i. induction results as [|[] results IH]; intros i; simpl.
  - constructor.
  - eapply Forall_impl; [apply IH|]. intros k Hk. simpl in Hk. lia.
  - constructor; [lia|].
    eapply Forall_impl; [apply IH|]. intros k Hk. simpl in Hk. lia.
Qed.

Lemma failed_urls_sublist (urls : list string) (results : list bool) (u : string) :
  In u (failed_urls urls results) -> In u urls.
Proof.
  revert results. induction urls as [|url urls IH]; intros [|[] results];
    simpl; try tauto.
  - intros H. right. eapply IH, H.
  - intros [->|H]; [left; reflexivity|right; eapply IH, H].
Qed.

Section Resume.

Variable E : environment.
Variable args : arguments.

Let log_file : string := OsPath.join (dir args) LOG_FILE.
Let failed_file : string := OsPath.join (dir args) FAILED_DOWNLOADS_FILE.

(** The pass, case by case. *)
Lemma retry_failed_images_eq (completion : list nat) (w : world) :
  retry_failed_images E args completion w
  = match fs w !! failed_file with
    | None =>
        (Returned tt,
         World (fs w) (requests w) (trace w ++ [EvLog INFO Msg_no_failed_file]))
    | Some content =>
        if negb (Utf8.valid content) then
          (Raised OtherException,
           World (fs w) (requests w) (trace w ++ [EvOpen failed_file "r"]))
        else
          match read_urls content with
          | [] =>
              (Returned tt,
               World (fs w) (requests w)
                 (trace w ++ [EvOpen failed_file "r";
                              EvLog INFO Msg_nothing_to_retry]))
          | url :: rest =>
              let urls := url :: rest in
              if workers args <=? 0 then
                (Raised OtherException, pool_start w failed_file (length urls))
              else
                let '(results, w2) :=
                  as_completed E args urls completion
                    (pool_start w failed_file (length urls)) in
                let '(new_success, still_failed, temp_failed) :=
                  collect urls 0 results (0, 0, []) in
                if writable E failed_file then
                  (Returned tt,
                   World (<[failed_file := write_urls temp_failed]> (fs w2))
                     (requests w2)
                     (trace w2
                        ++ [EvOpen failed_file "w";
                            EvLog INFO (Msg_retried new_success still_failed)]))
                else (Raised OtherException, w2)
          end
    end.
Proof.
  unfold retry_failed_images, bind, path_exists. fold failed_file.
  destruct (fs w !! failed_file) as [content|] eqn:Hl.
  2: { rewrite bool_decide_eq_false_2 by (intros [? ?]; discriminate).
       reflexivity. }
  rewrite bool_decide_eq_true_2 by eauto. cbn [negb].
  unfold emit at 1. cbn [fs requests trace]. rewrite Hl. cbn [default].
  unfold id.
  destruct (Utf8.valid content); cbn [negb]; [|reflexivity].
  destruct (read_urls content) as [|url urls] eqn:Hr.
  { unfold log, emit, ret. cbn [fs requests trace]. rewrite <- app_assoc.
    reflexivity. }
  unfold log at 1, emit at 1. cbn [fs requests trace].
  unfold pool_start. cbn [fs requests trace]. rewrite <- app_assoc.
  cbn [app]. cbv zeta.
  destruct (workers args <=? 0); [reflexivity|].
  destruct (as_completed E args (url :: urls) completion _) as [results w2].
  destruct (collect (url :: urls) 0 results (0, 0, [])) as [[s f] t].
  unfold write_file. destruct (writable E failed_file); [|reflexivity].
  unfold set_file, log, emit, bind, ret, write_urls.
  cbn [fs requests trace]. rewrite <- app_assoc. reflexivity.
Qed.

(** The pass, once there is something to retry, the pool can be built
    and the ledger can be rewritten. *)
Lemma retry_failed_images_run (completion : list nat) (w : world) :
  read_urls (ledger w failed_file) <> [] ->
  Utf8.valid (ledger w failed_file) = true ->
  0 < workers args ->
  writable E failed_file = true ->
  retry_failed_images E args completion w
  = (let urls := read_urls (ledger w failed_file) in
     let '(results, w2) :=
       as_completed E args urls completion
         (pool_start w failed_file (length urls)) in
     let '(new_success, still_failed, temp_failed) :=
       collect urls 0 results (0, 0, []) in
     (Returned tt,
      World (<[failed_file := write_urls temp_failed]> (fs w2)) (requests w2)
        (trace w2 ++ [EvOpen failed_file "w";
                      EvLog INFO (Msg_retried new_success still_failed)]))).
Proof.
  intros Hurls Hvalid Hworkers Hwr. rewrite retry_failed_images_eq.
  unfold ledger in *.
  destruct (fs w !! failed_file) as [content|] eqn:Hl.
  2: { exfalso. apply Hurls. reflexivity. }
  cbn [default] in *. unfold id in *. rewrite Hvalid. cbn [negb].
  destruct (read_urls content) as [|url urls] eqn:Hr; [congruence|].
  cbv zeta. replace (workers args <=? 0) with false
    by (symmetry; apply Z.leb_gt; lia).
  rewrite Hwr. reflexivity.
Qed.

(** The pass, when there is nothing to retry. *)
Lemma retry_failed_images_idle (completion : list nat) (w : world) :
  read_urls (ledger w failed_file) = [] ->
  exists es,
    retry_failed_images E args completion w
    = (Returned tt, World (fs w) (requests w) (trace w ++ es))
    /\ count_events is_get es = 0%nat
    /\ count_events is_file_write es = 0%nat.
Proof.
  intros Hurls. rewrite retry_failed_images_eq.
  pose proof (read_urls_nil_valid _ Hurls) as Hvalid.
  unfold ledger in *.
  destruct (fs w !! failed_file) as [content|] eqn:Hl.
  - cbn [default] in *. unfold id in *. rewrite Hvalid, Hurls. cbn [negb].
    eexists. split; [reflexivity|]. split; ev_count.
  - eexists. split; [reflexivity|]. split; ev_count.
Qed.

(** X14.  When the failure ledger is missing, empty or holds only blank
    lines, the pass does nothing but log: no request, no file written,
    the ledger itself not rewritten. *)
Theorem retry_failed_images_nothing_to_retry (completion : list nat)
    (w : world) :
  read_urls (ledger w failed_file) = [] ->
  exists es,
    retry_failed_images E args completion w
    = (Returned tt, World (fs w) (requests w) (trace w ++ es))
    /\ count_events is_get es = 0%nat
    /\ count_events is_file_write es = 0%nat.
Proof. exact (retry_failed_images_idle completion w). Qed.

(** X22.  The pass raises before any download is tried in two cases:
    the bytes of the failure ledger are no UTF-8, so that the ledger
    cannot be read; or the ledger lists URLs and the number of workers
    is zero or less, so that the pool cannot be built.  In both cases no
    request is made, no file is written, and the ledger is not
    rewritten: it still holds what it held. *)
Theorem retry_failed_images_raises_before_any_call (completion : list nat)
    (w : world) :
  is_Some (fs w !! failed_file) ->
  Utf8.valid (ledger w failed_file) = false
  \/ (read_urls (ledger w failed_file) <> [] /\ workers args <= 0) ->
  exists es,
    retry_failed_images E args completion w
    = (Raised OtherException, World (fs w) (requests w) (trace w ++ es))
    /\ count_events is_get es = 0%nat
    /\ count_events is_file_write es = 0%nat.
Proof.
  intros [content Hl] Hcase. rewrite retry_failed_images_eq.
  unfold ledger in Hcase. rewrite Hl in *. cbn [default] in Hcase.
  unfold id in Hcase.
  destruct (Utf8.valid content) eqn:Hvalid; cbn [negb].
  2: { eexists. split; [reflexivity|]. split; ev_count. }
  destruct Hcase as [Hcase|[Hurls Hworkers]]; [discriminate|].
  destruct (read_urls content) as [|url urls]; [congruence|].
  cbv zeta. replace (workers args <=? 0) with true
    by (symmetry; apply Z.leb_le; lia).
  unfold pool_start. eexists. split; [reflexivity|]. split; ev_count.
Qed.

(** The pool, when the futures complete in the order of submission, is
    the calls one after the other. *)
Lemma as_completed_in_order (pre urls : list string) (w : world) :
  as_completed E args (pre ++ urls) (seq (length pre) (length urls)) w
  = download_all E args urls w.
Proof.
  revert pre w. induction urls as [|url urls IH]; intros pre w; [reflexivity|].
  cbn [length seq as_completed download_all].
  rewrite lookup_app_r, Nat.sub_diag by lia. cbn [lookup list_lookup].
  unfold bind, submitted.
  destruct (download_image E url (dir args) _ _ _ _ w) as [b w1].
  specialize (IH (pre ++ [url]) w1).
  rewrite <- app_assoc, length_app, Nat.add_1_r in IH. cbn [app] in IH.
  rewrite IH. reflexivity.
Qed.

Lemma download_all_length (urls : list string) (w : world) :
  length (fst (download_all E args urls w)) = length urls.
Proof.
  revert w. induction urls as [|url urls IH]; intros w; [reflexivity|].
  cbn [download_all]. unfold bind.
  destruct (submitted E args url w) as [b w1].
  specialize (IH w1). destruct (download_all E args urls w1) as [bs w2].
  unfold ret. cbn [fst length] in *. rewrite IH. reflexivity.
Qed.

Lemma as_completed_length (urls : list string) (completion : list nat)
    (w : world) :
  Forall (fun j => (j < length urls)%nat) completion ->
  length (fst (as_completed E args urls completion w)) = length completion.
Proof.
  intros Hall. revert w. induction Hall as [|j completion Hj _ IH]; intros w;
    [reflexivity|].
  cbn [as_completed].
  destruct (lookup_lt_is_Some_2 urls j Hj) as [url ->].
  unfold bind. destruct (download_image E url _ _ _ _ _ w) as [b w1].
  specialize (IH w1).
  destruct (as_completed E args urls completion w1) as [bs w2].
  unfold ret. cbn [fst length] in *. rewrite IH. reflexivity.
Qed.

(** The success ledger over the pool: what it held stays, at its
    beginning. *)
Lemma as_completed_grows (urls : list string) (completion : list nat)
    (w : world) :
  grown_from (ledger w log_file)
    (ledger (snd (as_completed E args urls completion w)) log_file).
Proof.
  revert w. induction completion as [|j completion IH]; intros w.
  - apply grown_from_refl.
  - cbn [as_completed]. destruct (urls !! j) as [url|]; [|apply IH].
    unfold bind.
    pose proof (run_ledger_change E (dir args) (min_size args) (retries args)
                  url w) as Hcall.
    cbv zeta in Hcall. fold log_file failed_file in Hcall.
    fold log_file failed_file.
    destruct (download_image E url (dir args) log_file failed_file
                (min_size args) (retries args) w) as [b w1].
    specialize (IH w1).
    destruct (as_completed E args urls completion w1) as [bs w2].
    unfold ret. cbn [fst snd] in *.
    eapply grown_from_trans; [|exact IH].
    destruct Hcall as [[-> _]|[(_ & -> & _)|(_ & _ & ->)]].
    + apply grown_from_refl.
    + eexists. reflexivity.
    + apply grown_from_refl.
Qed.

(** X15.  A resume pass never loses a line of the success ledger:
    whatever the order in which the calls complete, and whether the pass
    returns or raises, the ledger after the pass begins with all the
    text it held before. *)
Theorem retry_failed_images_keeps_success_ledger (completion : list nat)
    (w : world) :
  grown_from (ledger w log_file)
    (ledger (snd (retry_failed_images E args completion w)) log_file).
Proof.
  rewrite retry_failed_images_eq.
  destruct (fs w !! failed_file) as [content|]; [|apply grown_from_refl].
  destruct (negb (Utf8.valid content)); [apply grown_from_refl|].
  destruct (read_urls content) as [|url urls]; [apply grown_from_refl|].
  cbv zeta. destruct (workers args <=? 0); [apply grown_from_refl|].
  pose proof (as_completed_grows (url :: urls) completion
                (pool_start w failed_file (length (url :: urls)))) as Hpool.
  destruct (as_completed E args (url :: urls) completion _) as [results w2].
  destruct (collect (url :: urls) 0 results (0, 0, [])) as [[s f] t].
  cbn [fst snd] in *.
  destruct (writable E failed_file); cbn [snd]; [|exact Hpool].
  unfold ledger at 2. cbn [fs].
  rewrite lookup_insert_ne.
  - exact Hpool.
  - destruct (target_not_ledger (dir args) "") as (_ & _ & H3).
    intros Heq. apply H3. symmetry. exact Heq.
Qed.

(** X16.  When the ledger can be read and rewritten, the number of
    workers is positive and the futures complete in the order of
    submission, the pass returns, and the ledger it leaves lists exactly
    the URLs whose own call returned [False], in the order they had in
    the ledger before. *)
Theorem retry_failed_images_in_submission_order (w : world) :
  let urls := read_urls (ledger w failed_file) in
  urls <> [] ->
  Utf8.valid (ledger w failed_file) = true ->
  0 < workers args ->
  writable E failed_file = true ->
  let results :=
    fst (download_all E args urls (pool_start w failed_file (length urls))) in
  let r := retry_failed_images E args (seq 0 (length urls)) w in
  fst r = Returned tt
  /\ length results = length urls
  /\ read_urls (ledger (snd r) failed_file) = failed_urls urls results.
Proof.
  intros urls Hurls Hvalid Hworkers Hwr. cbv zeta.
  rewrite retry_failed_images_run by assumption. fold urls. cbv zeta.
  rewrite (as_completed_in_order [] urls).
  pose proof (download_all_length urls
                (pool_start w failed_file (length urls))) as Hlen.
  destruct (download_all E args urls _) as [results w2].
  cbn [fst] in *.
  pose proof (collect_in_order urls results Hlen) as Hc.
  destruct (collect urls 0 results (0, 0, [])) as [[s f] t].
  cbn [snd] in Hc. subst t.
  split; [reflexivity|]. split; [exact Hlen|].
  unfold ledger. cbn [snd fs].
  rewrite lookup_insert_eq. cbn [default].
  apply read_write_round_trip.
  apply List.Forall_forall. intros u Hu. apply failed_urls_sublist in Hu.
  pose proof (read_urls_all_clean (ledger w failed_file)) as Hclean.
  rewrite List.Forall_forall in Hclean. apply Hclean, Hu.
Qed.

(** X17.  When the ledger can be read and rewritten and the number of
    workers is positive, then whatever the order in which the futures
    complete, as long as each is yielded once, the pass returns and the
    ledger it leaves has one entry per call that returned [False]: of
    [N] URLs with [M] calls that returned [True], it lists [N - M]. *)
Theorem retry_failed_images_entry_count (completion : list nat) (w : world) :
  let urls := read_urls (ledger w failed_file) in
  urls <> [] ->
  Utf8.valid (ledger w failed_file) = true ->
  0 < workers args ->
  writable E failed_file = true ->
  Permutation completion (seq 0 (length urls)) ->
  let results :=
    fst (as_completed E args urls completion
           (pool_start w failed_file (length urls))) in
  let r := retry_failed_images E args completion w in
  fst r = Returned tt
  /\ length results = length urls
  /\ length (read_urls (ledger (snd r) failed_file))
     = (length urls - length (List.filter id results))%nat.
Proof.
  intros urls Hurls Hvalid Hworkers Hwr Hperm. cbv zeta.
  rewrite retry_failed_images_run by assumption. fold urls. cbv zeta.
  assert (Hlen : length (fst (as_completed E args urls completion
                   (pool_start w failed_file (length urls)))) = length urls).
  { rewrite as_completed_length.
    - rewrite (Permutation_length Hperm). apply length_seq.
    - apply List.Forall_forall. intros j Hj.
      apply (Permutation_in _ Hperm), in_seq in Hj. lia. }
  destruct (as_completed E args urls completion _) as [results w2].
  cbn [fst] in *.
  rewrite collect_positions. cbn [fst snd].
  split; [reflexivity|]. split; [exact Hlen|].
  unfold ledger. cbn [snd fs app].
  rewrite lookup_insert_eq. cbn [default].
  match goal with
  | |- context [id (write_urls ?t)] =>
      change (id (write_urls t)) with (write_urls t)
  end.
  rewrite read_write_round_trip.
  - rewrite length_map, failed_positions_length, Hlen. reflexivity.
  - apply List.Forall_forall. intros u Hu.
    apply in_map_iff in Hu as (k & <- & Hk).
    pose proof (failed_positions_bound 0 results) as Hb.
    rewrite List.Forall_forall in Hb. specialize (Hb k Hk). simpl in Hb.
    pose proof (read_urls_all_clean (ledger w failed_file)) as Hclean.
    rewrite List.Forall_forall in Hclean. apply Hclean.
    apply nth_In. fold urls. lia.
Qed.

End Resume.

Lemma retry_failed_images_nothing_to_retry_witness :
  exists es,
    retry_failed_images Fixtures.env_a_only Fixtures.resume_args [0%nat]
      Fixtures.world_blank_ledger
    = (Returned tt,
       World (fs Fixtures.world_blank_ledger)
         (requests Fixtures.world_blank_ledger)
         (trace Fixtures.world_blank_ledger ++ es))
    /\ count_events is_get es = 0%nat
    /\ count_events is_file_write es = 0%nat.
Proof.
  apply (retry_failed_images_nothing_to_retry Fixtures.env_a_only
           Fixtures.resume_args [0%nat] Fixtures.world_blank_ledger).
  vm_compute. reflexivity.
Defined.

Lemma retry_failed_images_raises_before_any_call_witness :
  exists es,
    retry_failed_images Fixtures.env_a_only Fixtures.no_workers_args
      [1%nat; 0%nat] Fixtures.world_ledger
    = (Raised OtherException,
       World (fs Fixtures.world_ledger) (requests Fixtures.world_ledger)
         (trace Fixtures.world_ledger ++ es))
    /\ count_events is_get es = 0%nat
    /\ count_events is_file_write es = 0%nat.
Proof.
  apply (retry_failed_images_raises_before_any_call Fixtures.env_a_only
           Fixtures.no_workers_args [1%nat; 0%nat] Fixtures.world_ledger).
  - eexists. vm_compute. reflexivity.
  - right. split; [vm_compute; discriminate|vm_compute; discriminate].
Defined.

Lemma retry_failed_images_in_submission_order_witness :
  let urls := read_urls (ledger Fixtures.world_ledger Fixtures.failed_path) in
  let results :=
    fst (download_all Fixtures.env_a_only Fixtures.resume_args urls
           (pool_start Fixtures.world_ledger Fixtures.failed_path
              (length urls))) in
  let r :=
    retry_failed_images Fixtures.env_a_only Fixtures.resume_args
      (seq 0 (length urls)) Fixtures.world_ledger in
  fst r = Returned tt
  /\ length results = length urls
  /\ read_urls (ledger (snd r) Fixtures.failed_path) = failed_urls urls results.
Proof.
  apply (retry_failed_images_in_submission_order Fixtures.env_a_only
           Fixtures.resume_args Fixtures.world_ledger).
  - vm_compute. discriminate.
  - vm_compute. reflexivity.
  - reflexivity.
  - reflexivity.
Defined.

Lemma retry_failed_images_entry_count_witness :
  let urls := read_urls (ledger Fixtures.world_ledger Fixtures.failed_path) in
  let results :=
    fst (as_completed Fixtures.env_a_only Fixtures.resume_args urls
           [1%nat; 0%nat]
           (pool_start Fixtures.world_ledger Fixtures.failed_path
              (length urls))) in
  let r :=
    retry_failed_images Fixtures.env_a_only Fixtures.resume_args
      [1%nat; 0%nat] Fixtures.world_ledger in
  fst r = Returned tt
  /\ length results = length urls
  /\ length (read_urls (ledger (snd r) Fixtures.failed_path))
     = (length urls - length (List.filter id results))%nat.
Proof.
  apply (retry_failed_images_entry_count Fixtures.env_a_only
           Fixtures.resume_args [1%nat; 0%nat] Fixtures.world_ledger).
  - vm_compute. discriminate.
  - vm_compute. reflexivity.
  - reflexivity.
  - reflexivity.
  - vm_compute. apply perm_swap.
Defined.

(* ===================================================================== *)
(** * Discovery: the links selected in a page *)
(* ===================================================================== *)

Lemma list_set_In (l : list string) (x : string) :
  In x (list_set l) <-> In x l.
Proof.
  unfold list_set. rewrite <- !list_elem_of_In, elem_of_elements.
  apply elem_of_list_to_set.
Qed.

Lemma list_set_NoDup (l : list string) : NoDup (list_set l).
Proof. unfold list_set. apply NoDup_elements. Qed.

Lemma list_set_nil (l : list string) : list_set l = [] <-> l = [].
Proof.
  split.
  - intros H. destruct l as [|x l]; [reflexivity|].
    assert (Hin : In x (list_set (x :: l))) by (apply list_set_In; left; reflexivity).
    rewrite H in Hin. destruct Hin.
  - intros ->. reflexivity.
Qed.

Lemma filter_nil_existsb {A : Type} (P : A -> bool) (l : list A) :
  List.filter P l = [] <-> existsb P l = false.
Proof.
  induction l as [|x l IH]; simpl; [tauto|].
  destruct (P x); simpl; [split; discriminate|exact IH].
Qed.

Lemma first_nonempty_head (s : list string) (rest : list (list string)) :
  s <> [] -> first_nonempty (s :: rest) = s.
Proof. destruct s; [congruence|reflexivity]. Qed.

Lemma first_nonempty_nil (selectors : list (list string)) :
  first_nonempty selectors = [] <-> Forall (fun s => s = []) selectors.
Proof.
  induction selectors as [|[|x s] rest IH]; simpl.
  - split; [constructor|reflexivity].
  - rewrite IH. split; [constructor; [reflexivity|assumption]|].
    intros H. inversion H; assumption.
  - split; [discriminate|]. intros H. inversion H; discriminate.
Qed.

Section Selection.

Variable E : environment.

Lemma join_all_Forall2 (base : string) (links us : list string) :
  join_all E base links = Some us
  <-> Forall2 (fun link u => urljoin E base link = Some u) links us.
Proof.
  revert us. induction links as [|link links IH]; intros us; cbn [join_all].
  - split.
    + intros [= <-]. constructor.
    + intros H. inversion H. reflexivity.
  - destruct (urljoin E base link) as [u|] eqn:Hu.
    + destruct (join_all E base links) as [us'|].
      * split.
        -- intros [= <-]. constructor; [exact Hu|]. apply IH. reflexivity.
        -- intros H. inversion H as [|? u0 ? us0 H1 H2]; subst.
           apply IH in H2. congruence.
      * split; [discriminate|].
        intros H. inversion H as [|? u0 ? us0 H1 H2]; subst.
        apply IH in H2. discriminate.
    + split; [discriminate|].
      intros H. inversion H as [|? u0 ? us0 H1 H2]; subst. congruence.
Qed.

Lemma join_all_None (base : string) (links : list string) :
  join_all E base links = None
  <-> exists link, In link links /\ urljoin E base link = None.
Proof.
  induction links as [|link links IH]; cbn [join_all].
  - split; [discriminate|]. intros (? & [] & _).
  - destruct (urljoin E base link) as [u|] eqn:Hu.
    + destruct (join_all E base links) as [us'|].
      * split; [discriminate|].
        intros (l & [<-|Hin] & Hl); [congruence|].
        assert (H : Some us' = None) by (apply IH; eauto). discriminate.
      * split; [|reflexivity]. intros _.
        destruct (proj1 IH eq_refl) as (l & Hin & Hl).
        exists l. split; [right; exact Hin|exact Hl].
    + split; [|reflexivity]. intros _. exists link.
      split; [left; reflexivity|exact Hu].
Qed.

Lemma join_all_In (base : string) (links us : list string) (u : string) :
  join_all E base links = Some us ->
  In u us <-> exists link, In link links /\ urljoin E base link = Some u.
Proof.
  rewrite join_all_Forall2. induction 1 as [|link v links us Hv _ IH].
  - split; [intros []|intros (? & [] & _)].
  - cbn [In]. rewrite IH. split.
    + intros [<-|(l & Hin & Hl)]; [exists link; auto|exists l; auto].
    + intros (l & [<-|Hin] & Hl); [left; congruence|right; eauto].
Qed.

Lemma join_all_nil (base : string) (links us : list string) :
  join_all E base links = Some us -> us = [] -> links = [].
Proof.
  rewrite join_all_Forall2. intros H ->. inversion H. reflexivity.
Qed.

(** X18.  In a category page where some hyperlink target contains
    [/image-feature/], only those targets are looked at, not the
    hyperlinks to image files nor the [<img>] sources: when each can be
    joined to the category URL, the links selected are the joined
    targets, each once; when [urljoin] raises for one of them, no link
    is selected at all. *)
Theorem select_image_links_feature_first (category_url : string)
    (soup : list tag) :
  let feature := hrefs_where (PyStr.contains "/image-feature/") soup in
  feature <> [] ->
  ((forall href, In href feature -> is_Some (urljoin E category_url href)) ->
   NoDup (select_image_links E category_url soup)
   /\ forall link,
        In link (select_image_links E category_url soup)
        <-> exists href,
              In href feature /\ urljoin E category_url href = Some link)
  /\ ((exists href, In href feature /\ urljoin E category_url href = None) ->
      select_image_links E category_url soup = []).
Proof.
  intros feature Hne. unfold select_image_links. cbv zeta. fold feature.
  rewrite first_nonempty_head by exact Hne.
  destruct feature as [|href hrefs] eqn:Hh; [congruence|]. split.
  - intros Hall.
    destruct (join_all E category_url (href :: hrefs)) as [us|] eqn:Hj.
    + split; [apply list_set_NoDup|].
      intros link. rewrite list_set_In. apply join_all_In, Hj.
    + apply join_all_None in Hj as (l & Hin & Hl).
      destruct (Hall l Hin) as [u Hu]. congruence.
  - intros Hex. apply join_all_None in Hex. rewrite Hex. reflexivity.
Qed.

(** X19.  The selection of a category page is empty in two cases only:
    the page has no hyperlink whose target contains [/image-feature/],
    none whose lower-cased target contains a known image extension, and
    no [<img>] whose source starts with [http]; or [urljoin] raises for
    a link of the first of these three kinds that the page has. *)
Theorem select_image_links_empty (category_url : string) (soup : list tag) :
  let feature := hrefs_where (PyStr.contains "/image-feature/") soup in
  let files :=
    hrefs_where (fun href => any_in IMAGE_EXTENSIONS (PyStr.lower href)) soup in
  let images := srcs_where (PyStr.startswith "http") soup in
  select_image_links E category_url soup = []
  <-> (feature = [] /\ files = [] /\ images = [])
      \/ exists link,
           urljoin E category_url link = None
           /\ (In link feature
               \/ (feature = [] /\ In link files)
               \/ (feature = [] /\ files = [] /\ In link images)).
Proof.
  intros feature files images.
  unfold select_image_links. cbv zeta. fold feature files images.
  assert (Hsel : forall sel : list string,
            sel <> [] ->
            match join_all E category_url sel with
            | Some image_links => list_set image_links
            | None => []
            end = []
            <-> exists link, urljoin E category_url link = None /\ In link sel).
  { intros sel Hne. destruct sel as [|x sel]; [congruence|].
    destruct (join_all E category_url (x :: sel)) as [us|] eqn:Hj.
    - split.
      + intros Hnil. apply (proj1 (list_set_nil us)) in Hnil.
        apply (join_all_nil _ _ _ Hj) in Hnil. discriminate.
      + intros (l & Hl & Hin).
        assert (Hn : join_all E category_url (x :: sel) = None)
          by (apply join_all_None; eauto).
        congruence.
    - split; [|reflexivity]. intros _.
      apply join_all_None in Hj as (l & Hin & Hl). eauto. }
  destruct feature as [|f fs]; cbn [first_nonempty].
  2: { rewrite Hsel by discriminate. split.
       - intros (l & Hl & Hin). right. exists l. auto.
       - intros [(H & _)|(l & Hl & [Hin|[(H & _)|(H & _)]])];
           try discriminate. eauto. }
  destruct files as [|g gs]; cbn [first_nonempty].
  2: { rewrite Hsel by discriminate. split.
       - intros (l & Hl & Hin). right. exists l. auto.
       - intros [(_ & H & _)|(l & Hl & [[]|[(_ & Hin)|(_ & H & _)]])];
           try discriminate. eauto. }
  destruct images as [|i rest]; cbn [first_nonempty].
  - split; [auto|reflexivity].
  - rewrite Hsel by discriminate. split.
    + intros (l & Hl & Hin). right. exists l.
      split; [exact Hl|]. right. right. auto.
    + intros [(_ & _ & H)|(l & Hl & [[]|[(_ & [])|(_ & _ & Hin)]])];
        try discriminate. eauto.
Qed.

(** X20.  The category links are chosen by one pattern only, the first
    of [/image-feature/], [gallery], [images] that the target of some
    hyperlink of the page contains.  When each target that contains that
    pattern can be joined to the base URL, the links are the joined
    targets, as a set; when [urljoin] raises for one of them, or when no
    target contains any of the three patterns, there are no category
    links. *)
Theorem select_category_links_by_first_pattern (soup : list tag) :
  match category_pattern soup with
  | Some pat =>
      let links := List.filter (PyStr.contains pat) (anchor_hrefs soup) in
      (forall joined_links,
         Forall2 (fun link u => urljoin E BASE_URL link = Some u)
           links joined_links ->
         select_category_links E soup = list_set joined_links)
      /\ ((exists link, In link links /\ urljoin E BASE_URL link = None) ->
          select_category_links E soup = [])
  | None => select_category_links E soup = []
  end.
Proof.
  assert (Hsel : forall links,
            (forall joined_links,
               Forall2 (fun link u => urljoin E BASE_URL link = Some u)
                 links joined_links ->
               match join_all E BASE_URL links with
               | Some category_links => list_set category_links
               | None => []
               end = list_set joined_links)
            /\ ((exists link, In link links /\ urljoin E BASE_URL link = None) ->
                match join_all E BASE_URL links with
                | Some category_links => list_set category_links
                | None => []
                end = [])).
  { intros links. split.
    - intros us Hus. apply join_all_Forall2 in Hus. rewrite Hus. reflexivity.
    - intros Hex. apply join_all_None in Hex. rewrite Hex. reflexivity. }
  unfold select_category_links, category_pattern, hrefs_where. cbv zeta.
  fold (anchor_hrefs soup). cbn [List.find first_nonempty].
  destruct (existsb (PyStr.contains "/image-feature/") (anchor_hrefs soup))
    eqn:H1.
  { destruct (List.filter (PyStr.contains "/image-feature/") (anchor_hrefs soup))
      eqn:Hf; [|apply Hsel].
    apply filter_nil_existsb in Hf. congruence. }
  apply filter_nil_existsb in H1. rewrite H1.
  destruct (existsb (PyStr.contains "gallery") (anchor_hrefs soup)) eqn:H2.
  { destruct (List.filter (PyStr.contains "gallery") (anchor_hrefs soup))
      eqn:Hf; [|apply Hsel].
    apply filter_nil_existsb in Hf. congruence. }
  apply filter_nil_existsb in H2. rewrite H2.
  destruct (existsb (PyStr.contains "images") (anchor_hrefs soup)) eqn:H3.
  { destruct (List.filter (PyStr.contains "images") (anchor_hrefs soup))
      eqn:Hf; [|apply Hsel].
    apply filter_nil_existsb in Hf. congruence. }
  apply filter_nil_existsb in H3. rewrite H3. reflexivity.
Qed.

End Selection.

Lemma select_image_links_feature_first_witness :
  NoDup (select_image_links Fixtures.env_page Fixtures.page
           Fixtures.category_page)
  /\ forall link,
       In link (select_image_links Fixtures.env_page Fixtures.page
                  Fixtures.category_page)
       <-> exists href,
             In href (hrefs_where (PyStr.contains "/image-feature/")
                        Fixtures.category_page)
             /\ urljoin Fixtures.env_page Fixtures.page href = Some link.
Proof.
  destruct (select_image_links_feature_first Fixtures.env_page Fixtures.page
              Fixtures.category_page) as [H _].
  - vm_compute. discriminate.
  - apply H. intros href _. eexists. reflexivity.
Defined.

(* ===================================================================== *)
(** * Checks of the embedding on concrete inputs *)
(* ===================================================================== *)

Example md5_empty : MD5.hexdigest "" = "d41d8cd98f00b204e9800998ecf8427e".
Proof. vm_compute. reflexivity. Qed.

Example md5_abc : MD5.hexdigest "abc" = "900150983cd24fb0d6963f7d28e17f72".
Proof. vm_compute. reflexivity. Qed.

Example md5_url :
  MD5.hexdigest "https://cdn.example.com/img/full_001.JPG?size=orig"
  = "552051f3cc4e541e894047611120e45a".
Proof. vm_compute. reflexivity. Qed.

Example name_scenario :
  generate_unique_filename "https://cdn.example.com/img/full_001.JPG?size=orig"
  = "full_001_552051f3.JPG".
Proof. vm_compute. reflexivity. Qed.

Example name_no_ext :
  generate_unique_filename "https://example.com/page/x" = "x_e5a2698d.jpg".
Proof. vm_compute. reflexivity. Qed.

Example name_leading_dot :
  generate_unique_filename "https://example.com/a/.jpg" = ".jpg_7a1aee23.jpg".
Proof. vm_compute. reflexivity. Qed.

Example name_dots_query :
  generate_unique_filename "https://example.com/a/..png?x=1"
  = "..png_503fee5c.jpg".
Proof. vm_compute. reflexivity. Qed.

Example name_trailing_slash :
  generate_unique_filename "https://e.com/" = "_26455d8a.jpg".
Proof. vm_compute. reflexivity. Qed.

Example name_upper_tiff :
  generate_unique_filename "a.b.TIFF" = "a.b_65210a32.TIFF".
Proof. vm_compute. reflexivity. Qed.

Example name_two_blocks :
  generate_unique_filename
    "https://example.com/some/really/long/path/that/exceeds/sixty/four/bytes/to/test/blocks/pic.webp"
  = "pic_69860495.jpg".
Proof. vm_compute. reflexivity. Qed.

